(** * Sofascore EPL scraper: a shallow embedding of [scraper.py] and [runner.py]

    The development follows the layering of the Python package:

    - [PyStr], [Re], [PyFloat]: the fragment of Python's [str], [re] and
      [float] that the scraper relies on;
    - [ScrapingConfig]: the constants of [config.py];
    - [Selenium]: the WebDriver as an external collaborator (an interface
      of calls, answered by an arbitrary environment) and the monad in
      which the scraper's methods run;
    - [Scraper]: the methods of [SofaScoreEPLScraper];
    - [Runner]: [runner.main];
    - [Sim]: a small scripted browser used to run the model on concrete
      scenarios;
    - the theorems.

    Conventions.  Strings are sequences of code points below 256.  Durations
    and clock readings are integers in milliseconds.  Calls to [logger] have
    no effect on control flow or data and are left out. *)

From Stdlib Require Import ZArith List String Ascii Bool Lia.
From Stdlib Require Import Floats DecimalString.
From stdpp Require Import gmap strings list fin_maps.

Set Warnings "-register-all,-inexact-float".
Local Open Scope string_scope.
Local Open Scope Z_scope.

(** ** Python strings *)

Module PyStr.

Definition code (c : ascii) : N := N_of_ascii c.

Definition in_range (lo hi : N) (c : ascii) : bool :=
  (lo <=? code c)%N && (code c <=? hi)%N.

(** [str.isdigit] / the class [\d]: the decimal digits below code 256. *)
Definition is_digit (c : ascii) : bool := in_range 48 57 c.

(** [str.isspace] / the class [\s] below code 256: TAB..CR, FS..US,
    space, NEL and NBSP. *)
Definition is_space (c : ascii) : bool :=
  in_range 9 13 c || in_range 28 32 c
  || (code c =? 133)%N || (code c =? 160)%N.

Definition is_upper (c : ascii) : bool :=
  in_range 65 90 c || (in_range 192 222 c && negb (code c =? 215)%N).

Definition is_lower_letter (c : ascii) : bool :=
  in_range 97 122 c || (in_range 224 254 c && negb (code c =? 247)%N).

Definition lower_char (c : ascii) : ascii :=
  if is_upper c then ascii_of_N (code c + 32) else c.

Definition upper_char (c : ascii) : ascii :=
  if is_lower_letter c then ascii_of_N (code c - 32) else c.

Definition chars (s : string) : list ascii := list_ascii_of_string s.
Definition of_chars (l : list ascii) : string := string_of_list_ascii l.

(** [s.lower()] *)
Definition lower (s : string) : string :=
  of_chars (List.map lower_char (chars s)).

Fixpoint lstrip_chars (p : ascii -> bool) (l : list ascii) : list ascii :=
  match l with
  | c :: l' => if p c then lstrip_chars p l' else l
  | [] => []
  end.

Definition rstrip_chars (p : ascii -> bool) (l : list ascii) : list ascii :=
  List.rev (lstrip_chars p (List.rev l)).

(** [s.strip()] *)
Definition strip (s : string) : string :=
  of_chars (rstrip_chars is_space (lstrip_chars is_space (chars s))).

(** [s.rstrip(c)] for a one-character argument *)
Definition rstrip_char (c : ascii) (s : string) : string :=
  of_chars (rstrip_chars (Ascii.eqb c) (chars s)).

(** [s.replace(c, "")] for a one-character [c] *)
Definition remove_char (c : ascii) (s : string) : string :=
  of_chars (List.filter (fun x => negb (Ascii.eqb c x)) (chars s)).

Fixpoint is_prefix (p l : list ascii) : bool :=
  match p, l with
  | [], _ => true
  | a :: p', b :: l' => Ascii.eqb a b && is_prefix p' l'
  | _ :: _, [] => false
  end.

(** [s.startswith(p)] *)
Definition startswith (p s : string) : bool := is_prefix (chars p) (chars s).

Fixpoint contains_chars (p l : list ascii) : bool :=
  is_prefix p l ||
  match l with
  | [] => false
  | _ :: l' => contains_chars p l'
  end.

(** [p in s] *)
Definition contains (p s : string) : bool := contains_chars (chars p) (chars s).

(** [s.split(c)[-1]]: the text after the last occurrence of [c]. *)
Fixpoint last_field (c : ascii) (acc l : list ascii) : list ascii :=
  match l with
  | [] => List.rev acc
  | x :: l' => if Ascii.eqb c x then last_field c [] l'
               else last_field c (x :: acc) l'
  end.

Definition split_last (c : ascii) (s : string) : string :=
  of_chars (last_field c [] (chars s)).

Definition digit_val (c : ascii) : Z := Z.of_N (code c) - 48.

(** [int(s)] for a string of decimal digits. *)
Definition int_of_digits (l : list ascii) : Z :=
  List.fold_left (fun acc c => 10 * acc + digit_val c) l 0.

(** [sys.get_int_max_str_digits()]: the longest string of digits that
    [int] converts. *)
Definition int_max_str_digits : nat := 4300.

(** [int(s)] for a string [s] of decimal digits; [None] stands for the
    [ValueError] raised on a string of more than [int_max_str_digits]
    digits. *)
Definition int_of_str (s : string) : option Z :=
  if (int_max_str_digits <? List.length (chars s))%nat then None
  else Some (int_of_digits (chars s)).

(** [str(n)] for an integer. *)
Definition str_of_int (n : Z) : string :=
  NilZero.string_of_int (Z.to_int n).

(** An integer that [str] and the f-strings convert: one of at most
    [int_max_str_digits] digits. *)
Definition printable (n : Z) : Prop :=
  Z.abs n < 10 ^ Z.of_nat int_max_str_digits.

End PyStr.

(** ** Regular expressions

    A backtracking matcher with Python's priorities: repetition and option
    are greedy, alternatives are explored in order, and the first success is
    the match.  Capturing groups carry their number. *)

Module Re.
Import PyStr.

Inductive regex : Type :=
| Chr (c : ascii)                (* a literal character *)
| Cls (p : ascii -> bool)        (* a character class [[...]] *)
| NCls (p : ascii -> bool)       (* a negated class [[^...]] *)
| Dot                            (* [.] *)
| Cat (r1 r2 : regex)
| Star (r : regex)               (* [r*] *)
| Opt (r : regex)                (* [r?] *)
| Grp (i : nat) (r : regex).     (* the [i]-th capturing group *)

Definition Plus (r : regex) : regex := Cat r (Star r).

Fixpoint Lit_chars (l : list ascii) : regex :=
  match l with
  | [] => Star (Cls (fun _ => false))
  | [c] => Chr c
  | c :: l' => Cat (Chr c) (Lit_chars l')
  end.

(** A literal word of the pattern. *)
Definition Lit (s : string) : regex := Lit_chars (chars s).

Record flags := { IGNORECASE : bool; DOTALL : bool }.

Definition no_flags : flags := {| IGNORECASE := false; DOTALL := false |}.

(** [re.IGNORECASE] and [re.IGNORECASE | re.DOTALL] *)
Definition ignore_case : flags := {| IGNORECASE := true; DOTALL := false |}.
Definition ignore_case_dotall : flags := {| IGNORECASE := true; DOTALL := true |}.

Definition captures := list (nat * list ascii).

Definition group (i : nat) (cs : captures) : option string :=
  match List.find (fun p => Nat.eqb (fst p) i) cs with
  | Some p => Some (of_chars (snd p))
  | None => None
  end.

Definition chr_matches (fl : flags) (c x : ascii) : bool :=
  if IGNORECASE fl then Ascii.eqb (lower_char c) (lower_char x)
  else Ascii.eqb c x.

Definition cls_matches (fl : flags) (p : ascii -> bool) (x : ascii) : bool :=
  if IGNORECASE fl then p x || p (lower_char x) || p (upper_char x)
  else p x.

Definition dot_matches (fl : flags) (x : ascii) : bool :=
  DOTALL fl || negb (Ascii.eqb x "010"%char).

Definition one (ok : ascii -> bool) {R} (s : list ascii) (cs : captures)
    (k : list ascii -> captures -> option R) : option R :=
  match s with
  | x :: s' => if ok x then k s' cs else None
  | [] => None
  end.

Definition taken (s s' : list ascii) : list ascii :=
  List.firstn (List.length s - List.length s')%nat s.

(** [run fl r s cs k]: match [r] at the head of [s], then continue with
    [k] on the rest; [None] makes the matcher backtrack. *)
Fixpoint run {R} (fl : flags) (r : regex) (s : list ascii) (cs : captures)
    (k : list ascii -> captures -> option R) {struct r} : option R :=
  match r with
  | Chr c => one (chr_matches fl c) s cs k
  | Cls p => one (cls_matches fl p) s cs k
  | NCls p => one (fun x => negb (cls_matches fl p x)) s cs k
  | Dot => one (dot_matches fl) s cs k
  | Cat r1 r2 => run fl r1 s cs (fun s1 cs1 => run fl r2 s1 cs1 k)
  | Opt r1 =>
      match run fl r1 s cs k with
      | Some x => Some x
      | None => k s cs
      end
  | Grp i r1 =>
      run fl r1 s cs (fun s1 cs1 => k s1 ((i, taken s s1) :: cs1))
  | Star r1 =>
      (fix loop (n : nat) (s : list ascii) (cs : captures) : option R :=
         match n with
         | O => k s cs
         | S n' =>
             match run fl r1 s cs
                     (fun s1 cs1 =>
                        if (List.length s1 <? List.length s)%nat
                        then loop n' s1 cs1 else None) with
             | Some x => Some x
             | None => k s cs
             end
         end) (List.length s) s cs
  end.

(** A match at the head of [s]: the matched text, the rest, the groups. *)
Definition match_here (fl : flags) (r : regex) (s : list ascii)
  : option (list ascii * list ascii * captures) :=
  run fl r s [] (fun s' cs => Some (taken s s', s', cs)).

(** [re.search(r, s, flags)]: the leftmost match. *)
Fixpoint search_chars (fl : flags) (r : regex) (s : list ascii)
  : option captures :=
  match match_here fl r s with
  | Some (_, _, cs) => Some cs
  | None =>
      match s with
      | [] => None
      | _ :: s' => search_chars fl r s'
      end
  end.

Definition search (fl : flags) (r : regex) (s : string) : option captures :=
  search_chars fl r (chars s).

(** [re.findall(r, s)] for a pattern without groups: the successive
    non-overlapping matches, left to right. *)
Fixpoint findall_chars (n : nat) (fl : flags) (r : regex) (s : list ascii)
  : list string :=
  match n with
  | O => []
  | S n' =>
      match match_here fl r s, s with
      | Some (m, rest, _), _ :: s' =>
          of_chars m ::
            findall_chars n' fl r (match m with [] => s' | _ => rest end)
      | Some (m, _, _), [] => [of_chars m]
      | None, _ :: s' => findall_chars n' fl r s'
      | None, [] => []
      end
  end.

Definition findall (fl : flags) (r : regex) (s : string) : list string :=
  findall_chars (S (String.length s)) fl r (chars s).

Definition digit : regex := Cls is_digit.        (* [\d] *)
Definition space : regex := Cls is_space.        (* [\s] *)
Definition non_digit : regex := NCls is_digit.   (* [[^\d]] *)

Definition one_of (s : string) (c : ascii) : bool :=
  List.existsb (Ascii.eqb c) (chars s).

(** The concatenation of the items of a pattern, in order. *)
Fixpoint Seq (rs : list regex) : regex :=
  match rs with
  | [] => Star (Cls (fun _ => false))
  | [r] => r
  | r :: rs' => Cat r (Seq rs')
  end.

End Re.

(** ** Python floats (IEEE binary64) *)

Module PyFloat.
Import PyStr.

Definition prec : Z := 53.
Definition emax : Z := 1024.

(** The binary64 value nearest to [n / d] (ties to even). *)
Definition of_ratio (n d : positive) : spec_float :=
  let '(q, e, l) := SFdiv_core_binary prec emax (Zpos n) 0 (Zpos d) 0 in
  binary_round_aux prec emax false q e l.

Definition of_Z (n : Z) : spec_float :=
  match n with
  | Z0 => S754_zero false
  | Zpos p => of_ratio p 1
  | Zneg p => SFopp (of_ratio p 1)
  end.

Fixpoint split_dot (acc l : list ascii) : list ascii * option (list ascii) :=
  match l with
  | [] => (List.rev acc, None)
  | c :: l' => if Ascii.eqb c "."%char then (List.rev acc, Some l')
               else split_dot (c :: acc) l'
  end.

(** [float(s)] for a text made of digits and dots, the only texts the
    scraper passes to it.  [None] stands for [ValueError]: no digit at
    all, or more than one dot. *)
Definition of_string (s : string) : option spec_float :=
  let '(ip, rest) := split_dot [] (chars s) in
  let fp := match rest with Some f => f | None => [] end in
  if negb (List.forallb is_digit ip && List.forallb is_digit fp) then None
  else if (List.length ip + List.length fp =? 0)%nat then None
  else
    match int_of_digits (ip ++ fp) with
    | Zpos n =>
        Some (of_ratio n (Z.to_pos (10 ^ Z.of_nat (List.length fp))))
    | _ => Some (S754_zero false)
    end.

Definition mul (x y : spec_float) : spec_float := SFmul prec emax x y.

(** [int(x)]: truncation towards zero; [None] stands for the
    [OverflowError] / [ValueError] raised on infinities and NaN. *)
Definition to_int (x : spec_float) : option Z :=
  match x with
  | S754_zero _ => Some 0
  | S754_finite s m e =>
      let a := if (0 <=? e) then Zpos m * 2 ^ e else Zpos m / 2 ^ (- e) in
      Some (if s then - a else a)
  | _ => None
  end.

End PyFloat.

(** ** Python values *)

Local Unset Elimination Schemes.

Inductive pyval : Type :=
| VNone
| VBool (b : bool)
| VInt (n : Z)
| VFloat (x : spec_float)
| VStr (s : string)
| VList (l : list pyval)
| VDict (d : gmap string pyval).

Local Set Elimination Schemes.

(** A match record, a [dict] with string keys. *)
Abbreviation record := (gmap string pyval).

(** Python's truth value of a [dict]. *)
Definition dict_truthy (d : record) : bool :=
  negb (bool_decide (d = ∅)).

(** ** The text parsers of [scraper.py] (lines 613-663) *)

Module Parsers.
Import PyStr Re.

(** [r'\d+\.?\d'] *)
Definition card_number : regex :=
  Seq [Plus digit; Opt (Chr "."); digit].

(** [r'Avg\.\s*cards.?(\d+\.?\d)[^\d](\d+\.?\d)'] *)
Definition card_pattern : regex :=
  Seq [Lit "Avg"; Chr "."; Star space; Lit "cards"; Opt Dot;
       Grp 1 card_number; non_digit; Grp 2 card_number].

(** [r'\d+\.\d+'] *)
Definition decimal_pattern : regex :=
  Seq [Plus digit; Chr "."; Plus digit].

Definition float_or_none (s : option string) : option spec_float :=
  match s with
  | Some t => PyFloat.of_string t
  | None => None
  end.

(** [extract_card_stats_from_text]: the pair (red, yellow).  An
    exception inside the [try] leads to the final [return None, None]. *)
Definition extract_card_stats_from_text (text : string) : pyval * pyval :=
  match search ignore_case_dotall card_pattern text with
  | Some m =>
      match float_or_none (group 1 m), float_or_none (group 2 m) with
      | Some red_cards, Some yellow_cards =>
          (VFloat red_cards, VFloat yellow_cards)
      | _, _ => (VNone, VNone)
      end
  | None =>
      match findall no_flags decimal_pattern text with
      | n0 :: n1 :: _ =>
          match PyFloat.of_string n0, PyFloat.of_string n1 with
          | Some a, Some b => (VFloat a, VFloat b)
          | _, _ => (VNone, VNone)
          end
      | _ => (VNone, VNone)
      end
  end.

(** [r'(\d+)%'] *)
Definition percentage_pattern : regex :=
  Seq [Grp 1 (Plus digit); Chr "%"].

(** [extract_percentage]; an exception of [int] is caught by the bare
    [except] and leads to ["N/A"]. *)
Definition extract_percentage (text : string) : pyval :=
  match search no_flags percentage_pattern text with
  | Some m =>
      match group 1 m with
      | Some g =>
          match int_of_str g with
          | Some n => VInt n
          | None => VStr "N/A"
          end
      | None => VStr "N/A"
      end
  | None => VStr "N/A"
  end.

(** [r"Total votes[:\s]*([\d.,]+)([kM]?)"] *)
Definition total_votes_pattern : regex :=
  Seq [Lit "Total votes";
       Star (Cls (fun c => Ascii.eqb c ":" || is_space c));
       Grp 1 (Plus (Cls (fun c => is_digit c || one_of ".," c)));
       Grp 2 (Opt (Cls (one_of "kM")))].

(** [str(int(float(number) * factor))]; [None] when one of the
    conversions raises. *)
Definition scaled (number : string) (factor : Z) : option string :=
  match PyFloat.of_string number with
  | Some x =>
      match PyFloat.to_int (PyFloat.mul x (PyFloat.of_Z factor)) with
      | Some n => Some (str_of_int n)
      | None => None
      end
  | None => None
  end.

Definition str_or_NA (s : option string) : pyval :=
  match s with
  | Some t => VStr t
  | None => VStr "N/A"
  end.

(** [extract_total_votes]; the pattern is searched with [re.IGNORECASE]. *)
Definition extract_total_votes (text : string) : pyval :=
  match search ignore_case total_votes_pattern text with
  | Some m =>
      match group 1 m, group 2 m with
      | Some g1, Some g2 =>
          let number := remove_char "," g1 in
          let suffix := lower g2 in
          if String.eqb suffix "k" then str_or_NA (scaled number 1000)
          else if String.eqb suffix "m" then str_or_NA (scaled number 1000000)
          else VStr number
      | _, _ => VStr "N/A"
      end
  | None => VStr "N/A"
  end.

(** [classify_event_type] (lines 665-702): the first keyword, in the
    order of the method, that the lowered text contains. *)
Definition classify_event_type (text : string) : string :=
  let lowered := lower text in
  let has (w : string) := contains w lowered in
  if has "goal" then "goal"
  else if has "substitution" || has "subbed" || has "substituted"
    then "substitution"
  else if has "yellow card" || has "booked" then "yellow_card"
  else if has "red card" || has "sent off" then "red_card"
  else if has "corner" then "corner"
  else if has "foul" then "foul"
  else if has "offside" then "offside"
  else if has "penalty" then "penalty"
  else if has "attempt" || has "shot" then "attempt"
  else if has "free kick" then "free_kick"
  else if has "kick-off" || has "kick off" then "kick_off"
  else if has "half time" || has "half-time" then "half_time"
  else if has "full time" || has "full-time" then "full_time"
  else if has "var" then "var"
  else if has "injury" then "injury"
  else "other".

End Parsers.

(** ** [config.py]: the constants of [ScrapingConfig] used by the scraper *)

Module ScrapingConfig.

Definition DROPDOWN_WAIT_TIME : Z := 1500.
Definition SCROLL_PAUSE_TIME : Z := 500.
Definition PAGE_RELOAD_WAIT : Z := 4000.
Definition TAB_OPEN_WAIT : Z := 1000.

Definition SEASON_DROPDOWN_SELECTOR : string :=
  "div.Dropdown.kdhXwd button.DropdownButton.jQruaf".
Definition CURRENT_SEASON_TEXT_SELECTOR : string :=
  "div.Dropdown.kdhXwd button.DropdownButton.jQruaf div.Text.nZQAT".
(** The double quote, for the selectors that contain one. *)
Definition dq : string := String (ascii_of_N 34) EmptyString.

(** [SEASON_OPTION_XPATH.format(season=season)] *)
Definition SEASON_OPTION_XPATH (season : string) : string :=
  ("//ul[@role=" ++ dq ++ "listbox" ++ dq ++ "]//li[@role=" ++ dq ++ "option"
     ++ dq ++ " and normalize-space(text())=" ++ dq ++ season ++ dq ++ "]")%string.
Definition ROUND_DROPDOWN_BUTTON : string :=
  "div[data-panelid='round'] .DropdownButton".
Definition ROUND_TEXT_SELECTOR : string :=
  ("div[data-panelid=" ++ dq ++ "round" ++ dq
     ++ "] div.Dropdown.gSFIyj button.DropdownButton.jQruaf div.Text.nZQAT")%string.
Definition NEXT_ROUND_ARROW : string :=
  "div.Wrapper.d_flex.ai_center button.Button.iCnTrv:last-child".
Definition PREV_ROUND_ARROW : string :=
  "div.Wrapper.d_flex.ai_center button.Button.iCnTrv:first-child".
Definition MATCH_LINK_SELECTOR : string := "a[class*='event-hl-']".

End ScrapingConfig.

(** ** The WebDriver as an external collaborator *)

Module Selenium.

Definition element := N.
Definition handle := string.

Inductive By := ID | CSS_SELECTOR | XPATH | TAG_NAME.

(** The exceptions that reach the scraper.  The first five are
    [WebDriverException] and its subclasses; [KeyboardInterrupt] is the
    only one outside [Exception]. *)
Inductive exn :=
| WebDriverException
| TimeoutException
| NoSuchElementException
| ElementClickInterceptedException
| StaleElementReferenceException
| IndexError
| KeyError
| TypeError
| ValueError
| OtherError
| KeyboardInterrupt.

Definition is_Exception (e : exn) : bool :=
  match e with KeyboardInterrupt => false | _ => true end.

Definition is_WebDriverException (e : exn) : bool :=
  match e with
  | WebDriverException | TimeoutException | NoSuchElementException
  | ElementClickInterceptedException | StaleElementReferenceException => true
  | _ => false
  end.

(** What the scraper asks of the outside world: the driver, the clock
    ([time.sleep]), [random.uniform] and [persistence.save_data]. *)
Inductive call :=
| NewChrome (headless : bool)               (* webdriver.Chrome(options=opts) *)
| ImplicitlyWait (seconds : Z)
| CurrentWindowHandle
| SessionId        (* hasattr(driver, "session_id") and driver.session_id is not None *)
| DriverQuit
| DriverGet (url : string)
| DriverClose
| WindowHandles
| SwitchToWindow (h : option handle)
| ExecuteScript (js : string) (arg : option element)
| WaitPresence (by_ : By) (sel : string)    (* wait.until(presence_of_element_located) *)
| WaitPresenceAll (by_ : By) (sel : string) (* wait.until(presence_of_all_elements_located) *)
| WaitClickable (by_ : By) (sel : string)   (* wait.until(element_to_be_clickable) *)
| FindElements (scope : option element) (by_ : By) (sel : string)
| ElementText (e : element)
| GetAttribute (e : element) (name : string)
| ElementClick (e : element)
| Sleep (ms : Z)
| RandomUniform (lo hi : Z)
| SaveData (data : list record).

Definition ret_ty (c : call) : Type :=
  match c with
  | CurrentWindowHandle => handle
  | SessionId => bool
  | WindowHandles => list handle
  | ExecuteScript _ _ => option Z
  | WaitPresence _ _ | WaitClickable _ _ => element
  | FindElements _ _ _ => list element
  | ElementText _ => string
  | GetAttribute _ _ => option string
  | RandomUniform _ _ => Z
  | _ => unit
  end.

Inductive res (A : Type) : Type :=
| Ret (a : A)
| Raise (e : exn).
Arguments Ret {A} a.
Arguments Raise {A} e.

(** An environment answers every call with a value or an exception, moves
    to a new state and takes some time (in addition to the requested
    duration, for [Sleep]). *)
Class Driver (World : Type) : Type :=
  exec : forall c : call, World -> res (ret_ty c) * World * N.

(** One entry of the history of calls: the call and the exception it
    raised, if any. *)
Record event := Ev { ev_call : call; ev_exn : option exn }.

Definition exn_of {A} (r : res A) : option exn :=
  match r with Ret _ => None | Raise e => Some e end.

Section Monad.
Context {World : Type} {drv : Driver World}.

(** The state in which the methods run: the environment, the history of
    calls (most recent first), the clock, and the fields [driver] and
    [original_tab] of the scraper object. *)
Record session := Session {
  world : World;
  history : list event;
  now : Z;
  driver : bool;
  original_tab : option handle
}.

Definition D (A : Type) : Type := session -> res A * session.

Definition ret {A} (a : A) : D A := fun st => (Ret a, st).
Definition raise {A} (e : exn) : D A := fun st => (Raise e, st).

Definition bind {A B} (m : D A) (f : A -> D B) : D B :=
  fun st =>
    match m st with
    | (Ret a, st') => f a st'
    | (Raise e, st') => (Raise e, st')
    end.

(** [try: m except <the exceptions h catches>: ...] *)
Definition try_except {A} (m : D A) (h : exn -> option (D A)) : D A :=
  fun st =>
    match m st with
    | (Ret a, st') => (Ret a, st')
    | (Raise e, st') =>
        match h e with
        | Some k => k st'
        | None => (Raise e, st')
        end
    end.

(** [try: m finally: f] *)
Definition try_finally {A} (m : D A) (f : D unit) : D A :=
  fun st =>
    let '(r, st1) := m st in
    match f st1 with
    | (Ret _, st2) => (r, st2)
    | (Raise e, st2) => (Raise e, st2)
    end.

Definition elapsed (c : call) (o : option exn) (extra : N) : Z :=
  match c, o with
  | Sleep ms, None => Z.max 0 ms + Z.of_N extra
  | _, _ => Z.of_N extra
  end.

(** Issue one call to the environment. *)
Definition prim (c : call) : D (ret_ty c) :=
  fun st =>
    let '(r, w, extra) := exec c (world st) in
    (r, {| world := w;
           history := Ev c (exn_of r) :: history st;
           now := now st + elapsed c (exn_of r) extra;
           driver := driver st;
           original_tab := original_tab st |}).

(** A computation that makes no call: its value or its exception. *)
Definition of_res {A} (r : res A) : D A := fun st => (r, st).

(** [time.time()] *)
Definition time_time : D Z := fun st => (Ret (now st), st).

(** Reads and writes of the fields [driver] and [original_tab]. *)
Definition get_original_tab : D (option handle) :=
  fun st => (Ret (original_tab st), st).

Definition get_driver : D bool :=
  fun st => (Ret (driver st), st).

Definition set_driver : D unit :=
  fun st => (Ret tt, {| world := world st; history := history st;
                        now := now st; driver := true;
                        original_tab := original_tab st |}).

Definition set_original_tab (h : handle) : D unit :=
  fun st => (Ret tt, {| world := world st; history := history st;
                        now := now st; driver := driver st;
                        original_tab := Some h |}).

(** The handlers [except Exception] and [except TimeoutException]. *)
Definition except_Exception {A} (k : D A) (e : exn) : option (D A) :=
  if is_Exception e then Some k else None.

Definition except_Timeout {A} (k : D A) (e : exn) : option (D A) :=
  match e with TimeoutException => Some k | _ => None end.

End Monad.

Arguments session World : clear implicits.
Arguments D World A : clear implicits.

End Selenium.

Declare Scope py_scope.
Delimit Scope py_scope with py.
Notation "x <- m ;; k" := (Selenium.bind m (fun x => k))
  (at level 100, m at next level, right associativity) : py_scope.
Notation "m ;; k" := (Selenium.bind m (fun _ => k))
  (at level 100, right associativity) : py_scope.

(** ** [scraper.py]: the methods of [SofaScoreEPLScraper] *)

Module Scraper.
Import PyStr Re Selenium ScrapingConfig.
Local Open Scope py_scope.

(** An entry of the list returned by [get_match_links]. *)
Record link := Link { url : string; match_id : string }.

(** The field extractors of [scrape_match] other than [_get_stats]
    (lines 293-503) are kept abstract: an extractor converses with the
    environment and comes back with a value or an exception, the calls it
    has issued (most recent first) and the time it has taken. *)
Definition extractor (World : Type) : Type :=
  World -> res pyval * World * list event * N.

Record extractors (World : Type) := Extractors {
  _get_date_time : extractor World;
  _get_teams : extractor World;
  _get_venue : extractor World;
  _get_referee : extractor World;
  _get_odds : extractor World;
  _get_crowd_voting : extractor World
}.
Arguments _get_date_time {World}.
Arguments _get_teams {World}.
Arguments _get_venue {World}.
Arguments _get_referee {World}.
Arguments _get_odds {World}.
Arguments _get_crowd_voting {World}.

Section Methods.
Context {World : Type} {drv : Driver World}.
Local Abbreviation D := (D World).

(** [time.sleep] *)
Definition sleep (ms : Z) : D unit := prim (Sleep ms).

(** The call of an extractor. *)
Definition extract (f : extractor World) : D pyval :=
  fun st =>
    let '(r, w, evs, dt) := f (world st) in
    (r, {| world := w;
           history := evs ++ history st;
           now := now st + Z.of_N dt;
           driver := driver st;
           original_tab := original_tab st |}).

(** *** Driver management (lines 45-149) *)

Definition setup_driver (headless : bool) (implicit_wait : Z) : D unit :=
  prim (NewChrome headless) ;;
  set_driver ;;
  prim (ImplicitlyWait implicit_wait) ;;
  h <- prim CurrentWindowHandle ;;
  set_original_tab h.

Definition quit : D unit :=
  d <- get_driver ;;
  if d : bool then
    try_except
      (alive <- prim SessionId ;;
       if alive : bool then prim DriverQuit else ret tt)
      (except_Exception (ret tt))
  else ret tt.

Definition cookie_selectors : list (By * string) :=
  [ (ID, "onetrust-accept-btn-handler");
    (CSS_SELECTOR, "button.css-1ohyq2v");
    (CSS_SELECTOR, "div.ot-sdk-row button.ot-accept-btn");
    (XPATH, "//button[contains(., 'Accept All') or contains(., 'Consent')]");
    (XPATH, "//button[contains(., 'Accept cookies') or contains(., 'Allow all')]") ].

(** The body of [dismiss_cookies], under its [@retry] decorator. *)
Fixpoint dismiss_cookies_from (sels : list (By * string)) : D bool :=
  match sels with
  | [] => ret false
  | (by_, sel) :: rest =>
      try_except
        (btn <- prim (WaitClickable by_ sel) ;;
         prim (ElementClick btn) ;;
         sleep 1000 ;;
         ret true)
        (except_Exception (dismiss_cookies_from rest))
  end.

Definition js_scroll_into_view : string :=
  "arguments[0].scrollIntoView({block:'center'});".
Definition js_click : string := "arguments[0].click();".

Definition click_intercepted (e : exn) : bool :=
  match e with
  | ElementClickInterceptedException | StaleElementReferenceException => true
  | _ => false
  end.

(** [safe_click(elt, retries)]: the loop [for i in range(retries)]. *)
Fixpoint safe_click_loop (retries : nat) (elt : element) : D bool :=
  match retries with
  | O => ret false
  | S n =>
      try_except
        (prim (ExecuteScript js_scroll_into_view (Some elt)) ;;
         sleep 200 ;;
         prim (ElementClick elt) ;;
         ret true)
        (fun e =>
           if click_intercepted e then
             Some (try_except
                     (prim (ExecuteScript js_click (Some elt)) ;;
                      ret true)
                     (except_Exception
                        (sleep 500 ;; safe_click_loop n elt)))
           else except_Exception (sleep 500 ;; safe_click_loop n elt) e)
  end.

Definition safe_click (elt : element) : D bool := safe_click_loop 3 elt.

(** [safe_find(by, sel)]; the parameter [timeout] is not used by the
    method, which waits on [self.wait]. *)
Definition safe_find (by_ : By) (sel : string) : D (option element) :=
  try_except
    (elt <- prim (WaitPresence by_ sel) ;; ret (Some elt))
    (except_Timeout (ret None)).

Definition safe_find_all (by_ : By) (sel : string) : D (list element) :=
  try_except
    (prim (WaitPresenceAll by_ sel) ;;
     prim (FindElements None by_ sel))
    (except_Timeout (ret [])).

(** [if not elt or not self.safe_click(elt)] is false, that is: the
    element was found and clicked. *)
Definition found_and_clicked (elt : option element) : D bool :=
  match elt with
  | Some e => safe_click e
  | None => ret false
  end.

(** *** Page navigation (lines 152-231) *)

Definition _is_season_selected (season : string) : D bool :=
  elt <- safe_find CSS_SELECTOR CURRENT_SEASON_TEXT_SELECTOR ;;
  match elt with
  | Some e =>
      text <- prim (ElementText e) ;;
      ret (String.eqb (strip text) season)
  | None => ret false
  end.

Definition select_season (season : string) : D bool :=
  selected <- _is_season_selected season ;;
  if selected : bool then ret true
  else
    btn <- safe_find CSS_SELECTOR SEASON_DROPDOWN_SELECTOR ;;
    opened <- found_and_clicked btn ;;
    if negb opened then ret false
    else
      sleep DROPDOWN_WAIT_TIME ;;
      opt <- safe_find XPATH (SEASON_OPTION_XPATH season) ;;
      chosen <- found_and_clicked opt ;;
      if negb chosen then ret false
      else
        sleep PAGE_RELOAD_WAIT ;;
        ret true.

(** [r"Round (\d+)"] *)
Definition round_pattern : regex := Seq [Lit "Round "; Grp 1 (Plus digit)].

(** Lines 185-186 of [_extract_round]: the round number read from the
    text of the round label; [int] raises [ValueError] on a number of more
    than [int_max_str_digits] digits. *)
Definition parse_round (text : string) : res (option Z) :=
  match search no_flags round_pattern (strip text) with
  | Some m =>
      match group 1 m with
      | Some g =>
          match int_of_str g with
          | Some n => Ret (Some n)
          | None => Raise ValueError
          end
      | None => Raise TypeError
      end
  | None => Ret None
  end.

Definition _extract_round : D (option Z) :=
  elt <- safe_find CSS_SELECTOR ROUND_TEXT_SELECTOR ;;
  match elt with
  | None => ret None
  | Some e =>
      text <- prim (ElementText e) ;;
      of_res (parse_round text)
  end.

(** [f"//ul[@role='listbox']//li[@role='option' and text()='Round {target}']"] *)
Definition round_option_xpath (target : Z) : string :=
  ("//ul[@role='listbox']//li[@role='option' and text()='Round "
     ++ str_of_int target ++ "']")%string.

(** Lines 197-205 of [navigate_to_round]: the selection through the
    dropdown; [true] when the method returns from there. *)
Definition round_by_dropdown (target : Z) : D bool :=
  btn <- safe_find CSS_SELECTOR ROUND_DROPDOWN_BUTTON ;;
  opened <- found_and_clicked btn ;;
  if opened : bool then
    sleep DROPDOWN_WAIT_TIME ;;
    opt <- safe_find XPATH (round_option_xpath target) ;;
    chosen <- found_and_clicked opt ;;
    if chosen : bool then sleep PAGE_RELOAD_WAIT ;; ret true
    else ret false
  else ret false.

(** The loop [for _ in range(abs(diff))] of lines 209-214; [false]
    when it returns [False] from inside the loop. *)
Fixpoint arrow_steps (selector : string) (n : nat) : D bool :=
  match n with
  | O => ret true
  | S n' =>
      arrow <- safe_find CSS_SELECTOR selector ;;
      clicked <- found_and_clicked arrow ;;
      if negb clicked then ret false
      else sleep SCROLL_PAUSE_TIME ;; arrow_steps selector n'
  end.

Definition arrow_selector (diff : Z) : string :=
  if 0 <? diff then NEXT_ROUND_ARROW else PREV_ROUND_ARROW.

(** [current or 0] *)
Definition or_zero (current : option Z) : Z :=
  match current with Some c => c | None => 0 end.

(** Lines 207-217 of [navigate_to_round]: stepping with the arrows. *)
Definition round_by_arrows (target : Z) (current : option Z) : D bool :=
  let diff := target - or_zero current in
  let selector := arrow_selector diff in
  done <- arrow_steps selector (Z.to_nat (Z.abs diff)) ;;
  if done : bool then sleep PAGE_RELOAD_WAIT ;; ret true
  else ret false.

Definition navigate_to_round (target : Z) : D bool :=
  current <- _extract_round ;;
  if bool_decide (current = Some target) then ret true
  else
    selected <- round_by_dropdown target ;;
    if selected : bool then ret true
    else round_by_arrows target current.

Definition id_pattern : regex := Seq [Lit "#id:"; Grp 1 (Plus digit)].

(** One element of the loop of [get_match_links]. *)
Definition link_of_href (href : string) : option link :=
  if contains "/football/match/" href then
    let full := if startswith "http" href then href
                else ("https://www.sofascore.com" ++ href)%string in
    let mid :=
      match search no_flags id_pattern href with
      | Some m =>
          match group 1 m with
          | Some g => g
          | None => EmptyString
          end
      | None => split_last "/" (rstrip_char "/" href)
      end in
    Some (Link full mid)
  else None.

Fixpoint links_of (elems : list element) : D (list link) :=
  match elems with
  | [] => ret []
  | e :: rest =>
      attr <- prim (GetAttribute e "href") ;;
      let href := match attr with Some h => h | None => EmptyString end in
      links <- links_of rest ;;
      ret (match link_of_href href with
           | Some l => l :: links
           | None => links
           end)
  end.

Definition get_match_links : D (list link) :=
  elems <- safe_find_all CSS_SELECTOR MATCH_LINK_SELECTOR ;;
  links_of elems.

(** *** Statistics (lines 505-610) *)

Definition js_scroll_height : string := "return arguments[0].scrollHeight".
Definition js_scroll_to_end : string :=
  "arguments[0].scrollTop = arguments[0].scrollHeight".

(** The loop [for _ in range(max_scrolls)] of [_scroll_container]. *)
Fixpoint scroll_loop (n : nat) (elt : element) (last : option Z) : D unit :=
  match n with
  | O => ret tt
  | S n' =>
      prim (ExecuteScript js_scroll_to_end (Some elt)) ;;
      sleep SCROLL_PAUSE_TIME ;;
      new <- prim (ExecuteScript js_scroll_height (Some elt)) ;;
      if bool_decide (new = last) then ret tt
      else scroll_loop n' elt new
  end.

Definition _scroll_container (elt : element) : D unit :=
  last <- prim (ExecuteScript js_scroll_height (Some elt)) ;;
  scroll_loop 5 elt last.

Definition STATS_CONTAINER : string := "div.Box.Flex.gQxTzO".
Definition STAT_ROWS : string := "div.Box.Flex.heNsMA.bnpRyo".

(** The first loop [for i in range(3)] of [_extract_stats_view]. *)
Fixpoint find_stats_container (n : nat) : D (option element) :=
  match n with
  | O => ret None
  | S n' =>
      cont <- safe_find CSS_SELECTOR STATS_CONTAINER ;;
      match cont with
      | Some c => ret (Some c)
      | None =>
          prim (ExecuteScript "window.scrollBy(0, 400);" None) ;;
          sleep 2000 ;;
          find_stats_container n'
      end
  end.

(** The second loop [for i in range(3)] of [_extract_stats_view]. *)
Fixpoint find_stat_rows (n : nat) : D (list element) :=
  match n with
  | O => ret []
  | S n' =>
      rows <- safe_find_all CSS_SELECTOR STAT_ROWS ;;
      match rows with
      | _ :: _ => ret rows
      | [] => sleep 2000 ;; find_stat_rows n'
      end
  end.

(** [span[0].text.strip() if span else "N/A"] *)
Definition first_text (r : element) (sel : string) : D string :=
  span <- prim (FindElements (Some r) CSS_SELECTOR sel) ;;
  match span with
  | e :: _ => text <- prim (ElementText e) ;; ret (strip text)
  | [] => ret "N/A"%string
  end.

Definition stat_row (r : element) : D pyval :=
  home_value <- first_text r "bdi.Box.iQnHnj span.Text" ;;
  name <- first_text r "span.Text.lluFbU, span.Text.eSKwCR, span.Text.llXWMP" ;;
  away_value <- first_text r "bdi.Box.fdyVPU span.Text" ;;
  ret (VDict (list_to_map [ ("name"%string, VStr name);
                            ("home_value"%string, VStr home_value);
                            ("away_value"%string, VStr away_value) ])).

(** The loop [for r in rows]; a row whose extraction raises an
    [Exception] is skipped. *)
Fixpoint stat_rows (rows : list element) : D (list pyval) :=
  match rows with
  | [] => ret []
  | r :: rest =>
      s <- try_except (s <- stat_row r ;; ret (Some s))
                      (except_Exception (ret None)) ;;
      stats <- stat_rows rest ;;
      ret (match s with Some v => v :: stats | None => stats end)
  end.

Definition _extract_stats_view : D (list pyval) :=
  prim (ExecuteScript "window.scrollTo(0, document.body.scrollHeight / 2);" None) ;;
  sleep 1500 ;;
  cont <- find_stats_container 3 ;;
  match cont with
  | Some c => _scroll_container c
  | None => ret tt
  end ;;
  rows <- find_stat_rows 3 ;;
  stat_rows rows.

(** The loop [while time.time() < end_time] of [wait_for_stat_rows].
    Every iteration that comes back to the test has slept [poll_freq],
    so the clock has advanced by that much; [budget] bounds the number
    of iterations accordingly (see [wait_loop_budget]). *)
Fixpoint wait_loop (budget : nat) (min_rows : nat) (end_time poll_freq : Z)
  : D bool :=
  t <- time_time ;;
  if t <? end_time then
    match budget with
    | O => ret false
    | S budget' =>
        rows <- safe_find_all CSS_SELECTOR STAT_ROWS ;;
        if (min_rows <=? List.length rows)%nat && negb (Nat.eqb (List.length rows) 0)
        then ret true
        else sleep poll_freq ;; wait_loop budget' min_rows end_time poll_freq
    end
  else ret false.

(** The number of polls that fit in [timeout]. *)
Definition polls (timeout poll_freq : Z) : nat :=
  S (Z.to_nat (timeout / poll_freq)).

(** [wait_for_stat_rows(min_rows, timeout, poll_freq)] with
    [return_rows=False], the only way the scraper calls it, for a
    positive [poll_freq] (the scraper leaves it at its default, 0.5 s):
    the loop then ends on the clock, within [polls timeout poll_freq]
    iterations. *)
Definition wait_for_stat_rows (min_rows : nat) (timeout : Z)
    (poll_freq : positive) : D bool :=
  t0 <- time_time ;;
  let end_time := t0 + timeout in
  wait_loop (polls timeout (Z.pos poll_freq)) min_rows end_time
            (Z.pos poll_freq).

(** [f"div[data-tabid='{tab_id}']"] *)
Definition tab_selector (tab_id : Z) : string :=
  ("div[data-tabid='" ++ str_of_int tab_id ++ "']")%string.

(** The loop [for attempt in range(3)] of [extract_with_retries]. *)
Fixpoint extract_attempts (n : nat) (tab_id : Z) : D (list pyval) :=
  match n with
  | O => ret []
  | S n' =>
      tab <- safe_find CSS_SELECTOR (tab_selector tab_id) ;;
      clicked <- found_and_clicked tab ;;
      ready <- (if clicked : bool then wait_for_stat_rows 10 20000 500
                else ret false) ;;
      if ready : bool then _extract_stats_view
      else sleep 2000 ;; extract_attempts n' tab_id
  end.

Definition extract_with_retries (tab_id : Z) : D (list pyval) :=
  extract_attempts 3 tab_id.

Definition _get_stats : D pyval :=
  overall <- _extract_stats_view ;;
  first_half <- extract_with_retries 2 ;;
  second_half <- extract_with_retries 3 ;;
  ret (VDict (list_to_map [ ("overall"%string, VList overall);
                            ("first_half"%string, VList first_half);
                            ("second_half"%string, VList second_half) ])).

(** *** [scrape_match] (lines 234-290) *)

Variable fields : extractors World.

(** [self.driver.window_handles[-1]] *)
Definition last_handle : D handle :=
  hs <- prim WindowHandles ;;
  match List.rev hs with
  | h :: _ => ret h
  | [] => raise IndexError
  end.

Definition py_int_or_none (n : option Z) : pyval :=
  match n with Some z => VInt z | None => VNone end.

(** The body of the [try]. *)
Definition scrape_body (url : string) (matchday : option Z) : D record :=
  prim (ExecuteScript "window.open('');" None) ;;
  tab <- last_handle ;;
  prim (SwitchToWindow (Some tab)) ;;
  sleep TAB_OPEN_WAIT ;;
  prim (DriverGet url) ;;
  sleep 3000 ;;
  date_time_info <- extract (_get_date_time fields) ;;
  teams <- extract (_get_teams fields) ;;
  venue <- extract (_get_venue fields) ;;
  referee <- extract (_get_referee fields) ;;
  odds <- extract (_get_odds fields) ;;
  crowd_voting <- extract (_get_crowd_voting fields) ;;
  statistics <- _get_stats ;;
  ret (list_to_map [ ("matchday"%string, py_int_or_none matchday);
                     ("date_time_info"%string, date_time_info);
                     ("teams"%string, teams);
                     ("venue"%string, venue);
                     ("referee"%string, referee);
                     ("odds"%string, odds);
                     ("crowd_voting"%string, crowd_voting);
                     ("statistics"%string, statistics) ]).

(** The three [except] clauses: [KeyboardInterrupt] is raised again,
    every [Exception] leaves [data = {}]. *)
Definition scrape_handlers (e : exn) : option (D record) :=
  match e with
  | KeyboardInterrupt => None
  | _ =>
      if is_WebDriverException e then Some (ret ∅)
      else except_Exception (ret ∅) e
  end.

(** The [finally] clause. *)
Definition close_tab : D unit :=
  try_except
    (alive <- prim SessionId ;;
     handles <- (if alive : bool then prim WindowHandles else ret []) ;;
     match handles with
     | _ :: _ =>
         prim DriverClose ;;
         tab <- get_original_tab ;;
         prim (SwitchToWindow tab) ;;
         sleep 1000
     | [] => ret tt
     end)
    (except_Exception (ret tt)).

Definition scrape_match (url : string) (matchday : option Z) : D record :=
  matchday <- match matchday with
              | Some md => ret (Some md)
              | None => _extract_round
              end ;;
  try_finally
    (try_except (scrape_body url matchday) scrape_handlers)
    close_tab.

End Methods.
End Scraper.

(** ** [runner.py]: [main] *)

Module Runner.
Import PyStr Selenium ScrapingConfig Scraper.

Section Main.
Context {World : Type} {drv : Driver World}.

Variable fields : extractors World.

(** [utils.retry], the decorator of [dismiss_cookies]. *)
Variable retry : forall A : Type, nat -> Z -> D World A -> D World A.

(** The scraper object: its driver-side fields and [all_match_data]. *)
Record state := State {
  scraper : session World;
  all_match_data : list record
}.

Definition R (A : Type) : Type := state -> res A * state.

Definition lift {A} (m : D World A) : R A :=
  fun σ =>
    let '(r, s) := m (scraper σ) in
    (r, State s (all_match_data σ)).

Definition rret {A} (a : A) : R A := fun σ => (Ret a, σ).

Definition rbind {A B} (m : R A) (f : A -> R B) : R B :=
  fun σ =>
    match m σ with
    | (Ret a, σ') => f a σ'
    | (Raise e, σ') => (Raise e, σ')
    end.

(** [scraper.all_match_data.append(data)] *)
Definition append (data : record) : R unit :=
  fun σ => (Ret tt, State (scraper σ) (all_match_data σ ++ [data])).

Definition get_all_match_data : R (list record) :=
  fun σ => (Ret (all_match_data σ), σ).

Definition base_url : string :=
  "https://www.sofascore.com/tournament/football/england/premier-league/17".

(** [{m['match_id'] for m in scraper.all_match_data}].  The set is
    only ever tested for strings, so a value that is hashable but not
    a string is not recorded. *)
Fixpoint match_ids (data : list record) : res (gset string) :=
  match data with
  | [] => Ret ∅
  | m :: rest =>
      match m !! "match_id"%string with
      | None => Raise KeyError
      | Some (VList _) | Some (VDict _) => Raise TypeError
      | Some v =>
          match match_ids rest with
          | Ret ids =>
              Ret (match v with VStr s => {[ s ]} ∪ ids | _ => ids end)
          | Raise e => Raise e
          end
      end
  end.

(** Lines 46-53: the call of [scrape_match] and its two handlers;
    [None] stands for [data = None]. *)
Definition try_scrape (l : link) (md : Z) : R (option record) :=
  fun σ =>
    match lift (scrape_match fields (url l) (Some md)) σ with
    | (Ret data, σ') => (Ret (Some data), σ')
    | (Raise KeyboardInterrupt, σ') => (Raise KeyboardInterrupt, σ')
    | (Raise _, σ') => (Ret None, σ')
    end.

Definition truthy (data : option record) : bool :=
  match data with
  | Some d => dict_truthy d
  | None => false
  end.

(** Lines 39-64: one turn of the loop [for link in links]. *)
Definition visit (md : Z) (l : link) (scraped_ids : gset string)
  : R (gset string) :=
  let mid := match_id l in
  if bool_decide (mid ∈ scraped_ids) then rret scraped_ids
  else
    rbind (try_scrape l md) (fun data =>
    rbind
      (match data with
       | Some d =>
           if dict_truthy d then
             let d1 := <[ "match_id"%string := VStr mid ]> d in
             let d2 := <[ "source_url"%string := VStr (url l) ]> d1 in
             rbind (append d2) (fun _ =>
             rbind get_all_match_data (fun all =>
             rbind (lift (prim (SaveData all))) (fun _ =>
             rret ({[ mid ]} ∪ scraped_ids))))
           else rret scraped_ids
       | None => rret scraped_ids
       end) (fun ids =>
    rbind (lift (prim (RandomUniform 1000 3000))) (fun pause =>
    rbind (lift (sleep pause)) (fun _ =>
    rret ids)))).

Fixpoint for_links (md : Z) (links : list link) (scraped_ids : gset string)
  : R (gset string) :=
  match links with
  | [] => rret scraped_ids
  | l :: rest =>
      rbind (visit md l scraped_ids) (fun ids => for_links md rest ids)
  end.

(** Lines 30-64: one turn of the loop [for md in range(...)]. *)
Definition matchday (md : Z) (scraped_ids : gset string) : R (gset string) :=
  rbind (lift (navigate_to_round md)) (fun ok =>
  if ok : bool then
    rbind (lift get_match_links) (fun links =>
    for_links md links scraped_ids)
  else rret scraped_ids).

Fixpoint for_matchdays (mds : list Z) (scraped_ids : gset string)
  : R (gset string) :=
  match mds with
  | [] => rret scraped_ids
  | md :: rest =>
      rbind (matchday md scraped_ids) (fun ids => for_matchdays rest ids)
  end.

(** [range(lo, hi)] *)
Definition range (lo hi : Z) : list Z :=
  List.map (fun i => lo + Z.of_nat i) (List.seq 0 (Z.to_nat (hi - lo))).

(** The body of the [try] of [main]. *)
Definition crawl (start_matchday end_matchday : Z) (season : string)
    (headless : bool) : R unit :=
  rbind (lift (setup_driver headless 10)) (fun _ =>
  rbind (lift (prim (DriverGet base_url))) (fun _ =>
  rbind (lift (retry bool 3%nat 1 (dismiss_cookies_from cookie_selectors))) (fun _ =>
  rbind (lift (select_season season)) (fun selected =>
  if negb selected then rret tt
  else
    rbind get_all_match_data (fun all =>
    rbind (fun σ => (match_ids all, σ)) (fun scraped_ids =>
    rbind (for_matchdays (range start_matchday (end_matchday + 1)) scraped_ids)
          (fun _ => rret tt))))))).

(** [main]: both handlers of the outer [try] only log; [scraper.quit()]
    runs in the [finally]. *)
Definition main_from (start_matchday end_matchday : Z) (season : string)
    (headless : bool) : R unit :=
  fun σ =>
    let '(_, σ1) := crawl start_matchday end_matchday season headless σ in
    lift quit σ1.

(** A run of [main] in environment [w], started at clock [t0], with
    [loaded] the result of [load_data()]. *)
Definition main (start_matchday end_matchday : Z) (season : string)
    (headless : bool) (w : World) (t0 : Z) (loaded : list record)
  : res unit * state :=
  main_from start_matchday end_matchday season headless
    (State (Session w [] t0 false None) loaded).

End Main.

Arguments state World : clear implicits.
Arguments R World A : clear implicits.

End Runner.

(** ** Observations

    The vocabulary in which the properties of the scraper are stated: what
    a piece of code has added to the history of calls, and what a run has
    added to the store. *)

Module Obs.
Import PyStr Selenium ScrapingConfig Scraper Runner.

(** A click that went through: [elt.click()] or the JavaScript click. *)
Definition is_click (ev : event) : bool :=
  match ev_call ev, ev_exn ev with
  | ElementClick _, None => true
  | ExecuteScript js (Some _), None => String.eqb js js_click
  | _, _ => false
  end.

Definition clicks (evs : list event) : nat :=
  List.length (List.filter is_click evs).

(** A lookup of elements on the page. *)
Definition is_lookup (ev : event) : bool :=
  match ev_call ev with
  | WaitPresence _ _ | WaitPresenceAll _ _ | WaitClickable _ _
  | FindElements _ _ _ => true
  | _ => false
  end.

Definition By_eqb (a b : By) : bool :=
  match a, b with
  | ID, ID | CSS_SELECTOR, CSS_SELECTOR | XPATH, XPATH | TAG_NAME, TAG_NAME => true
  | _, _ => false
  end.

(** A lookup of the locator [(by_, sel)] through [safe_find]. *)
Definition looks_up (by_ : By) (sel : string) (ev : event) : bool :=
  match ev_call ev with
  | WaitPresence b s => By_eqb b by_ && String.eqb s sel
  | _ => false
  end.

Definition lookups (by_ : By) (sel : string) (evs : list event) : nat :=
  List.length (List.filter (looks_up by_ sel) evs).

(** Every lookup among [evs] is a lookup of the CSS selector [sel]. *)
Definition only_looks_up (sel : string) (evs : list event) : Prop :=
  Forall (fun ev => is_lookup ev = false \/
                    exists o, ev = Ev (WaitPresence CSS_SELECTOR sel) o) evs.

(** What a call of [safe_click] leaves in the history: no lookup, and one
    click that went through exactly when it returns [True]. *)
Definition click_spec (r : res bool) (evs : list event) : Prop :=
  Forall (fun ev => is_lookup ev = false) evs /\
  clicks evs = match r with Ret true => 1%nat | _ => 0%nat end.

Definition any : event -> Prop := fun _ => True.
Definition not_click : event -> Prop := fun ev => is_click ev = false.

(** The last calls of a [finally] clause of [scrape_match] that went
    through, most recent first; [o] is the outcome of the last wait. *)
Definition cleanup_calls (tab : option handle) (o : option exn) : list event :=
  [ Ev (Sleep 1000) o;
    Ev (SwitchToWindow tab) None;
    Ev DriverClose None;
    Ev WindowHandles None;
    Ev SessionId None ].

(** The identifier of a stored record, when it is a string. *)
Definition id_of (d : record) : option string :=
  match d !! "match_id"%string with
  | Some (VStr s) => Some s
  | _ => None
  end.

Definition ids_of (data : list record) : list string := omap id_of data.

(** A record as [main] stores it: stamped with a [match_id] that was not
    in [ids] and with its [source_url]. *)
Definition stamped (ids : gset string) (d : record) : Prop :=
  exists mid url,
    d !! "match_id"%string = Some (VStr mid) /\
    d !! "source_url"%string = Some (VStr url) /\
    mid ∉ ids.

Definition fresh (ids : gset string) (new : list record) : Prop :=
  NoDup (ids_of new) /\ Forall (stamped ids) new.

(** [stored] is [loaded] followed by records stamped with identifiers
    that were not in [loaded], all different. *)
Definition extended (loaded stored : list record) : Prop :=
  exists new,
    stored = (loaded ++ new)%list /\
    fresh (list_to_set (ids_of loaded)) new /\
    (new <> [] -> exists ids, match_ids loaded = Ret ids).

Section World.
Context {World : Type} {drv : Driver World}.

(** [st'] is [st] after the calls [evs]: the history has grown by
    [evs], the clock has not gone back, the fields of the scraper are
    the same. *)
Definition after (st : session World) (evs : list event)
    (st' : session World) : Prop :=
  history st' = (evs ++ history st)%list /\
  now st <= now st' /\
  driver st' = driver st /\
  original_tab st' = original_tab st.

(** [m] leaves the fields of the scraper alone and adds to the history
    only calls that satisfy [P]. *)
Definition emits (P : event -> Prop) {A} (m : D World A) : Prop :=
  forall st r st', m st = (r, st') ->
    exists evs, after st evs st' /\ Forall P evs.

(** From [w] on, the guard of the [finally] clause of [scrape_match]
    holds and its calls go through: the session is alive, some window
    is open, [close()] and [switch_to.window(tab)] do not raise. *)
Definition cleanup_goes_through (tab : option handle) (w : World) : Prop :=
  exists w1 d1 h hs w2 d2 w3 d3 w4 d4,
    exec SessionId w = (Ret true, w1, d1) /\
    exec WindowHandles w1 = (Ret (h :: hs), w2, d2) /\
    exec DriverClose w2 = (Ret tt, w3, d3) /\
    exec (SwitchToWindow tab) w3 = (Ret tt, w4, d4).

(** No call is interrupted by the user, and [time.sleep] and
    [random.uniform] return. *)
Definition uninterrupted : Prop :=
  (forall c w, fst (fst (exec c w)) <> Raise KeyboardInterrupt) /\
  (forall ms w, exists w' d, exec (Sleep ms) w = (Ret tt, w', d)) /\
  (forall lo hi w, exists x w' d, exec (RandomUniform lo hi) w = (Ret x, w', d)).

(** Loading [url] fails with a [WebDriverException]. *)
Definition page_load_fails (url : string) : Prop :=
  forall w, exists e w' d,
    exec (DriverGet url) w = (Raise e, w', d) /\
    is_WebDriverException e = true.

(** A lookup fails only by timing out. *)
Definition lookups_only_time_out : Prop :=
  forall c w e,
    is_lookup (Ev c None) = true ->
    fst (fst (exec c w)) = Raise e -> e = TimeoutException.

(** The page never shows [n] statistics rows or more. *)
Definition rows_below (n : nat) : Prop :=
  forall w rows w' d,
    exec (FindElements None CSS_SELECTOR STAT_ROWS) w = (Ret rows, w', d) ->
    (List.length rows < n)%nat.

(** Every match link the site shows carries an identifier of [known]. *)
Definition all_links_known (known : list string) : Prop :=
  forall (st : session World) links st',
    get_match_links st = (Ret links, st') ->
    Forall (fun l => match_id l ∈ known) links.

(** What a piece of the crawl does to the store and to the set of
    scraped identifiers. *)
Definition appended (ids : gset string) (σ : state World)
    (r : res (gset string)) (σ' : state World) : Prop :=
  exists new,
    all_match_data σ' = (all_match_data σ ++ new)%list /\
    fresh ids new /\
    match r with
    | Ret ids' => ids' = ids ∪ list_to_set (ids_of new)
    | Raise _ => True
    end.

End World.

(** What can be seen of the windows of the browser: the handles of the
    open windows and the window in focus. *)
Class Windows (World : Type) : Type := {
  open_windows : World -> list handle;
  focused : World -> option handle
}.

(** The calls that open, close or focus a window. *)
Definition is_window_call (c : call) : bool :=
  match c with
  | NewChrome _ | DriverQuit | DriverClose | SwitchToWindow _ => true
  | ExecuteScript js _ => String.eqb js "window.open('');"
  | _ => false
  end.

Section Windows.
Context {World : Type} {drv : Driver World} {win : Windows World}.

Definition same_windows (w w' : World) : Prop :=
  open_windows w' = open_windows w /\ focused w' = focused w.

(** [windows] without the window [h]. *)
Definition without (h : handle) (windows : list handle) : list handle :=
  List.filter (fun x => negb (String.eqb x h)) windows.

(** How the windows of a browser behave: [window.open] adds a window
    at the end of the handles and leaves the focus where it is,
    [switch_to.window] moves the focus to an open window, [close()]
    closes the window in focus, [window_handles] lists the open windows,
    and no other call than these, [quit()] and the start of the browser
    opens, closes or focuses a window. *)
Record window_laws : Prop := {
  other_calls : forall c w r w' d,
    is_window_call c = false -> exec c w = (r, w', d) -> same_windows w w';
  window_open : forall a w v w' d,
    exec (ExecuteScript "window.open('');" a) w = (Ret v, w', d) ->
    exists h, open_windows w' = (open_windows w ++ [h])%list /\
              focused w' = focused w;
  window_handles : forall w hs w' d,
    exec WindowHandles w = (Ret hs, w', d) -> hs = open_windows w;
  switch_to_window : forall t w u w' d,
    exec (SwitchToWindow t) w = (Ret u, w', d) ->
    (exists h, t = Some h /\ In h (open_windows w)) /\
    open_windows w' = open_windows w /\ focused w' = t;
  close_window : forall w u w' d,
    exec DriverClose w = (Ret u, w', d) ->
    exists h, focused w = Some h /\
              open_windows w' = without h (open_windows w)
}.

(** A call that raises leaves the windows as they are. *)
Definition failed_calls_keep_windows : Prop :=
  forall c w e w' d, exec c w = (Raise e, w', d) -> same_windows w w'.

(** [m] opens, closes and focuses no window. *)
Definition keeps_windows {A} (m : D World A) : Prop :=
  forall st r st', m st = (r, st') -> same_windows (world st) (world st').

(** The field extractors open, close and focus no window. *)
Definition fields_keep_windows (fields : extractors World) : Prop :=
  Forall (fun f : extractor World => keeps_windows (extract f))
    [ _get_date_time fields; _get_teams fields; _get_venue fields;
      _get_referee fields; _get_odds fields; _get_crowd_voting fields ].

(** From [w] on, the first calls of the body of [scrape_match] go
    through: a window is opened, [tab] is the last of the window handles
    and takes the focus. *)
Definition tab_opens (tab : handle) (w : World) : Prop :=
  exists v w1 d1 hs front w2 d2 w3 d3,
    exec (ExecuteScript "window.open('');" None) w = (Ret v, w1, d1) /\
    exec WindowHandles w1 = (Ret hs, w2, d2) /\
    hs = (front ++ [tab])%list /\
    exec (SwitchToWindow (Some tab)) w2 = (Ret tt, w3, d3).

End Windows.

(** An attempt at a native click, whatever its outcome. *)
Definition is_click_attempt (ev : event) : bool :=
  match ev_call ev with
  | ElementClick _ => true
  | _ => false
  end.

Definition click_attempts (evs : list event) : nat :=
  List.length (List.filter is_click_attempt evs).

(** A scroll of the statistics container to its end. *)
Definition is_scroll (ev : event) : bool :=
  match ev_call ev with
  | ExecuteScript js (Some _) => String.eqb js js_scroll_to_end
  | _ => false
  end.

Definition scrolls (evs : list event) : nat :=
  List.length (List.filter is_scroll evs).

(** The first lookup of the extraction of a statistics row. *)
Definition is_row_start (ev : event) : bool :=
  match ev_call ev with
  | FindElements (Some _) CSS_SELECTOR sel =>
      String.eqb sel "bdi.Box.iQnHnj span.Text"
  | _ => false
  end.

Definition rows_started (evs : list event) : nat :=
  List.length (List.filter is_row_start evs).

(** A call that raised. *)
Definition is_failure (ev : event) : bool :=
  match ev_exn ev with
  | Some _ => true
  | None => false
  end.

Definition failures (evs : list event) : nat :=
  List.length (List.filter is_failure evs).

End Obs.

(** ** A scripted browser

    A small simulated site and driver, used to run the model on concrete
    scenarios.  What is fixed for a scenario is in [config]; what changes
    as the scraper acts is in [sim]. *)

Module Sim.
Import PyStr Selenium ScrapingConfig Scraper.

Record config := Config {
  faults : call -> option exn;     (* the calls that raise, and what *)
  seasons : list string;           (* the options of the season dropdown *)
  season_sticks : bool;            (* choosing an option has no effect *)
  hrefs : Z -> list string;        (* the match links of each round *)
  stat_row_count : nat;            (* the rows of a statistics view *)
  stat_tabs : bool                 (* the half-time tabs exist *)
}.

Record sim := Sim {
  season : string;                 (* the season on display *)
  round : option Z;                (* the round on display, if it reads "Round N" *)
  windows : list handle;
  focus : option handle;
  opened : nat                     (* tabs opened so far *)
}.

Definition season_label : element := 1%N.
Definition season_button : element := 2%N.
Definition round_label : element := 4%N.
Definition round_button : element := 5%N.
Definition next_arrow : element := 6%N.
Definition prev_arrow : element := 7%N.
Definition stats_container : element := 8%N.
Definition season_option (i : nat) : element := (100 + N.of_nat i)%N.
Definition round_option (r : Z) : element := (200 + Z.to_N r)%N.
Definition stat_tab (t : Z) : element := (300 + Z.to_N t)%N.
Definition link_elt (i : nat) : element := (1000 + N.of_nat i)%N.
Definition row_elt (i : nat) : element := (2000 + N.of_nat i)%N.
Definition cell_elt (k : N) : element := (5000 + k)%N.

Definition round_text (r : option Z) : string :=
  match r with
  | Some n => ("Round " ++ str_of_int n)%string
  | None => "Round"%string
  end.

Fixpoint index_of (p : string -> bool) (l : list string) (i : nat) : option nat :=
  match l with
  | [] => None
  | x :: l' => if p x then Some i else index_of p l' (S i)
  end.

Section Site.
Variable cfg : config.

Definition shown_links (w : sim) : list string :=
  hrefs cfg (match round w with Some r => r | None => 0 end).

(** The element a locator designates, if it is on the page. *)
Definition locate (by_ : By) (sel : string) : option element :=
  match by_ with
  | CSS_SELECTOR =>
      if String.eqb sel CURRENT_SEASON_TEXT_SELECTOR then Some season_label
      else if String.eqb sel SEASON_DROPDOWN_SELECTOR then Some season_button
      else if String.eqb sel ROUND_TEXT_SELECTOR then Some round_label
      else if String.eqb sel ROUND_DROPDOWN_BUTTON then Some round_button
      else if String.eqb sel NEXT_ROUND_ARROW then Some next_arrow
      else if String.eqb sel PREV_ROUND_ARROW then Some prev_arrow
      else if String.eqb sel STATS_CONTAINER then Some stats_container
      else if String.eqb sel (tab_selector 2) && stat_tabs cfg then Some (stat_tab 2)
      else if String.eqb sel (tab_selector 3) && stat_tabs cfg then Some (stat_tab 3)
      else None
  | XPATH =>
      match index_of (fun s => String.eqb sel (SEASON_OPTION_XPATH s)) (seasons cfg) 0 with
      | Some i => Some (season_option i)
      | None =>
          match List.find (fun r => String.eqb sel (round_option_xpath r))
                  (Runner.range 1 39) with
          | Some r => Some (round_option r)
          | None => None
          end
      end
  | _ => None
  end.

(** The elements a plural locator designates. *)
Definition locate_all (w : sim) (scope : option element) (sel : string)
  : list element :=
  match scope with
  | None =>
      if String.eqb sel MATCH_LINK_SELECTOR then
        List.map link_elt (List.seq 0 (List.length (shown_links w)))
      else if String.eqb sel STAT_ROWS then
        List.map row_elt (List.seq 0 (stat_row_count cfg))
      else []
  | Some _ =>
      if String.eqb sel "bdi.Box.iQnHnj span.Text" then [cell_elt 1]
      else if String.eqb sel "bdi.Box.fdyVPU span.Text" then [cell_elt 3]
      else [cell_elt 2]
  end.

Definition text_of (w : sim) (e : element) : string :=
  if (e =? season_label)%N then season w
  else if (e =? round_label)%N then round_text (round w)
  else if (e =? cell_elt 1)%N then "12"%string
  else if (e =? cell_elt 2)%N then "Total shots"%string
  else if (e =? cell_elt 3)%N then "7"%string
  else EmptyString.

Definition set_round (w : sim) (r : option Z) : sim :=
  Sim (season w) r (windows w) (focus w) (opened w).

Definition set_season (w : sim) (s : string) : sim :=
  Sim s (round w) (windows w) (focus w) (opened w).

Definition set_windows (w : sim) (ws : list handle) (f : option handle)
    (n : nat) : sim :=
  Sim (season w) (round w) ws f n.

(** The effect of a click on the page. *)
Definition click (w : sim) (e : element) : sim :=
  if (e =? next_arrow)%N then
    set_round w (match round w with Some r => Some (r + 1) | None => None end)
  else if (e =? prev_arrow)%N then
    set_round w (match round w with Some r => Some (r - 1) | None => None end)
  else if ((200 <? e) && (e <? 300))%N then set_round w (Some (Z.of_N e - 200))
  else if ((100 <=? e) && (e <? 200))%N && negb (season_sticks cfg) then
    set_season w (List.nth (N.to_nat (e - 100)) (seasons cfg) (season w))
  else w.

Definition new_tab (n : nat) : handle :=
  ("tab-" ++ str_of_int (Z.of_nat n))%string.

(** A wait that times out has lasted the 15 s of [WebDriverWait]. *)
Definition timed_out {A} (w : sim) : res A * sim * N :=
  (Raise TimeoutException, w, 15000%N).

Definition answer (c : call) (w : sim) : res (ret_ty c) * sim * N :=
  match c return res (ret_ty c) * sim * N with
  | NewChrome _ => (Ret tt, set_windows w ["main"%string] (Some "main"%string) 0, 0%N)
  | ImplicitlyWait _ => (Ret tt, w, 0%N)
  | CurrentWindowHandle =>
      match focus w with
      | Some h => (Ret h, w, 0%N)
      | None => (Raise WebDriverException, w, 0%N)
      end
  | SessionId => (Ret true, w, 0%N)
  | DriverQuit => (Ret tt, set_windows w [] None (opened w), 0%N)
  | DriverGet _ => (Ret tt, w, 0%N)
  | DriverClose =>
      match focus w with
      | Some h =>
          (Ret tt,
           set_windows w (List.filter (fun x => negb (String.eqb x h)) (windows w))
                       None (opened w), 0%N)
      | None => (Raise WebDriverException, w, 0%N)
      end
  | WindowHandles => (Ret (windows w), w, 0%N)
  | SwitchToWindow h =>
      match h with
      | Some t =>
          if List.existsb (String.eqb t) (windows w)
          then (Ret tt, set_windows w (windows w) (Some t) (opened w), 0%N)
          else (Raise WebDriverException, w, 0%N)
      | None => (Raise WebDriverException, w, 0%N)
      end
  | ExecuteScript js arg =>
      if String.eqb js "window.open('');" then
        (Ret None,
         set_windows w (windows w ++ [new_tab (S (opened w))]) (focus w)
                     (S (opened w)), 0%N)
      else if String.eqb js js_click then
        (Ret None, match arg with Some e => click w e | None => w end, 0%N)
      else if String.eqb js js_scroll_height then (Ret (Some 900), w, 0%N)
      else (Ret None, w, 0%N)
  | WaitPresence by_ sel | WaitClickable by_ sel =>
      match locate by_ sel with
      | Some e => (Ret e, w, 0%N)
      | None => timed_out w
      end
  | WaitPresenceAll _ sel =>
      match locate_all w None sel with
      | _ :: _ => (Ret tt, w, 0%N)
      | [] => timed_out w
      end
  | FindElements scope _ sel => (Ret (locate_all w scope sel), w, 0%N)
  | ElementText e => (Ret (text_of w e), w, 0%N)
  | GetAttribute e name =>
      (Ret (if String.eqb name "href"
            then List.nth_error (shown_links w) (N.to_nat (e - 1000))
            else None), w, 0%N)
  | ElementClick e => (Ret tt, click w e, 0%N)
  | Sleep _ => (Ret tt, w, 0%N)
  | RandomUniform lo hi => (Ret lo, w, 0%N)
  | SaveData _ => (Ret tt, w, 0%N)
  end.

(** The driver of the scenario [cfg]. *)
Definition driver_of : Driver sim :=
  fun c w =>
    match faults cfg c with
    | Some e => (Raise e, w, 0%N)
    | None => answer c w
    end.

(** The driver of a site on which the round on display never changes,
    whatever is clicked. *)
Definition frozen_round : Driver sim :=
  fun c w =>
    let '(r, w', d) := driver_of c w in
    (r, set_round w' (round w), d).

End Site.

(** The windows of the scripted browser. *)
#[export] Instance sim_windows : Obs.Windows sim :=
  {| Obs.open_windows := windows; Obs.focused := focus |}.

Definition no_faults : call -> option exn := fun _ => None.

(** Extractors that find nothing on the page. *)
Definition no_fields : extractors sim :=
  let na : extractor sim := fun w => (Ret (VStr "N/A"), w, [], 0%N) in
  Extractors sim na na na na na na.

(** [utils.retry] for a body that does not raise. *)
Definition retry_once : forall A : Type, nat -> Z -> D sim A -> D sim A :=
  fun _ _ _ m => m.

(** A site with two matches on round 2, [rows] statistics rows per view,
    and the faults [f]. *)
Definition two_matches (r : Z) : list string :=
  if r =? 2 then
    [ "/football/match/arsenal-chelsea/KsR#id:111";
      "https://www.sofascore.com/football/match/everton-fulham/222" ]%string
  else [].

Definition site (rows : nat) (tabs : bool) (f : call -> option exn) : config :=
  Config f ["25/26"; "24/25"; "23/24"]%string false two_matches rows tabs.

(** The page on season [s] and round [r], before the driver is set up. *)
Definition page (s : string) (r : option Z) : sim := Sim s r [] None 0.

(** A session on that page, with the driver set up. *)
Definition on (w : sim) : session sim :=
  Session (set_windows w ["main"%string] (Some "main"%string) 0) [] 0 true
          (Some "main"%string).

(** Scripts of faults. *)

(** The match pages do not load. *)
Definition match_pages_down : call -> option exn :=
  fun c =>
    match c with
    | DriverGet u =>
        if contains "/football/match/" u then Some WebDriverException else None
    | _ => None
    end.

(** [close()] fails. *)
Definition close_fails : call -> option exn :=
  fun c =>
    match c with
    | DriverClose => Some WebDriverException
    | _ => None
    end.

(** The elements of the CSS selectors [sels] are not on the page. *)
Definition missing (sels : list string) : call -> option exn :=
  fun c =>
    match c with
    | WaitPresence CSS_SELECTOR s =>
        if List.existsb (String.eqb s) sels then Some TimeoutException else None
    | _ => None
    end.

(** A site whose season dropdown has no effect. *)
Definition sticky_site : config :=
  Config no_faults ["25/26"; "24/25"; "23/24"]%string true two_matches 0 false.

(** The two matches of round 2 as [get_match_links] reports them. *)
Definition arsenal_chelsea : link :=
  Link "https://www.sofascore.com/football/match/arsenal-chelsea/KsR#id:111" "111".

Definition everton_fulham : link :=
  Link "https://www.sofascore.com/football/match/everton-fulham/222" "222".

(** The statistics row the site shows, as [_extract_stats_view] reads it. *)
Definition total_shots : pyval :=
  VDict (list_to_map [ ("name"%string, VStr "Total shots");
                       ("home_value"%string, VStr "12");
                       ("away_value"%string, VStr "7") ]).

(** A crawl of rounds 1 to 3 of season 24/25 over the store [loaded]. *)
Definition crawl_1_3 (f : call -> option exn) (loaded : list record)
  : res unit * Runner.state sim :=
  Runner.main (drv := driver_of (site 0 false f)) no_fields retry_once
              1 3 "24/25" true (page "24/25" (Some 1)) 0 loaded.

(** The statistics row [i] has gone stale: a lookup inside it raises. *)
Definition stale_row (i : nat) : call -> option exn :=
  fun c =>
    match c with
    | FindElements (Some e) _ _ =>
        if (e =? row_elt i)%N then Some StaleElementReferenceException else None
    | _ => None
    end.

(** The new tab does not open. *)
Definition tab_does_not_open : call -> option exn :=
  fun c =>
    match c with
    | ExecuteScript js _ =>
        if String.eqb js "window.open('');" then Some WebDriverException else None
    | _ => None
    end.

(** Every native click is intercepted by an overlay. *)
Definition clicks_intercepted : call -> option exn :=
  fun c =>
    match c with
    | ElementClick _ => Some ElementClickInterceptedException
    | _ => None
    end.

End Sim.

(** ** [scraper.py]: the time of a commentary entry (lines 890-920) *)

Module Commentary.
Import PyStr Re Selenium Scraper.
Local Open Scope py_scope.

Definition time_selectors : list string :=
  [ "span.textStyle_assistive.default";
    "span[class*='time']";
    "span[class*='minute']";
    "div[class*='time']";
    ".time";
    ".minute" ].

(** [r"(\d{1,3}(?:\+\d+)?)'"]; [\d{1,3}] is written as one digit and two
    optional ones. *)
Definition time_pattern : regex :=
  Seq [ Grp 1 (Seq [ digit; Opt digit; Opt digit;
                     Opt (Seq [Chr "+"; Plus digit]) ]);
        Chr "'" ].

Section Methods.
Context {World : Type} {drv : Driver World}.
Local Abbreviation D := (D World).

(** A bare [except:] catches every exception, the interrupt of the
    user included. *)
Definition except_all {A} (k : D A) : exn -> option (D A) :=
  fun _ => Some k.

(** The loop [for selector in time_selectors]; [Some] when it returns
    from inside the loop. *)
Fixpoint time_by_selectors (sels : list string) (entry : element)
  : D (option string) :=
  match sels with
  | [] => ret None
  | selector :: rest =>
      found <- try_except
        (time_elements <- prim (FindElements (Some entry) CSS_SELECTOR selector) ;;
         match time_elements with
         | e :: _ =>
             text <- prim (ElementText e) ;;
             let time_text := strip text in
             if negb (String.eqb time_text EmptyString) && contains "'" time_text
             then ret (Some time_text)
             else ret None
         | [] => ret None
         end)
        (except_all (ret None)) ;;
      match found with
      | Some t => ret (Some t)
      | None => time_by_selectors rest entry
      end
  end.

Definition extract_time_from_entry (entry : element) : D string :=
  found <- time_by_selectors time_selectors entry ;;
  match found with
  | Some t => ret t
  | None =>
      fallback <- try_except
        (entry_text <- prim (ElementText entry) ;;
         match search no_flags time_pattern entry_text with
         | Some m =>
             match group 1 m with
             | Some g => ret (Some (g ++ "'")%string)
             | None => ret None
             end
         | None => ret None
         end)
        (except_all (ret None)) ;;
      match fallback with
      | Some t => ret t
      | None => ret "N/A"%string
      end
  end.

End Methods.

End Commentary.

(** * Properties *)

Import PyStr Re Parsers Selenium ScrapingConfig Scraper Runner Obs.

(** ** The text parsers *)

Section ReFacts.
Context {R : Type}.
Implicit Types (k : list ascii -> captures -> option R).

Lemma run_cat fl r1 r2 s cs k :
  run fl (Cat r1 r2) s cs k = run fl r1 s cs (fun s1 cs1 => run fl r2 s1 cs1 k).
Proof. reflexivity. Qed.

Lemma run_chr fl c x s cs k :
  run fl (Chr c) (x :: s) cs k = if chr_matches fl c x then k s cs else None.
Proof. reflexivity. Qed.

Lemma run_cls fl p x s cs k :
  run fl (Cls p) (x :: s) cs k = if cls_matches fl p x then k s cs else None.
Proof. reflexivity. Qed.

Lemma run_grp fl i r s cs k :
  run fl (Grp i r) s cs k =
  run fl r s cs (fun s1 cs1 => k s1 ((i, taken s s1) :: cs1)).
Proof. reflexivity. Qed.

(** Unfolding of a starred class on a non-empty input. *)
Lemma run_star_cls fl p c s cs k :
  run fl (Star (Cls p)) (c :: s) cs k =
  if cls_matches fl p c then
    match run fl (Star (Cls p)) s cs k with
    | Some x => Some x
    | None => k (c :: s) cs
    end
  else k (c :: s) cs.
Proof.
  simpl. destruct (cls_matches fl p c); [|reflexivity].
  assert (E : (List.length s <? S (List.length s))%nat = true)
    by (apply Nat.ltb_lt; lia).
  rewrite E. reflexivity.
Qed.

(** A greedy starred class takes a whole run of matching characters when
    the continuation accepts what follows. *)
Lemma run_star_greedy fl p a b cs k x :
  List.forallb (cls_matches fl p) a = true ->
  k b cs = Some x ->
  match b with c :: _ => cls_matches fl p c = false | [] => True end ->
  run fl (Star (Cls p)) (a ++ b) cs k = Some x.
Proof.
  intros Ha Hk Hb. induction a as [|c a IH]; simpl app.
  - destruct b as [|c b]; [exact Hk|]. rewrite run_star_cls, Hb. exact Hk.
  - simpl in Ha. apply andb_true_iff in Ha as [Hc Ha].
    rewrite run_star_cls, Hc, (IH Ha). reflexivity.
Qed.
End ReFacts.

Lemma chars_app (a b : string) :
  chars (a ++ b)%string = (chars a ++ chars b)%list.
Proof.
  induction a as [|c a IH]; simpl; [reflexivity|].
  unfold chars in *. simpl. now rewrite IH.
Qed.

Lemma chars_of_chars (l : list ascii) : chars (of_chars l) = l.
Proof. apply list_ascii_of_string_of_list_ascii. Qed.

Lemma taken_app (a b : list ascii) : taken (a ++ b) b = a.
Proof.
  unfold taken. rewrite List.length_app.
  replace (List.length a + List.length b - List.length b)%nat
    with (List.length a) by lia.
  induction a; simpl; [destruct b; reflexivity | now f_equal].
Qed.

Lemma search_here fl r s m rest cs :
  match_here fl r s = Some (m, rest, cs) -> search_chars fl r s = Some cs.
Proof. intros E. destruct s; simpl; rewrite E; reflexivity. Qed.

Lemma forallb_impl {A} (p q : A -> bool) l :
  (forall x, p x = true -> q x = true) ->
  List.forallb p l = true -> List.forallb q l = true.
Proof. intros I. induction l; simpl; [easy|]. rewrite !andb_true_iff. intuition. Qed.

Lemma digit_in_number_class d :
  is_digit d = true ->
  cls_matches ignore_case (fun c => is_digit c || one_of ".," c) d = true.
Proof. intros E. unfold cls_matches. simpl. now rewrite E. Qed.

(** On "Total votes: " followed by digits and one of the suffixes, the
    pattern of [extract_total_votes] captures the digits and the suffix,
    whatever the case of the suffix. *)
Lemma search_total_votes (ds sfx : list ascii) :
  ds <> [] -> List.forallb is_digit ds = true ->
  In sfx [[]; ["k"]; ["K"]; ["m"]; ["M"]]%char ->
  search ignore_case total_votes_pattern
    ("Total votes: " ++ of_chars (ds ++ sfx))
  = Some [(2%nat, sfx); (1%nat, ds)].
Proof.
  intros Hne Hd Hs. unfold search. rewrite chars_app, chars_of_chars.
  destruct ds as [|d ds]; [congruence|].
  simpl in Hd. apply andb_true_iff in Hd as [Hd0 Hd].
  change (chars "Total votes: ")
    with ["T";"o";"t";"a";"l";" ";"v";"o";"t";"e";"s";":";" "]%char.
  eapply search_here. unfold match_here, total_votes_pattern, Seq, Lit.
  change (chars "Total votes")
    with ["T";"o";"t";"a";"l";" ";"v";"o";"t";"e";"s"]%char.
  cbn [Lit_chars app].
  repeat (first [ rewrite run_chr; change (chr_matches ignore_case _ _) with true;
                  cbv iota beta
                | rewrite run_cat ]).
  rewrite run_star_cls. change (cls_matches ignore_case _ ":"%char) with true. cbv iota.
  rewrite run_star_cls. change (cls_matches ignore_case _ " "%char) with true. cbv iota.
  rewrite run_star_cls.
  assert (Hnd : cls_matches ignore_case
                  (fun c => Ascii.eqb c ":" || is_space c) d = false).
  { revert Hd0. clear. destruct d as [[] [] [] [] [] [] [] []]; vm_compute; congruence. }
  rewrite Hnd. cbv beta.
  assert (G : forall k0 : list ascii -> captures -> list ascii * list ascii * captures,
     run ignore_case
         (Cat (Grp 1 (Plus (Cls (fun c => is_digit c || one_of ".," c))))
                 (Grp 2 (Opt (Cls (one_of "kM"))))) (d :: ds ++ sfx) []
        (fun s' cs => Some (k0 s' cs))
     = Some (k0 [] [(2%nat, sfx); (1%nat, d :: ds)])).
  { intros k0. rewrite run_cat, run_grp. unfold Plus. rewrite run_cat, run_cls.
    rewrite (digit_in_number_class d Hd0).
    erewrite run_star_greedy.
    - reflexivity.
    - eapply forallb_impl; [|exact Hd]. intros x. apply digit_in_number_class.
    - cbv beta. change (d :: ds ++ sfx)%list with ((d :: ds) ++ sfx)%list.
      rewrite (taken_app (d :: ds) sfx). rewrite run_grp.
      simpl in Hs. destruct Hs as [<-|[<-|[<-|[<-|[<-|[]]]]]]; reflexivity.
    - simpl in Hs. destruct Hs as [<-|[<-|[<-|[<-|[<-|[]]]]]]; reflexivity. }
  rewrite (G (fun s' cs => (taken _ s', s', cs))). reflexivity.
Qed.

Lemma remove_comma_digits ds :
  List.forallb is_digit ds = true -> remove_char "," (of_chars ds) = of_chars ds.
Proof.
  intros Hd. unfold remove_char. rewrite chars_of_chars. f_equal.
  induction ds as [|d ds IH]; [reflexivity|].
  simpl in Hd. apply andb_true_iff in Hd as [Hd0 Hd]. cbn [List.filter].
  assert (E : Ascii.eqb "," d = false).
  { revert Hd0. clear. destruct d as [[] [] [] [] [] [] [] []]; vm_compute; congruence. }
  rewrite E. cbn [negb]. now rewrite IH.
Qed.

(** C7 (amended): the vectors of the specification.  [extract_percentage]
    returns the integer 83; [extract_total_votes] returns the strings
    "121000" and "2300000"; [extract_card_stats_from_text] returns the
    floats 1.5 and 2.3. *)
Theorem parsers_meet_the_vectors :
  extract_percentage "83%" = VInt 83 /\
  extract_total_votes "Total votes: 121k" = VStr "121000" /\
  extract_total_votes "Total votes: 2.3M" = VStr "2300000" /\
  extract_card_stats_from_text "Avg. cards 1.5 2.3"
  = (VFloat (Prim2SF 1.5), VFloat (Prim2SF 2.3)).
Proof. vm_compute. repeat split. Qed.

(** C7 as stated fails: on "Total votes: 121k" the method does not return
    the number 121000 but a string. *)
Lemma total_votes_is_not_a_number :
  extract_total_votes "Total votes: 121k" <> VInt 121000 /\
  extract_total_votes "Total votes: 2.3M" <> VInt 2300000.
Proof. vm_compute. split; discriminate. Qed.

(** C9 (amended): [extract_total_votes] always returns a string, and it
    recognises the multiplier whatever its case: after "Total votes: " and
    a number written with digits, a suffix [k] or [K] scales by 1000, a
    suffix [m] or [M] by 1000000, and no suffix leaves the number as it is
    written. *)
Theorem total_votes_suffix_in_any_case (text : string) (ds : list ascii) :
  ds <> [] -> List.forallb is_digit ds = true ->
  let number := of_chars ds in
  let votes sfx := extract_total_votes ("Total votes: " ++ of_chars (ds ++ sfx)) in
  (exists s, extract_total_votes text = VStr s) /\
  votes [] = VStr number /\
  votes ["k"]%char = str_or_NA (scaled number 1000) /\
  votes ["K"]%char = str_or_NA (scaled number 1000) /\
  votes ["m"]%char = str_or_NA (scaled number 1000000) /\
  votes ["M"]%char = str_or_NA (scaled number 1000000).
Proof.
  intros Hne Hd number votes. split.
  { unfold extract_total_votes.
    destruct (search _ _ text) as [m|]; [|eauto].
    destruct (group 1 m), (group 2 m); eauto.
    destruct (String.eqb _ "k"); [unfold str_or_NA; destruct (scaled _ _); eauto|].
    destruct (String.eqb _ "m"); [unfold str_or_NA; destruct (scaled _ _); eauto|].
    eauto. }
  assert (V : forall sfx, In sfx [[]; ["k"]; ["K"]; ["m"]; ["M"]]%char ->
     votes sfx =
     let suffix := lower (of_chars sfx) in
     if String.eqb suffix "k" then str_or_NA (scaled number 1000)
     else if String.eqb suffix "m" then str_or_NA (scaled number 1000000)
     else VStr number).
  { intros sfx Hs. unfold votes, extract_total_votes.
    rewrite (search_total_votes ds sfx Hne Hd Hs).
    unfold group. cbn [List.find fst snd Nat.eqb].
    rewrite (remove_comma_digits ds Hd). reflexivity. }
  repeat split; rewrite V; simpl; tauto.
Qed.

(** The theorem at the number 121. *)
Lemma total_votes_suffix_witness :
  extract_total_votes "Total votes: 121K" = str_or_NA (scaled "121" 1000) /\
  extract_total_votes "Total votes: 121m" = str_or_NA (scaled "121" 1000000).
Proof.
  pose proof (total_votes_suffix_in_any_case "" ["1";"2";"1"]%char) as T.
  simpl in T. destruct T as (_ & _ & _ & TK & Tm & _);
    [discriminate | reflexivity | ]. split; [exact TK | exact Tm].
Defined.

(** C9 as stated fails: the upper-case suffix [K] is captured and the
    number is scaled. *)
Lemma upper_case_K_is_scaled :
  extract_total_votes "Total votes: 121K" = VStr "121000" /\
  extract_total_votes "Total votes: 121K" <> VStr "121" /\
  extract_total_votes "Total votes: 2.3m" = VStr "2300000".
Proof. vm_compute. repeat split; discriminate. Qed.

(** ** Facts about the monad *)

Section MonadFacts.
Context {World : Type} {drv : Driver World}.
Local Abbreviation D := (D World).
Local Abbreviation session := (session World).

Lemma after_refl (st : session) : after st [] st.
Proof. unfold after. simpl. repeat split; lia. Qed.

Lemma after_trans (st1 st2 st3 : session) evs1 evs2 :
  after st1 evs1 st2 -> after st2 evs2 st3 -> after st1 (evs2 ++ evs1) st3.
Proof.
  unfold after. intros (H1 & T1 & D1 & O1) (H2 & T2 & D2 & O2).
  rewrite H2, H1, D2, D1, O2, O1, app_assoc. repeat split; lia.
Qed.

Lemma elapsed_nonneg c o extra : 0 <= elapsed c o extra.
Proof. unfold elapsed. destruct c, o; lia. Qed.

Lemma prim_inv (c : call) st r st' :
  prim c st = (r, st') ->
  exists w extra,
    exec c (world st) = (r, w, extra) /\
    st' = Session w (Ev c (exn_of r) :: history st)
                  (now st + elapsed c (exn_of r) extra)
                  (driver st) (original_tab st).
Proof.
  unfold prim. destruct (exec c (world st)) as [[r0 w] extra] eqn:E.
  intros [= <- <-]. eauto.
Qed.

Lemma prim_after (c : call) st r st' :
  prim c st = (r, st') -> after st [Ev c (exn_of r)] st'.
Proof.
  intros (w & extra & _ & ->)%prim_inv. unfold after. simpl.
  pose proof (elapsed_nonneg c (exn_of r) extra). repeat split; lia.
Qed.

Lemma bind_inv {A B} (m : D A) (f : A -> D B) st r st' :
  bind m f st = (r, st') ->
  (exists a st1, m st = (Ret a, st1) /\ f a st1 = (r, st')) \/
  (exists e, m st = (Raise e, st') /\ r = Raise e).
Proof.
  unfold bind. destruct (m st) as [[a|e] st1]; intros E.
  - left. eauto.
  - right. injection E as <- <-. eauto.
Qed.

Lemma try_except_inv {A} (m : D A) h st r st' :
  try_except m h st = (r, st') ->
  (exists a, m st = (Ret a, st') /\ r = Ret a) \/
  (exists e st1 k, m st = (Raise e, st1) /\ h e = Some k /\ k st1 = (r, st')) \/
  (exists e, m st = (Raise e, st') /\ h e = None /\ r = Raise e).
Proof.
  unfold try_except. destruct (m st) as [[a|e] st1]; intros E.
  - left. injection E as <- <-. eauto.
  - destruct (h e) as [k|] eqn:Hh.
    + right. left. eauto 6.
    + right. right. injection E as <- <-. eauto.
Qed.

Lemma ret_inv {A} (a : A) (st : session) r st' :
  ret a st = (r, st') -> r = Ret a /\ st' = st.
Proof. intros [= <- <-]. auto. Qed.

End MonadFacts.

(** Break an execution down to the calls it has issued. *)
Ltac inv_run :=
  repeat match goal with
  | H : bind _ _ _ = _ |- _ =>
      apply bind_inv in H as [(? & ? & ? & H)|(? & H & ?)]
  | H : try_except _ _ _ = _ |- _ =>
      apply try_except_inv in H as [(? & H & ?)|[(? & ? & ? & ? & ? & H)|(? & H & ? & ?)]]
  | H : ret _ _ = _ |- _ => apply ret_inv in H as [? ?]
  | H : raise _ _ = _ |- _ => unfold raise in H
  | H : sleep _ _ = _ |- _ => unfold sleep in H
  | H : (_, _) = (_, _) |- _ => injection H as ? ?
  | H : Some _ = Some _ |- _ => injection H as ?
  | H : Ret _ = Ret _ |- _ => injection H as ?
  | H : Raise _ = Raise _ |- _ => injection H as ?
  | H : Ret _ = Raise _ |- _ => discriminate H
  | H : Raise _ = Ret _ |- _ => discriminate H
  | H : None = Some _ |- _ => discriminate H
  | H : Some _ = None |- _ => discriminate H
  | H : true = false |- _ => discriminate H
  | H : false = true |- _ => discriminate H
  | H : ?x = _ |- _ => is_var x; subst x
  | H : _ = ?x |- _ => is_var x; subst x
  end.

(** Turn the calls of an execution into facts about the history. *)
Ltac prims :=
  repeat match goal with
  | H : prim ?c ?st = (?r, ?st') |- _ =>
      apply (prim_after c st r st') in H; simpl exn_of in H
  end.

(** Chain the facts [after _ _ _] of the context from [st] to [st']. *)
Ltac chain :=
  match goal with
  | |- after ?st _ ?st => apply after_refl
  | H : after ?s _ ?st' |- after ?st _ ?st' =>
      eapply after_trans; [ | exact H ]; chain
  end.

Section EventFacts0.
Context {World : Type} {drv : Driver World}.
Local Abbreviation D := (D World).
Local Abbreviation session := (session World).

Lemma clicks_app a b : clicks (a ++ b) = (clicks a + clicks b)%nat.
Proof. unfold clicks. now rewrite List.filter_app, List.length_app. Qed.

Lemma clicks_cons ev evs :
  clicks (ev :: evs) = ((if is_click ev then 1 else 0) + clicks evs)%nat.
Proof. unfold clicks. simpl. destruct (is_click ev); reflexivity. Qed.

Lemma except_Exception_inv {A} (k k' : D A) e :
  except_Exception k e = Some k' -> k' = k /\ e <> KeyboardInterrupt.
Proof. unfold except_Exception. destruct e; simpl; intros [= <-]; split; congruence. Qed.

Lemma except_Exception_none {A} (k : D A) e :
  except_Exception k e = None -> e = KeyboardInterrupt.
Proof. unfold except_Exception. destruct e; simpl; congruence. Qed.

End EventFacts0.

Ltac count_clicks :=
  repeat (rewrite clicks_app || rewrite clicks_cons);
  change (clicks []) with 0%nat;
  cbn [is_click ev_call ev_exn];
  repeat match goal with
  | |- context [String.eqb ?a ?b] =>
      let v := eval vm_compute in (String.eqb a b) in
      change (String.eqb a b) with v
  end;
  cbv iota.

Ltac no_lookups :=
  repeat first
    [ assumption
    | apply List.Forall_nil
    | apply List.Forall_cons; [reflexivity|]
    | apply List.Forall_app; split ].

Section EventFacts.
Context {World : Type} {drv : Driver World}.
Local Abbreviation D := (D World).
Local Abbreviation session := (session World).

Lemma safe_click_loop_spec n e (st : session) r st' :
  safe_click_loop n e st = (r, st') ->
  exists evs, after st evs st' /\ click_spec r evs.
Proof.
  revert st r st'. induction n as [|n IH]; intros st r st' E; simpl in E.
  - inv_run. exists []. split; [apply after_refl|]. split; [constructor|reflexivity].
  - assert (Hretry : forall st0 r0 st1,
               (sleep 500 ;; safe_click_loop n e)%py st0 = (r0, st1) ->
               exists evs, after st0 evs st1 /\ click_spec r0 evs).
    { clear E. intros st0 r0 st1 E0. inv_run.
      - apply IH in E0 as (evs & Ha & Hf & Hc). prims.
        eexists. split; [chain|]. split; [no_lookups|].
        count_clicks. rewrite Hc. lia.
      - prims. eexists. split; [chain|]. split; [no_lookups|reflexivity]. }
    assert (Hhandler : forall x k st0 r0 st1,
               (if click_intercepted x
                then Some (try_except
                             (prim (ExecuteScript js_click (Some e)) ;; ret true)%py
                             (except_Exception (sleep 500 ;; safe_click_loop n e)%py))
                else except_Exception (sleep 500 ;; safe_click_loop n e)%py x) = Some k ->
               k st0 = (r0, st1) ->
               exists evs, after st0 evs st1 /\ click_spec r0 evs).
    { clear E. intros x k st0 r0 st1 Hk E0.
      destruct (click_intercepted x).
      - inv_run.
        + prims. eexists. split; [chain|]. split; [no_lookups|reflexivity].
        + match goal with Hx : except_Exception _ _ = Some _ |- _ =>
            apply except_Exception_inv in Hx as [-> _] end.
          apply Hretry in E0 as (evs & Ha & Hf & Hc). prims.
          eexists. split; [chain|]. split; [no_lookups|].
          count_clicks. rewrite Hc. lia.
        + prims. eexists. split; [chain|]. split; [no_lookups|reflexivity].
      - apply except_Exception_inv in Hk as [-> _]. now apply Hretry. }
    inv_run.
    all: prims.
    all: try (eexists; split; [chain|]; split; [no_lookups|reflexivity]).
    all: match goal with
         | Hk : _ = Some ?k, E : ?k _ = _ |- _ =>
             destruct (Hhandler _ _ _ _ _ Hk E) as (evs & Ha & Hf & Hc)
         end.
    all: eexists; (split; [chain|]); (split; [no_lookups|]); count_clicks; rewrite Hc; lia.
Qed.

Lemma safe_click_spec e (st : session) r st' :
  safe_click e st = (r, st') ->
  exists evs, after st evs st' /\ click_spec r evs.
Proof. apply safe_click_loop_spec. Qed.

Lemma found_and_clicked_spec elt (st : session) r st' :
  found_and_clicked elt st = (r, st') ->
  exists evs, after st evs st' /\ click_spec r evs.
Proof.
  destruct elt as [e|]; simpl; [apply safe_click_spec|].
  intros E. inv_run. exists []. split; [apply after_refl|]. split; [constructor|reflexivity].
Qed.

(** [safe_find] issues one lookup; a timeout is turned into [None]. *)
Lemma safe_find_spec by_ sel (st : session) r st' :
  safe_find by_ sel st = (r, st') ->
  exists o, after st [Ev (WaitPresence by_ sel) o] st' /\
    match r with
    | Ret (Some _) => o = None
    | Ret None => o = Some TimeoutException
    | Raise x => o = Some x
    end.
Proof.
  unfold safe_find. intros E. inv_run; prims.
  - eexists. split; [eassumption|reflexivity].
  - match goal with Hx : except_Timeout _ ?x = Some _ |- _ =>
      unfold except_Timeout in Hx; destruct x; inv_run end.
    eexists. split; [eassumption|reflexivity].
  - eexists. split; [eassumption|reflexivity].
Qed.

End EventFacts.

Lemma lookups_app by_ sel a b :
  lookups by_ sel (a ++ b) = (lookups by_ sel a + lookups by_ sel b)%nat.
Proof. unfold lookups. now rewrite List.filter_app, List.length_app. Qed.

Lemma lookups_cons by_ sel ev evs :
  lookups by_ sel (ev :: evs) =
  ((if looks_up by_ sel ev then 1 else 0) + lookups by_ sel evs)%nat.
Proof. unfold lookups. simpl. destruct (looks_up by_ sel ev); reflexivity. Qed.

Lemma lookups_none by_ sel evs :
  Forall (fun ev => is_lookup ev = false) evs -> lookups by_ sel evs = 0%nat.
Proof.
  induction 1 as [|ev evs Hev _ IH]; [reflexivity|].
  rewrite lookups_cons, IH. unfold looks_up, is_lookup in *.
  destruct (ev_call ev); try reflexivity; discriminate.
Qed.

Lemma By_eqb_refl b : By_eqb b b = true.
Proof. now destruct b. Qed.

Ltac count_lookups :=
  repeat (rewrite lookups_app || rewrite lookups_cons);
  change (lookups _ _ []) with 0%nat;
  cbn [looks_up ev_call ev_exn];
  repeat match goal with
  | |- context [By_eqb ?a ?b && String.eqb ?c ?d] =>
      let v := eval vm_compute in (By_eqb a b && String.eqb c d) in
      match v with true => idtac | false => idtac end;
      change (By_eqb a b && String.eqb c d) with v
  end;
  rewrite ?By_eqb_refl, ?String.eqb_refl;
  cbn [andb];
  cbv iota;
  repeat match goal with
  | Hf : Forall (fun ev => is_lookup ev = false) ?x
    |- context [lookups ?b ?s ?x] => rewrite (lookups_none b s x Hf)
  end.

Section Season.
Context {World : Type} {drv : Driver World}.
Local Abbreviation session := (session World).

Lemma is_season_selected_spec season (st : session) r st' :
  _is_season_selected season st = (r, st') ->
  exists evs, after st evs st' /\
    lookups CSS_SELECTOR CURRENT_SEASON_TEXT_SELECTOR evs = 1%nat /\
    clicks evs = 0%nat.
Proof.
  unfold _is_season_selected. intros E. inv_run.
  all: repeat match goal with
       | Hf : safe_find _ _ _ = _ |- _ => apply safe_find_spec in Hf as (? & Hf & ?)
       | x : option element |- _ => destruct x
       end; inv_run; prims.
  all: eexists; (split; [chain|]); split; [count_lookups; reflexivity | reflexivity].
Qed.

End Season.

Section Rounds.
Context {World : Type} {drv : Driver World}.
Local Abbreviation session := (session World).

Lemma only_looks_up_clicks sel evs :
  Forall (fun ev => is_lookup ev = false) evs -> only_looks_up sel evs.
Proof. apply List.Forall_impl. auto. Qed.

Lemma arrow_steps_spec sel n (st : session) r st' :
  arrow_steps sel n st = (r, st') ->
  exists evs,
    after st evs st' /\
    only_looks_up sel evs /\
    (clicks evs <= n)%nat /\
    (r = Ret true -> clicks evs = n /\ lookups CSS_SELECTOR sel evs = n).
Proof.
  revert st r st'. induction n as [|n IH]; intros st r st' E; simpl in E.
  - inv_run. exists []. split; [apply after_refl|]. repeat split; auto. constructor.
  - repeat (progress inv_run || match goal with
       | Hf : safe_find _ _ _ = (Ret ?x, _) |- _ =>
           apply safe_find_spec in Hf as (? & Hf & ?); destruct x
       | Hf : safe_find _ _ _ = (Raise _, _) |- _ =>
           apply safe_find_spec in Hf as (? & Hf & ?)
       | Hf : found_and_clicked (Some _) _ = _ |- _ =>
           simpl in Hf; apply safe_click_spec in Hf as (? & Hf & ? & ?)
       | Hf : found_and_clicked None _ = _ |- _ => simpl in Hf
       | Hb : context [if negb ?b then _ else _] |- _ =>
           first [is_var b; destruct b | idtac]; progress simpl in Hb
       | Hs : arrow_steps _ _ _ = _ |- _ =>
           apply IH in Hs as (? & Hs & ? & ? & ?)
       end).
    all: prims.
    all: eexists; (split; [chain|]).
    all: split;
      [ unfold only_looks_up in *;
        repeat first
          [ assumption
          | apply List.Forall_nil
          | apply only_looks_up_clicks; assumption
          | apply List.Forall_cons; [first [left; reflexivity | right; eexists; reflexivity]|]
          | apply List.Forall_app; split ] | ].
    all: split; [ count_clicks; lia | ].
    all: intros Hr; try discriminate Hr.
    all: match goal with Hi : ?r = Ret true -> _ |- _ => destruct (Hi Hr) as [? ?] end.
    all: split; [ count_clicks; lia | ].
    all: count_lookups; lia.
Qed.


Lemma of_res_inv {A} (x : res A) (st : session) r st' :
  of_res x st = (r, st') -> r = x /\ st' = st.
Proof. intros [= <- <-]. auto. Qed.

(** [_extract_round] looks up the round label, reads its text when it
    is there, and does nothing else. *)
Lemma extract_round_spec (st : session) r st' :
  _extract_round st = (r, st') ->
  exists evs,
    after st evs st' /\
    lookups CSS_SELECTOR ROUND_TEXT_SELECTOR evs = 1%nat /\
    lookups CSS_SELECTOR ROUND_DROPDOWN_BUTTON evs = 0%nat /\
    clicks evs = 0%nat /\
    (forall n, r = Ret (Some n) ->
       exists e, evs = [Ev (ElementText e) None;
                        Ev (WaitPresence CSS_SELECTOR ROUND_TEXT_SELECTOR) None]).
Proof.
  unfold _extract_round. intros E.
  apply bind_inv in E as [(elt & s1 & E1 & E)|(x & E1 & ->)];
    apply safe_find_spec in E1 as (o & E1 & Ho).
  2:{ eexists. split; [exact E1|]. repeat split; try discriminate. }
  destruct elt as [e|].
  - subst o.
    apply bind_inv in E as [(text & s2 & E2 & E)|(x & E2 & ->)].
    + apply of_res_inv in E as [-> ->]. prims.
      eexists. split; [chain|]. repeat split. eauto.
    + prims. eexists. split; [chain|]. repeat split; discriminate.
  - inv_run. eexists. split; [exact E1|]. repeat split; discriminate.
Qed.

(** The selection through the dropdown looks up the dropdown button
    once; it has made two clicks when the method returns from there. *)
Lemma round_by_dropdown_lookup target (st : session) r st' :
  round_by_dropdown target st = (r, st') ->
  exists evs,
    after st evs st' /\
    lookups CSS_SELECTOR ROUND_TEXT_SELECTOR evs = 0%nat /\
    lookups CSS_SELECTOR ROUND_DROPDOWN_BUTTON evs = 1%nat /\
    (r = Ret true -> clicks evs = 2%nat).
Proof.
  unfold round_by_dropdown. intros E.
  repeat (progress inv_run || match goal with
     | Hf : safe_find _ _ _ = (Ret ?x, _) |- _ =>
         apply safe_find_spec in Hf as (? & Hf & ?); destruct x
     | Hf : safe_find _ _ _ = (Raise _, _) |- _ =>
         apply safe_find_spec in Hf as (? & Hf & ?)
     | Hf : found_and_clicked (Some _) _ = _ |- _ =>
         simpl in Hf; apply safe_click_spec in Hf as (? & Hf & ? & ?)
     | Hf : found_and_clicked None _ = _ |- _ => simpl in Hf
     | Hb : (if ?b then _ else _) _ = _ |- _ => destruct b
     end).
  all: prims.
  all: eexists; (split; [chain|]).
  all: split; [count_lookups; lia|].
  all: split; [count_lookups; lia|].
  all: intros Hr; try discriminate Hr.
  all: count_clicks; lia.
Qed.

Lemma only_looks_up_other sel sel' evs :
  only_looks_up sel evs -> sel <> sel' -> lookups CSS_SELECTOR sel' evs = 0%nat.
Proof.
  intros H Hne. induction H as [|ev evs Hev _ IH]; [reflexivity|].
  rewrite lookups_cons, IH. destruct Hev as [Hev|(o & ->)].
  - unfold looks_up, is_lookup in *. destruct (ev_call ev); try reflexivity; discriminate.
  - unfold looks_up. cbn [ev_call By_eqb andb].
    destruct (String.eqb sel sel') eqn:He; [|reflexivity].
    apply String.eqb_eq in He. contradiction.
Qed.

Lemma arrow_selector_cases diff :
  arrow_selector diff = NEXT_ROUND_ARROW \/ arrow_selector diff = PREV_ROUND_ARROW.
Proof. unfold arrow_selector. destruct (0 <? diff); auto. Qed.

(** C6, amended: a second call of [navigate_to_round] in succession with
    the same target (an integer that Python prints) reads the round
    label once more and goes by what it reads, whatever the first call
    has returned.  When the label reads as the target, the second call
    returns [True] right after the reading: two calls, the lookup of the
    label and the reading of its text, no click, no lookup of the
    dropdown button.  When the label reads as another round, the second
    call looks up the dropdown button again and returns [True] only
    after at least one click. *)
Theorem navigate_to_round_idempotent target (st : session) r1 st1
    current st2 r2 st3 :
  printable target ->
  navigate_to_round target st = (r1, st1) ->
  _extract_round st1 = (Ret current, st2) ->
  navigate_to_round target st1 = (r2, st3) ->
  exists evs,
    after st1 evs st3 /\
    lookups CSS_SELECTOR ROUND_TEXT_SELECTOR evs = 1%nat /\
    (current = Some target ->
       r2 = Ret true /\ st3 = st2 /\
       clicks evs = 0%nat /\
       lookups CSS_SELECTOR ROUND_DROPDOWN_BUTTON evs = 0%nat /\
       exists e, evs = [Ev (ElementText e) None;
                        Ev (WaitPresence CSS_SELECTOR ROUND_TEXT_SELECTOR) None]) /\
    (forall shown, current = Some shown -> shown <> target ->
       lookups CSS_SELECTOR ROUND_DROPDOWN_BUTTON evs = 1%nat /\
       (r2 = Ret true -> (1 <= clicks evs)%nat)).
Proof.
  intros _ _ Hcur E.
  destruct (extract_round_spec _ _ _ Hcur) as (evs0 & Ha0 & Hl0 & Hb0 & Hc0 & Hev0).
  unfold navigate_to_round in E. unfold bind at 1 in E. rewrite Hcur in E.
  destruct (bool_decide (current = Some target)) eqn:Hd.
  - apply bool_decide_eq_true_1 in Hd. injection E as <- <-.
    exists evs0. split; [exact Ha0|]. split; [exact Hl0|]. split.
    + intros _. repeat split; auto. eapply Hev0. now rewrite Hd.
    + intros shown -> Hne. congruence.
  - apply bool_decide_eq_false_1 in Hd.
    apply bind_inv in E as [(sel & s3 & Hdrop & E)|(x & Hdrop & ->)];
      destruct (round_by_dropdown_lookup _ _ _ _ Hdrop) as (evs1 & Ha1 & Hl1 & Hb1 & Hc1).
    2:{ eexists. split; [chain|]. split; [count_lookups; lia|].
        split; [intros; contradiction|]. intros shown _ _.
        split; [count_lookups; lia | discriminate]. }
    destruct sel.
    { inv_run. eexists. split; [chain|]. split; [count_lookups; lia|].
      split; [intros; contradiction|]. intros shown _ _.
      split; [count_lookups; lia|]. intros _. count_clicks.
      rewrite (Hc1 eq_refl). lia. }
    unfold round_by_arrows in E.
    set (diff := target - or_zero current) in E.
    assert (Hl : forall evs, only_looks_up (arrow_selector diff) evs ->
                 lookups CSS_SELECTOR ROUND_TEXT_SELECTOR evs = 0%nat /\
                 lookups CSS_SELECTOR ROUND_DROPDOWN_BUTTON evs = 0%nat).
    { intros evs Ho.
      split; eapply only_looks_up_other; try exact Ho;
        destruct (arrow_selector_cases diff) as [-> | ->]; discriminate. }
    apply bind_inv in E as [(done & s4 & Hsteps & E)|(x & Hsteps & ->)];
      apply arrow_steps_spec in Hsteps as (evs2 & Ha2 & Ho2 & Hle2 & Hall2);
      destruct (Hl _ Ho2) as [Hl2 Hb2].
    2:{ eexists. split; [chain|]. split; [count_lookups; lia|].
        split; [intros; contradiction|]. intros shown _ _.
        split; [count_lookups; lia | discriminate]. }
    destruct done; inv_run; prims.
    all: eexists; (split; [chain|]); (split; [count_lookups; lia|]).
    all: split; [intros; contradiction|]; intros shown -> Hne.
    all: split; [count_lookups; lia|]; intros Hr; try discriminate Hr.
    all: destruct (Hall2 eq_refl) as [Hc2 _]; count_clicks; rewrite Hc2.
    all: unfold diff; simpl or_zero; lia.
Qed.

End Rounds.

(** ** What the methods add to the history *)

Section Emits.
Context {World : Type} {drv : Driver World}.
Local Abbreviation D := (D World).
Local Abbreviation session := (session World).
Local Abbreviation emits P m := (@emits World P _ m).

Context (P : event -> Prop).

Lemma emits_ret {A} (a : A) : emits P (ret a).
Proof. intros st r st' E. inv_run. exists []. split; [apply after_refl|constructor]. Qed.

Lemma emits_raise {A} e : emits P (raise (A:=A) e).
Proof. intros st r st' E. inv_run. exists []. split; [apply after_refl|constructor]. Qed.

Lemma emits_prim c : (forall o, P (Ev c o)) -> emits P (prim c).
Proof. intros HP st r st' E. prims. eexists. split; [eassumption|]. repeat constructor. apply HP. Qed.

Lemma emits_bind {A B} (m : D A) (f : A -> D B) :
  emits P m -> (forall a, emits P (f a)) -> emits P (bind m f).
Proof.
  intros Hm Hf st r st' E. inv_run.
  - match goal with H1 : m _ = _ |- _ => apply Hm in H1 as (evs1 & H1 & ?) end.
    apply Hf in E as (evs2 & E & ?). eexists.
    split; [eapply after_trans; eassumption|]. now apply List.Forall_app.
  - eauto.
Qed.

Lemma emits_try_except {A} (m : D A) h :
  emits P m -> (forall e k, h e = Some k -> emits P k) -> emits P (try_except m h).
Proof.
  intros Hm Hh st r st' E. inv_run; eauto.
  match goal with H1 : m _ = _, H2 : h _ = Some _ |- _ =>
    apply Hm in H1 as (evs1 & H1 & ?); apply (Hh _ _ H2) in E as (evs2 & E & ?) end.
  eexists. split; [eapply after_trans; eassumption|]. now apply List.Forall_app.
Qed.

Lemma emits_try_finally {A} (m : D A) f :
  emits P m -> emits P f -> emits P (try_finally m f).
Proof.
  intros Hm Hf st r st'. unfold try_finally.
  destruct (m st) as [r1 st1] eqn:E1. destruct (f st1) as [[u|e] st2] eqn:E2.
  all: intros [= <- <-]; apply Hm in E1 as (evs1 & E1 & ?); apply Hf in E2 as (evs2 & E2 & ?).
  all: eexists; (split; [eapply after_trans; eassumption|]); now apply List.Forall_app.
Qed.

Lemma emits_time_time : emits P time_time.
Proof. intros st r st' [= <- <-]. exists []. split; [apply after_refl|constructor]. Qed.

Lemma emits_get_original_tab : emits P get_original_tab.
Proof. intros st r st' [= <- <-]. exists []. split; [apply after_refl|constructor]. Qed.

Lemma emits_except_Exception {A} (k : D A) e k' :
  emits P k -> except_Exception k e = Some k' -> emits P k'.
Proof. intros Hk (-> & _)%except_Exception_inv. exact Hk. Qed.

Lemma emits_except_Timeout {A} (k : D A) e k' :
  emits P k -> except_Timeout k e = Some k' -> emits P k'.
Proof. unfold except_Timeout. intros Hk. destruct e; intros [= <-]; exact Hk. Qed.

End Emits.

Section EmitsAny.
Context {World : Type} {drv : Driver World}.

Lemma emits_extract (f : extractor World) : emits any (extract f).
Proof.
  intros st r st'. unfold extract.
  destruct (f (world st)) as [[[r0 w] evs] dt]. intros [= <- <-].
  exists evs. split; [|apply Forall_forall; intros; exact I].
  unfold after. simpl. repeat split; lia.
Qed.

Lemma emits_found_and_clicked elt : emits any (found_and_clicked elt).
Proof.
  intros st r st' E. apply found_and_clicked_spec in E as (evs & E & _).
  exists evs. split; [exact E|]. apply Forall_forall; intros; exact I.
Qed.

Lemma emits_after {A} P (m : D World A) st r st' :
  emits P m -> m st = (r, st') -> exists evs, after st evs st'.
Proof. intros Hm E. apply Hm in E as (evs & E & _). eauto. Qed.
End EmitsAny.

Create HintDb emits.
#[export] Hint Resolve emits_ret emits_raise emits_time_time
  emits_get_original_tab emits_extract emits_found_and_clicked : emits.
(** A call that is not a click satisfies [any] and [not_click]; for
    another property of calls, the call is looked at. *)
Ltac emits_call c :=
  match goal with
  | |- emits any _ => apply (emits_prim any c); intros ?; exact I
  | |- emits not_click _ => apply (emits_prim not_click c); intros [?|]; reflexivity
  | HP : ?P = any \/ ?P = not_click |- emits ?P _ =>
      apply (emits_prim P c); intros o;
      destruct HP as [-> | ->]; [exact I | destruct o; reflexivity]
  | |- emits ?P _ => apply (emits_prim P c); intros ?; reflexivity
  end.

#[export] Hint Extern 1 (emits _ (prim ?c)) => emits_call c : emits.
#[export] Hint Extern 1 (emits _ (sleep ?ms)) => emits_call (Sleep ms) : emits.

(** Decompose a goal [emits P m] along the structure of [m]. *)
Ltac emits :=
  repeat first
    [ solve [eauto with emits]
    | apply emits_bind; [|intros ?]
    | apply emits_try_except; [|intros ? ? ?]
    | apply emits_try_finally
    | match goal with
      | Hx : except_Exception _ _ = Some _ |- emits _ _ =>
          eapply emits_except_Exception; [|exact Hx]
      | Hx : except_Timeout _ _ = Some _ |- emits _ _ =>
          eapply emits_except_Timeout; [|exact Hx]
      | |- emits _ (match ?x with _ => _ end) => destruct x
      | |- emits _ (if ?b then _ else _) => destruct b
      end ].

Section EmitsMethods.
Context {World : Type} {drv : Driver World}.
Local Abbreviation D := (D World).

Section AnyOrNoClick.
Context (P : event -> Prop) (HP : P = any \/ P = not_click).

Lemma emits_safe_find by_ sel : emits P (safe_find by_ sel).
Proof. unfold safe_find. emits. Qed.

Lemma emits_safe_find_all by_ sel : emits P (safe_find_all by_ sel).
Proof. unfold safe_find_all. emits. Qed.

Hint Resolve emits_safe_find emits_safe_find_all : emits.

Lemma emits_scroll_loop n elt last : emits P (scroll_loop n elt last).
Proof. revert last. induction n; intros last; simpl; emits. Qed.

Lemma emits_find_stats_container n : emits P (find_stats_container n).
Proof. induction n; simpl; emits. Qed.

Lemma emits_find_stat_rows n : emits P (find_stat_rows n).
Proof. induction n; simpl; emits. Qed.

Lemma emits_first_text r sel : emits P (first_text r sel).
Proof. unfold first_text. emits. Qed.

Hint Resolve emits_scroll_loop emits_find_stats_container
  emits_find_stat_rows emits_first_text : emits.

Lemma emits_stat_rows rows : emits P (stat_rows rows).
Proof. induction rows; simpl; unfold stat_row; emits. Qed.

Hint Resolve emits_stat_rows : emits.

Lemma emits_extract_stats_view : emits P _extract_stats_view.
Proof.
  unfold _extract_stats_view, _scroll_container. emits.
Qed.

Lemma emits_wait_loop b m e p : emits P (wait_loop b m e p).
Proof. induction b; simpl; emits. Qed.

End AnyOrNoClick.

Hint Resolve emits_safe_find emits_extract_stats_view emits_wait_loop : emits.

Lemma emits_extract_attempts n tab_id : emits any (extract_attempts n tab_id).
Proof. induction n; simpl; unfold wait_for_stat_rows; emits. Qed.

Hint Resolve emits_extract_attempts : emits.

Lemma emits_get_stats : emits any _get_stats.
Proof. unfold _get_stats, extract_with_retries. emits. Qed.

Hint Resolve emits_get_stats : emits.

Lemma emits_scrape_body fields url md : emits any (scrape_body fields url md).
Proof. unfold scrape_body, last_handle. emits. Qed.

End EmitsMethods.

(** The statistics views look up no tab. *)

Section TabLookups.
Context {World : Type} {drv : Driver World}.
Local Abbreviation D := (D World).
Local Abbreviation session := (session World).
Local Abbreviation emits P m := (@emits World P _ m).

Variable tab_id : Z.

(** A call that is not a lookup of the tab [tab_id]. *)
Local Abbreviation other :=
  (fun ev => looks_up CSS_SELECTOR (tab_selector tab_id) ev = false).

Lemma lookups_others sel evs :
  Forall (fun ev => looks_up CSS_SELECTOR sel ev = false) evs ->
  lookups CSS_SELECTOR sel evs = 0%nat.
Proof.
  induction 1 as [|ev evs Hev _ IH]; [reflexivity|].
  now rewrite lookups_cons, IH, Hev.
Qed.

Lemma others_safe_find_all by_ sel : emits other (safe_find_all by_ sel).
Proof. unfold safe_find_all. emits. Qed.

Lemma others_stats_container : emits other (safe_find CSS_SELECTOR STATS_CONTAINER).
Proof. unfold safe_find. emits. Qed.

Hint Resolve others_safe_find_all others_stats_container : emits.

Lemma others_scroll_loop n elt last : emits other (scroll_loop n elt last).
Proof. revert last. induction n; intros last; simpl; emits. Qed.

Lemma others_find_stats_container n : emits other (find_stats_container n).
Proof. induction n; simpl; emits. Qed.

Lemma others_find_stat_rows n : emits other (find_stat_rows n).
Proof. induction n; simpl; emits. Qed.

Lemma others_first_text r sel : emits other (first_text r sel).
Proof. unfold first_text. emits. Qed.

Hint Resolve others_scroll_loop others_find_stats_container
  others_find_stat_rows others_first_text : emits.

Lemma others_stat_rows rows : emits other (stat_rows rows).
Proof. induction rows; simpl; unfold stat_row; emits. Qed.

Hint Resolve others_stat_rows : emits.

Lemma others_extract_stats_view : emits other _extract_stats_view.
Proof. unfold _extract_stats_view, _scroll_container. emits. Qed.

Lemma others_wait_loop b m e p : emits other (wait_loop b m e p).
Proof. induction b; simpl; emits. Qed.

Lemma others_wait_for_stat_rows m t p : emits other (wait_for_stat_rows m t p).
Proof. unfold wait_for_stat_rows. pose proof others_wait_loop. emits. Qed.

End TabLookups.

(** ** The windows of the browser *)

Section KeepsWindows.
Context {World : Type} {drv : Driver World} {win : Windows World}.
Local Abbreviation D := (D World).
Local Abbreviation session := (session World).

Lemma same_windows_refl (w : World) : same_windows w w.
Proof. split; reflexivity. Qed.

Lemma same_windows_trans (w1 w2 w3 : World) :
  same_windows w1 w2 -> same_windows w2 w3 -> same_windows w1 w3.
Proof. intros [H1 H2] [H3 H4]. split; congruence. Qed.

Lemma keeps_ret {A} (a : A) : keeps_windows (ret (World := World) a).
Proof. intros st r st' [= <- <-]. apply same_windows_refl. Qed.

Lemma keeps_raise {A} e : keeps_windows (raise (World := World) (A := A) e).
Proof. intros st r st' [= <- <-]. apply same_windows_refl. Qed.

Lemma keeps_of_res {A} (x : res A) : keeps_windows (of_res (World := World) x).
Proof. intros st r st' [= <- <-]. apply same_windows_refl. Qed.

Lemma keeps_time_time : keeps_windows (time_time (World := World)).
Proof. intros st r st' [= <- <-]. apply same_windows_refl. Qed.

Lemma keeps_get_original_tab : keeps_windows (get_original_tab (World := World)).
Proof. intros st r st' [= <- <-]. apply same_windows_refl. Qed.

Lemma keeps_bind {A B} (m : D A) (f : A -> D B) :
  keeps_windows m -> (forall a, keeps_windows (f a)) -> keeps_windows (bind m f).
Proof.
  intros Hm Hf st r st' E.
  apply bind_inv in E as [(a & s1 & E1 & E)|(e & E1 & _)].
  - eapply same_windows_trans; [eapply Hm, E1 | eapply Hf, E].
  - eapply Hm, E1.
Qed.

Lemma keeps_try_except {A} (m : D A) h :
  keeps_windows m -> (forall e k, h e = Some k -> keeps_windows k) ->
  keeps_windows (try_except m h).
Proof.
  intros Hm Hh st r st' E.
  apply try_except_inv in E
    as [(a & E & _)|[(e & s1 & k & E1 & Hk & E)|(e & E & _ & _)]].
  - eapply Hm, E.
  - eapply same_windows_trans; [eapply Hm, E1 | eapply (Hh _ _ Hk), E].
  - eapply Hm, E.
Qed.

Lemma keeps_except_Exception {A} (k : D A) e k' :
  keeps_windows k -> except_Exception k e = Some k' -> keeps_windows k'.
Proof. intros Hk (-> & _)%except_Exception_inv. exact Hk. Qed.

Lemma keeps_except_Timeout {A} (k : D A) e k' :
  keeps_windows k -> except_Timeout k e = Some k' -> keeps_windows k'.
Proof. unfold except_Timeout. intros Hk. destruct e; intros [= <-]; exact Hk. Qed.

Hypothesis laws : window_laws.

Lemma keeps_prim c : is_window_call c = false -> keeps_windows (prim c).
Proof.
  intros Hc st r st' (w & d & E & ->)%prim_inv. simpl.
  eapply (other_calls laws), E. exact Hc.
Qed.

End KeepsWindows.

Create HintDb keeps.
#[export] Hint Resolve keeps_ret keeps_raise keeps_of_res keeps_time_time
  keeps_get_original_tab : keeps.
(** A call that is not a window call keeps the windows. *)
Ltac keeps_call c :=
  match goal with
  | L : window_laws |- _ => apply (keeps_prim L c); reflexivity
  end.

#[export] Hint Extern 1 (keeps_windows (prim ?c)) => keeps_call c : keeps.
#[export] Hint Extern 1 (keeps_windows (sleep ?ms)) => keeps_call (Sleep ms) : keeps.

(** Decompose a goal [keeps_windows m] along the structure of [m]. *)
Ltac keeps :=
  repeat first
    [ solve [eauto with keeps]
    | apply keeps_bind; [|intros ?]
    | apply keeps_try_except; [|intros ? ? ?]
    | match goal with
      | Hx : except_Exception _ _ = Some _ |- keeps_windows _ =>
          eapply keeps_except_Exception; [|exact Hx]
      | Hx : except_Timeout _ _ = Some _ |- keeps_windows _ =>
          eapply keeps_except_Timeout; [|exact Hx]
      | Hx : (if click_intercepted ?x then _ else _) = Some _ |- _ =>
          destruct (click_intercepted x); [injection Hx as <-|]
      | |- keeps_windows (match ?x with _ => _ end) => destruct x
      | |- keeps_windows (if ?b then _ else _) => destruct b
      end ].

Section KeepsMethods.
Context {World : Type} {drv : Driver World} {win : Windows World}.
Local Abbreviation D := (D World).
Local Abbreviation session := (session World).
Hypothesis laws : window_laws.

Lemma keeps_safe_find by_ sel : keeps_windows (safe_find by_ sel).
Proof. unfold safe_find. keeps. Qed.

Lemma keeps_safe_find_all by_ sel : keeps_windows (safe_find_all by_ sel).
Proof. unfold safe_find_all. keeps. Qed.

Hint Resolve keeps_safe_find keeps_safe_find_all : keeps.

Lemma keeps_safe_click_loop n e : keeps_windows (safe_click_loop n e).
Proof. induction n; simpl; keeps. Qed.

Lemma keeps_found_and_clicked elt : keeps_windows (found_and_clicked elt).
Proof. destruct elt; simpl; [apply keeps_safe_click_loop|keeps]. Qed.

Hint Resolve keeps_found_and_clicked : keeps.

Lemma keeps_extract_round : keeps_windows _extract_round.
Proof. unfold _extract_round. keeps. Qed.

Lemma keeps_scroll_loop n elt last : keeps_windows (scroll_loop n elt last).
Proof. revert last. induction n; intros last; simpl; keeps. Qed.

Lemma keeps_find_stats_container n : keeps_windows (find_stats_container n).
Proof. induction n; simpl; keeps. Qed.

Lemma keeps_find_stat_rows n : keeps_windows (find_stat_rows n).
Proof. induction n; simpl; keeps. Qed.

Lemma keeps_first_text r sel : keeps_windows (first_text r sel).
Proof. unfold first_text. keeps. Qed.

Hint Resolve keeps_scroll_loop keeps_find_stats_container
  keeps_find_stat_rows keeps_first_text : keeps.

Lemma keeps_stat_rows rows : keeps_windows (stat_rows rows).
Proof. induction rows; simpl; unfold stat_row; keeps. Qed.

Hint Resolve keeps_stat_rows : keeps.

Lemma keeps_extract_stats_view : keeps_windows _extract_stats_view.
Proof. unfold _extract_stats_view, _scroll_container. keeps. Qed.

Lemma keeps_wait_loop b m e p : keeps_windows (wait_loop b m e p).
Proof. induction b; simpl; keeps. Qed.

Hint Resolve keeps_extract_stats_view keeps_wait_loop : keeps.

Lemma keeps_extract_attempts n tab_id : keeps_windows (extract_attempts n tab_id).
Proof. induction n; simpl; unfold wait_for_stat_rows; keeps. Qed.

Hint Resolve keeps_extract_attempts : keeps.

Lemma keeps_get_stats : keeps_windows _get_stats.
Proof. unfold _get_stats, extract_with_retries. keeps. Qed.

End KeepsMethods.

(** ** [scrape_match]: the [finally] clause *)

Section Cleanup.
Context {World : Type} {drv : Driver World}.
Local Abbreviation D := (D World).
Local Abbreviation session := (session World).
Local Abbreviation emits P m := (@emits World P _ m).

Variable fields : extractors World.

Lemma close_tab_succeeds (st : session) :
  cleanup_goes_through (original_tab st) (world st) ->
  exists o st',
    after st (cleanup_calls (original_tab st) o) st' /\
    close_tab st = (match o with
                    | Some KeyboardInterrupt => Raise KeyboardInterrupt
                    | _ => Ret tt
                    end, st').
Proof.
  intros (w1 & d1 & h & hs & w2 & d2 & w3 & d3 & w4 & d4 & E1 & E2 & E3 & E4).
  unfold close_tab, try_except, bind, get_original_tab, sleep.
  unfold prim at 1. rewrite E1. simpl world.
  unfold prim at 1. simpl world. rewrite E2. simpl world.
  unfold prim at 1. simpl world. rewrite E3. simpl world. simpl original_tab.
  unfold prim at 1. simpl world. rewrite E4. simpl world.
  unfold prim. simpl world.
  pose proof (N2Z.is_nonneg d1). pose proof (N2Z.is_nonneg d2).
  pose proof (N2Z.is_nonneg d3). pose proof (N2Z.is_nonneg d4).
  destruct (exec (Sleep 1000) w4) as [[[u|e] w5] d5] eqn:E5;
    pose proof (N2Z.is_nonneg d5).
  - simpl in u. destruct u. exists None. eexists. split; [|reflexivity].
    unfold after, cleanup_calls. simpl. repeat split; lia.
  - exists (Some e). eexists. split.
    2:{ simpl exn_of. unfold except_Exception. destruct e; reflexivity. }
    unfold after, cleanup_calls. simpl. destruct e; simpl; repeat split; lia.
Qed.

(** The [finally] clause of [scrape_match] lets nothing out but the
    interrupt of the user. *)
Lemma close_tab_raises_only_interrupt (st : session) e st' :
  close_tab st = (Raise e, st') -> e = KeyboardInterrupt.
Proof.
  unfold close_tab. intros E.
  apply try_except_inv in E
    as [(a & _ & [=])|[(x & s1 & k & _ & Hk & Ek)|(x & _ & Hk & [= ->])]].
  - apply except_Exception_inv in Hk as [-> _]. discriminate Ek.
  - now apply except_Exception_none in Hk.
Qed.

(** *** The windows *)

Context {win : Windows World}.
Hypothesis laws : window_laws.

Lemma not_in_without h ws : ~ In h (without h ws).
Proof.
  unfold without. intros [_ Hh]%List.filter_In.
  now rewrite String.eqb_refl in Hh.
Qed.

Lemma without_fresh h ws : ~ In h ws -> without h (ws ++ [h]) = ws.
Proof.
  intros Hn. unfold without. rewrite List.filter_app. simpl.
  rewrite String.eqb_refl. simpl. rewrite app_nil_r.
  induction ws as [|x ws IH]; [reflexivity|]. simpl.
  destruct (String.eqb_spec x h) as [->|_]; [destruct Hn; now left|].
  simpl. f_equal. apply IH. intros Hin. apply Hn. now right.
Qed.

(** With the session gone, or no window open, the [finally] clause
    stops at its guard: no [close()], no switch, no wait. *)
Lemma close_tab_guard_fails (st : session) rc st' :
  close_tab st = (rc, st') ->
  (forall w1 d1,
     exec SessionId (world st) = (Ret false, w1, d1) ->
     rc = Ret tt /\ world st' = w1 /\ after st [Ev SessionId None] st') /\
  (forall w1 d1 w2 d2,
     exec SessionId (world st) = (Ret true, w1, d1) ->
     exec WindowHandles w1 = (Ret [], w2, d2) ->
     rc = Ret tt /\ world st' = w2 /\
     after st [Ev WindowHandles None; Ev SessionId None] st').
Proof.
  intros E. split.
  - intros w1 d1 E1. revert E.
    unfold close_tab, try_except, bind.
    unfold prim at 1. rewrite E1. unfold ret. simpl.
    intros [= <- <-]. split; [reflexivity|]. split; [reflexivity|].
    unfold after. simpl. pose proof (N2Z.is_nonneg d1). repeat split; lia.
  - intros w1 d1 w2 d2 E1 E2. revert E.
    unfold close_tab, try_except, bind.
    unfold prim at 1. rewrite E1. simpl world.
    unfold prim at 1. simpl world. rewrite E2. unfold ret. simpl.
    intros [= <- <-]. split; [reflexivity|]. split; [reflexivity|].
    unfold after. simpl. pose proof (N2Z.is_nonneg d1). pose proof (N2Z.is_nonneg d2).
    repeat split; lia.
Qed.

(** The [finally] clause, when it goes through, closes the window in
    focus and gives the focus to the original tab. *)
Lemma close_tab_windows (st : session) rc st' :
  cleanup_goes_through (original_tab st) (world st) ->
  close_tab st = (rc, st') ->
  exists h,
    focused (world st) = Some h /\
    open_windows (world st') = without h (open_windows (world st)) /\
    focused (world st') = original_tab st.
Proof.
  intros (w1 & d1 & h & hs & w2 & d2 & w3 & d3 & w4 & d4 & E1 & E2 & E3 & E4).
  unfold close_tab, try_except, bind, get_original_tab, sleep.
  unfold prim at 1. rewrite E1. simpl world.
  unfold prim at 1. simpl world. rewrite E2. simpl world.
  unfold prim at 1. simpl world. rewrite E3. simpl world. simpl original_tab.
  unfold prim at 1. simpl world. rewrite E4. simpl world.
  unfold prim. simpl world.
  destruct (exec (Sleep 1000) w4) as [[r5 w5] d5] eqn:E5.
  intros E.
  assert (Hw : world st' = w5).
  { destruct r5 as [u|e]; [now injection E as <- <-|].
    simpl exn_of in E. unfold except_Exception in E.
    destruct (is_Exception e); now injection E as <- <-. }
  rewrite Hw. clear E Hw.
  destruct (other_calls laws SessionId _ _ _ _ eq_refl E1) as [Ho1 Hf1].
  destruct (other_calls laws WindowHandles _ _ _ _ eq_refl E2) as [Ho2 Hf2].
  destruct (close_window laws _ _ _ _ E3) as (x & Hx & Ho3).
  destruct (switch_to_window laws _ _ _ _ _ E4) as (_ & Ho4 & Hf4).
  destruct (other_calls laws (Sleep 1000) _ _ _ _ eq_refl E5) as [Ho5 Hf5].
  exists x. split; [congruence|]. split; congruence.
Qed.

(** Once the tab of the match has the focus, the rest of the body of
    [scrape_match] opens, closes and focuses no window. *)
Lemma scrape_body_opens_tab url md tab (st : session) rb stb :
  fields_keep_windows fields ->
  tab_opens tab (world st) ->
  scrape_body fields url md st = (rb, stb) ->
  open_windows (world stb) = (open_windows (world st) ++ [tab])%list /\
  focused (world stb) = Some tab.
Proof.
  intros Hf (v & w1 & d1 & hs & front & w2 & d2 & w3 & d3 & E1 & E2 & -> & E3) E.
  destruct (window_open laws _ _ _ _ _ E1) as (h & Ho1 & Hf1).
  pose proof (window_handles laws _ _ _ _ E2) as Hhs.
  destruct (other_calls laws WindowHandles _ _ _ _ eq_refl E2) as [Ho2 Hf2].
  destruct (switch_to_window laws _ _ _ _ _ E3) as (_ & Ho3 & Hf3).
  rewrite Ho1 in Hhs. apply app_inj_tail in Hhs as [-> <-].
  unfold scrape_body in E.
  apply bind_inv in E as [(a1 & s1 & P1 & E)|(x & P1 & _)];
    apply (prim_inv (ExecuteScript "window.open('');" None)) in P1
      as (w & d & P1 & ->);
    rewrite E1 in P1; [|discriminate P1].
  injection P1 as _ <- _.
  apply bind_inv in E as [(tab' & s2 & P2 & E)|(x & P2 & _)];
    unfold last_handle in P2;
    (apply bind_inv in P2 as [(hs' & s2' & P2' & P2)|(y & P2' & _)];
     apply (prim_inv WindowHandles) in P2' as (w' & d' & P2' & ->);
     simpl world in P2'; rewrite E2 in P2'; [|discriminate P2']);
    injection P2' as <- <- _;
    rewrite List.rev_app_distr in P2; simpl in P2; [|discriminate P2].
  injection P2 as <- <-.
  apply bind_inv in E as [(u3 & s3 & P3 & E)|(x & P3 & _)];
    apply (prim_inv (SwitchToWindow (Some tab))) in P3 as (w'' & d'' & P3 & ->);
    simpl world in P3; rewrite E3 in P3; [|discriminate P3].
  injection P3 as _ <- _.
  assert (Hk : same_windows w3 (world stb)).
  { revert E.
    match goal with
    | |- ?m ?s = _ -> _ =>
        assert (Hm : keeps_windows m);
          [|intros E; exact (Hm _ _ _ E)]
    end.
    unfold fields_keep_windows in Hf.
    repeat match goal with
    | H : Forall _ (_ :: _) |- _ => inversion H; subst; clear H
    end.
    pose proof (keeps_get_stats laws).
    keeps. }
  destruct Hk as [Ho Hfo].
  rewrite Ho, Ho3, Ho2, Ho1, Hfo, Hf3. auto.
Qed.

(** C3, amended: in a browser that handles its windows by
    [window_laws], with field extractors that open and close no window,
    and for a matchday that Python prints, or none.  [scrape_match]
    called without a matchday leaves through the exception of
    [_extract_round], if there is one, before it has opened a tab: the
    windows are as they were.  Otherwise the [finally] clause runs on
    every exit path of the body: the body returned, failed with a
    WebDriver error, failed with any other exception, or was
    interrupted; the outcome is the data of the body, the empty record
    after a failure, or the interrupt.  When the guard of the [finally]
    clause fails (the session is gone, or no window is open), the clause
    makes no other call and the windows stay as the body has left them.
    When the body has opened a tab and given it the focus, and the guard
    holds and the calls of the clause go through ([close()] and
    [switch_to.window(original_tab)] do not raise), the last calls of
    [scrape_match] are: session check, window handles, [close()],
    [switch_to.window(original_tab)], one-second wait; the tab of the
    match is closed, the focus is on the original tab, and the open
    windows are those of before the call (the handle of the tab being a
    new one). *)
Theorem scrape_match_cleanup url matchday (st s0 : session) rm r st' :
  (forall md, matchday = Some md -> printable md) ->
  fields_keep_windows fields ->
  (match matchday with
   | Some md => ret (Some md)
   | None => _extract_round
   end) st = (rm, s0) ->
  scrape_match fields url matchday st = (r, st') ->
  same_windows (world st) (world s0) /\
  match rm with
  | Raise e => matchday = None /\ r = Raise e /\ st' = s0
  | Ret md =>
      forall rb sb, scrape_body fields url md s0 = (rb, sb) ->
        (exists rc, close_tab sb = (rc, st')) /\
        match rb with
        | Ret data => r = Ret data \/ r = Raise KeyboardInterrupt
        | Raise KeyboardInterrupt => r = Raise KeyboardInterrupt
        | Raise _ => r = Ret ∅ \/ r = Raise KeyboardInterrupt
        end /\
        (forall w1 d1,
           exec SessionId (world sb) = (Ret false, w1, d1) ->
           after sb [Ev SessionId None] st' /\
           same_windows (world sb) (world st')) /\
        (forall w1 d1 w2 d2,
           exec SessionId (world sb) = (Ret true, w1, d1) ->
           exec WindowHandles w1 = (Ret [], w2, d2) ->
           after sb [Ev WindowHandles None; Ev SessionId None] st' /\
           same_windows (world sb) (world st')) /\
        forall tab,
          tab_opens tab (world s0) ->
          cleanup_goes_through (original_tab st) (world sb) ->
          (exists o, after sb (cleanup_calls (original_tab st) o) st') /\
          focused (world st') = original_tab st /\
          ~ In tab (open_windows (world st')) /\
          (~ In tab (open_windows (world st)) ->
           open_windows (world st') = open_windows (world st))
  end.
Proof.
  intros _ Hf Hm E.
  assert (H0 : same_windows (world st) (world s0) /\
               original_tab s0 = original_tab st).
  { destruct matchday.
    - injection Hm as <- <-. split; [apply same_windows_refl|reflexivity].
    - split; [eapply (keeps_extract_round laws), Hm|].
      destruct (extract_round_spec _ _ _ Hm) as (evs & Ha & _). apply Ha. }
  destruct H0 as [Hw0 Ht0]. split; [exact Hw0|].
  unfold scrape_match in E. unfold bind at 1 in E. rewrite Hm in E.
  destruct rm as [md|e].
  2:{ injection E as <- <-. destruct matchday; [discriminate Hm|auto]. }
  intros rb sb Hb.
  destruct (emits_scrape_body _ _ _ _ _ _ Hb) as (evs & Hevs & _).
  assert (Htab : original_tab sb = original_tab st).
  { rewrite <- Ht0. apply Hevs. }
  unfold try_finally in E.
  destruct (try_except (scrape_body fields url md) scrape_handlers s0)
    as [rh sh] eqn:Eh.
  assert (Hh : sh = sb /\
               match rb with
               | Ret data => rh = Ret data
               | Raise KeyboardInterrupt => rh = Raise KeyboardInterrupt
               | Raise _ => rh = Ret ∅
               end).
  { unfold try_except in Eh. rewrite Hb in Eh.
    destruct rb as [data|[]]; simpl in Eh; now injection Eh as <- <-. }
  destruct Hh as [-> Hrh].
  destruct (close_tab sb) as [rc stc] eqn:Hc.
  assert (Hrc : (rc = Ret tt /\ r = rh \/
                 rc = Raise KeyboardInterrupt /\ r = Raise KeyboardInterrupt) /\
                stc = st').
  { destruct rc as [[]|x]; injection E as <- <-; [auto|].
    apply close_tab_raises_only_interrupt in Hc as ->. auto. }
  destruct Hrc as [Hrc ->].
  assert (Hr : match rb with
               | Ret data => r = Ret data \/ r = Raise KeyboardInterrupt
               | Raise KeyboardInterrupt => r = Raise KeyboardInterrupt
               | Raise _ => r = Ret ∅ \/ r = Raise KeyboardInterrupt
               end).
  { destruct Hrc as [[_ ->]|[_ ->]]; destruct rb as [data|[]]; auto. }
  split; [eauto|]. split; [exact Hr|].
  destruct (close_tab_guard_fails _ _ _ Hc) as [Hg1 Hg2].
  split.
  { intros w1 d1 G1. destruct (Hg1 _ _ G1) as (_ & -> & Ha).
    split; [exact Ha|]. exact (other_calls laws SessionId _ _ _ _ eq_refl G1). }
  split.
  { intros w1 d1 w2 d2 G1 G2. destruct (Hg2 _ _ _ _ G1 G2) as (_ & -> & Ha).
    split; [exact Ha|].
    eapply same_windows_trans.
    - exact (other_calls laws SessionId _ _ _ _ eq_refl G1).
    - exact (other_calls laws WindowHandles _ _ _ _ eq_refl G2). }
  intros tab Hopen Hok.
  rewrite <- Htab in Hok |- *.
  destruct (close_tab_succeeds sb Hok) as (o & st2 & Ha & Hc2).
  rewrite Hc in Hc2. injection Hc2 as _ <-.
  split; [eauto|].
  destruct (close_tab_windows _ _ _ Hok Hc) as (h & Hh & Ho & Hfo).
  destruct (scrape_body_opens_tab _ _ _ _ _ _ Hf Hopen Hb) as (Hob & Hfb).
  rewrite Hfb in Hh. injection Hh as <-.
  split; [exact Hfo|]. rewrite Ho. split; [apply not_in_without|].
  intros Hfresh. rewrite Hob. destruct Hw0 as [-> _].
  apply without_fresh. exact Hfresh.
Qed.

End Cleanup.

Section PageLoad.
Context {World : Type} {drv : Driver World}.
Local Abbreviation D := (D World).
Local Abbreviation session := (session World).
Local Abbreviation emits P m := (@emits World P _ m).

Variable fields : extractors World.

Lemma prim_not_interrupted c (st : session) e st' :
  uninterrupted -> prim c st = (Raise e, st') -> e <> KeyboardInterrupt.
Proof.
  intros [Hu _] (w & d & E & _)%prim_inv. specialize (Hu c (world st)).
  rewrite E in Hu. simpl in Hu. congruence.
Qed.

Lemma scrape_body_fails url md (st : session) rb stb :
  uninterrupted -> page_load_fails url ->
  scrape_body fields url md st = (rb, stb) ->
  exists e, rb = Raise e /\ e <> KeyboardInterrupt.
Proof.
  intros Hu Hget E. unfold scrape_body, last_handle in E.
  repeat (progress inv_run || match goal with
    | Hm : (match rev ?hs with _ => _ end) _ = _ |- _ => destruct (rev hs)
    | Hg : prim (DriverGet url) ?s = (Ret _, _) |- _ =>
        apply prim_inv in Hg as (? & ? & Hg & _);
        destruct (Hget (world s)) as (? & ? & ? & Hf & _); rewrite Hf in Hg;
        discriminate Hg
    end).
  all: eexists; (split; [reflexivity|]); try discriminate.
  all: match goal with
       | Hp : prim ?c ?s = (Raise ?e, ?s') |- _ =>
           exact (prim_not_interrupted c s e s' Hu Hp)
       end.
Qed.

Lemma close_tab_returns (st : session) r st' :
  uninterrupted -> close_tab st = (r, st') -> r = Ret tt.
Proof.
  intros Hu E. unfold close_tab in E.
  apply try_except_inv in E as [(a & E & ->)|[(e & st1 & k & E & Hk & Ek)|(e & E & Hk & ->)]].
  - now destruct a.
  - apply except_Exception_inv in Hk as [-> _]. now inv_run.
  - apply except_Exception_none in Hk as ->. exfalso.
    repeat (progress inv_run || match goal with
      | Hm : (if ?b then _ else _) _ = _ |- _ => destruct b
      | Hm : (match ?l with [] => _ | _ :: _ => _ end) _ = _ |- _ => destruct l
      | Hm : get_original_tab _ = _ |- _ => unfold get_original_tab in Hm
      | Hn : _ :: _ = [] |- _ => discriminate Hn
      | Hp : prim ?c ?s = (Raise KeyboardInterrupt, ?s') |- _ =>
          exact (prim_not_interrupted c s _ s' Hu Hp eq_refl)
      end).
Qed.

Lemma scrape_match_page_load_fails url md (st : session) :
  uninterrupted -> page_load_fails url ->
  exists st', scrape_match fields url (Some md) st = (Ret ∅, st').
Proof.
  intros Hu Hget. unfold scrape_match, bind, ret, try_finally, try_except.
  destruct (scrape_body fields url (Some md) st) as [rb stb] eqn:Hb.
  destruct (scrape_body_fails _ _ _ _ _ Hu Hget Hb) as (e & -> & He).
  assert (Hh : scrape_handlers (World:=World) e = Some (ret ∅)).
  { unfold scrape_handlers, except_Exception. destruct e; simpl; congruence. }
  rewrite Hh. unfold ret.
  destruct (close_tab stb) as [rc stc] eqn:Hc.
  rewrite (close_tab_returns _ _ _ Hu Hc). eauto.
Qed.

End PageLoad.

Section RunnerFacts.
Context {World : Type} {drv : Driver World}.
Variable fields : extractors World.
Variable retry : forall A : Type, nat -> Z -> D World A -> D World A.
Local Abbreviation state := (state World).
Local Abbreviation R := (R World).
Local Abbreviation appended := (@appended World).

Lemma ids_of_app a b : ids_of (a ++ b) = (ids_of a ++ ids_of b)%list.
Proof. apply omap_app. Qed.

Lemma stamped_id ids d : stamped ids d -> exists mid, id_of d = Some mid /\ mid ∉ ids.
Proof. intros (mid & url & Hm & _ & Hn). exists mid. unfold id_of. now rewrite Hm. Qed.

Lemma fresh_not_in ids new mid :
  fresh ids new -> mid ∈ ids_of new -> mid ∉ ids.
Proof.
  intros [_ Hs]. unfold ids_of. rewrite list_elem_of_omap.
  intros (d & Hd & Hid). rewrite Forall_forall in Hs.
  destruct (stamped_id _ _ (Hs d Hd)) as (mid' & Hid' & Hn). congruence.
Qed.

Lemma appended_refl ids σ : appended ids σ (Ret ids) σ.
Proof.
  exists []. rewrite app_nil_r. split; [reflexivity|]. split.
  - split; constructor.
  - simpl. set_solver.
Qed.

Lemma appended_trans ids σ ids1 σ1 r σ2 :
  appended ids σ (Ret ids1) σ1 -> appended ids1 σ1 r σ2 -> appended ids σ r σ2.
Proof.
  intros (n1 & E1 & F1 & ->) (n2 & E2 & F2 & Hr).
  exists (n1 ++ n2)%list. split; [rewrite E2, E1, app_assoc; reflexivity|]. split.
  - split.
    + rewrite ids_of_app. apply NoDup_app. split; [apply F1|]. split; [|apply F2].
      intros x Hx1 Hx2. apply (fresh_not_in _ _ _ F2) in Hx2. set_solver.
    + apply Forall_app. split; [apply F1|].
      destruct F2 as [_ F2]. eapply Forall_impl; [exact F2|].
      intros d (mid & url & ? & ? & Hn). exists mid, url. set_solver.
  - destruct r; [|exact I]. rewrite Hr, ids_of_app, list_to_set_app_L. set_solver.
Qed.

Lemma appended_raise ids σ ids1 σ1 e σ2 :
  appended ids σ (Ret ids1) σ1 ->
  all_match_data σ2 = all_match_data σ1 ->
  appended ids σ (Raise e) σ2.
Proof.
  intros (n1 & E1 & F1 & _) E2. exists n1. rewrite E2. auto.
Qed.

Lemma lift_store {A} (m : D World A) σ r σ' :
  lift m σ = (r, σ') -> all_match_data σ' = all_match_data σ.
Proof. unfold lift. destruct (m (scraper σ)). now intros [= <- <-]. Qed.

Lemma rbind_inv {A B} (m : R A) (f : A -> R B) σ r σ' :
  rbind m f σ = (r, σ') ->
  (exists a σ1, m σ = (Ret a, σ1) /\ f a σ1 = (r, σ')) \/
  (exists e, m σ = (Raise e, σ') /\ r = Raise e).
Proof.
  unfold rbind. destruct (m σ) as [[a|e] σ1]; intros E.
  - left. eauto.
  - right. injection E as <- <-. eauto.
Qed.

Lemma try_scrape_store l md σ r σ' :
  try_scrape fields l md σ = (r, σ') -> all_match_data σ' = all_match_data σ.
Proof.
  unfold try_scrape.
  destruct (lift (scrape_match fields (url l) (Some md)) σ) as [[d|e] σ1] eqn:E.
  - intros [= <- <-]. eapply lift_store, E.
  - destruct e; intros [= <- <-]; eapply lift_store, E.
Qed.

(** The pause between two matches does not touch the store. *)
Lemma pause_store (ids : gset string) σ r σ' :
  rbind (lift (prim (RandomUniform 1000 3000))) (fun pause =>
  rbind (lift (sleep pause)) (fun _ => rret ids)) σ = (r, σ') ->
  all_match_data σ' = all_match_data σ /\
  match r with Ret ids' => ids' = ids | Raise _ => True end.
Proof.
  intros E.
  apply rbind_inv in E as [(p & σ1 & E1 & E)|(e & E1 & ->)].
  2:{ split; [eapply lift_store, E1|exact I]. }
  apply rbind_inv in E as [(u & σ2 & E2 & E)|(e & E2 & ->)].
  2:{ split; [|exact I]. rewrite (lift_store _ _ _ _ E2). eapply lift_store, E1. }
  injection E as <- <-. split; [|reflexivity].
  rewrite (lift_store _ _ _ _ E2). eapply lift_store, E1.
Qed.

Lemma visit_appended md l ids σ r σ' :
  visit fields md l ids σ = (r, σ') -> appended ids σ r σ'.
Proof.
  unfold visit. case_bool_decide as Hin.
  { intros [= <- <-]. apply appended_refl. }
  intros E.
  apply rbind_inv in E as [(data & σ1 & E1 & E)|(e & E1 & ->)].
  2:{ eapply appended_raise; [apply appended_refl|]. eapply try_scrape_store, E1. }
  apply try_scrape_store in E1.
  apply rbind_inv in E as [(ids1 & σ2 & E2 & E)|(e & E2 & ->)].
  - apply pause_store in E as [Es Er].
    assert (Hstep : appended ids σ (Ret ids1) σ2).
    { destruct data as [d|]; [destruct (dict_truthy d)|].
      2,3: injection E2 as <- <-; destruct (appended_refl ids σ1) as (n & En & Fn & Hn);
           exists n; rewrite En, E1; auto.
      unfold rbind, append, get_all_match_data in E2. simpl in E2.
      destruct (lift _ _) as [[u|e] σ3] eqn:E3 in E2; [|discriminate E2].
      injection E2 as <- <-. apply lift_store in E3. simpl in E3.
      eexists [_]. rewrite E3, E1. split; [reflexivity|]. split.
      - split; [|constructor; [|constructor]].
        + unfold ids_of, id_of. simpl.
          rewrite lookup_insert_ne by discriminate. rewrite lookup_insert_eq.
          apply NoDup_singleton.
        + eexists _, _. rewrite lookup_insert_ne by discriminate.
          rewrite !lookup_insert_eq. auto.
      - unfold ids_of, id_of. simpl.
        rewrite lookup_insert_ne by discriminate. rewrite lookup_insert_eq.
        simpl. set_solver. }
    destruct r as [ids'|e].
    + subst ids'. destruct Hstep as (n & En & Fn & Hn). exists n. rewrite Es. auto.
    + eapply appended_raise; eassumption.
  - (* the record was appended, or not, and the branch raised *)
    destruct data as [d|]; [destruct (dict_truthy d)|]; try discriminate E2.
    unfold rbind, append, get_all_match_data in E2. simpl in E2.
    destruct (lift _ _) as [[u|e'] σ3] eqn:E3 in E2; [discriminate E2|].
    injection E2 as <- <-. apply lift_store in E3. simpl in E3.
    eexists [_]. rewrite E3, E1. split; [reflexivity|]. split; [|exact I].
    split; [|constructor; [|constructor]].
    + unfold ids_of, id_of. simpl.
      rewrite lookup_insert_ne by discriminate. rewrite lookup_insert_eq.
      apply NoDup_singleton.
    + eexists _, _. rewrite lookup_insert_ne by discriminate.
      rewrite !lookup_insert_eq. auto.
Qed.

Lemma for_links_appended md links ids σ r σ' :
  for_links fields md links ids σ = (r, σ') -> appended ids σ r σ'.
Proof.
  revert ids σ. induction links as [|l rest IH]; intros ids σ E; simpl in E.
  - injection E as <- <-. apply appended_refl.
  - apply rbind_inv in E as [(ids1 & σ1 & E1 & E)|(e & E1 & ->)].
    + eapply appended_trans; [eapply visit_appended, E1|eapply IH, E].
    + eapply visit_appended, E1.
Qed.

Lemma matchday_appended md ids σ r σ' :
  matchday fields md ids σ = (r, σ') -> appended ids σ r σ'.
Proof.
  unfold matchday. intros E.
  apply rbind_inv in E as [(ok & σ1 & E1 & E)|(e & E1 & ->)].
  2:{ eapply appended_raise; [apply appended_refl|]. eapply lift_store, E1. }
  apply lift_store in E1.
  assert (Hσ1 : appended ids σ (Ret ids) σ1).
  { destruct (appended_refl ids σ1) as (n & En & Fn & Hn). exists n. rewrite En, E1. auto. }
  destruct ok.
  - apply rbind_inv in E as [(links & σ2 & E2 & E)|(e & E2 & ->)].
    + apply lift_store in E2. apply for_links_appended in E.
      eapply appended_trans; [exact Hσ1|].
      destruct E as (n & En & Fn & Hn). exists n. rewrite En, E2. auto.
    + eapply appended_raise; [exact Hσ1|]. eapply lift_store, E2.
  - injection E as <- <-. exact Hσ1.
Qed.

Lemma for_matchdays_appended mds ids σ r σ' :
  for_matchdays fields mds ids σ = (r, σ') -> appended ids σ r σ'.
Proof.
  revert ids σ. induction mds as [|md rest IH]; intros ids σ E; simpl in E.
  - injection E as <- <-. apply appended_refl.
  - apply rbind_inv in E as [(ids1 & σ1 & E1 & E)|(e & E1 & ->)].
    + eapply appended_trans; [eapply matchday_appended, E1|eapply IH, E].
    + eapply matchday_appended, E1.
Qed.

(** The identifiers [match_ids] collects are those of [ids_of]. *)
Lemma match_ids_spec data ids :
  match_ids data = Ret ids -> forall s, s ∈ ids <-> s ∈ ids_of data.
Proof.
  revert ids. induction data as [|m rest IH]; intros ids E; simpl in E.
  - injection E as <-. intros s. unfold ids_of. simpl. set_solver.
  - unfold ids_of, id_of in *. simpl.
    destruct (m !! "match_id") as [v|]; [|discriminate E].
    destruct v; try discriminate E.
    all: destruct (match_ids rest) as [ids1|e]; [|discriminate E].
    all: injection E as <-; intros s0; specialize (IH _ eq_refl s0); simpl.
    all: set_solver.
Qed.

Lemma extended_refl loaded : extended loaded loaded.
Proof.
  exists []. rewrite app_nil_r. split; [reflexivity|].
  split; [split; constructor|congruence].
Qed.

Lemma crawl_extends start_matchday end_matchday season headless σ r σ' :
  crawl fields retry start_matchday end_matchday season headless σ = (r, σ') ->
  extended (all_match_data σ) (all_match_data σ').
Proof.
  unfold crawl. intros E.
  apply rbind_inv in E as [(u1 & σ1 & E1%lift_store & E)|(e & E1%lift_store & _)];
    [rewrite <- E1|rewrite E1; apply extended_refl].
  apply rbind_inv in E as [(u2 & σ2 & E2%lift_store & E)|(e & E2%lift_store & _)];
    [rewrite <- E2|rewrite E2; apply extended_refl].
  apply rbind_inv in E as [(u3 & σ3 & E3%lift_store & E)|(e & E3%lift_store & _)];
    [rewrite <- E3|rewrite E3; apply extended_refl].
  apply rbind_inv in E as [(sel & σ4 & E4%lift_store & E)|(e & E4%lift_store & _)];
    [rewrite <- E4|rewrite E4; apply extended_refl].
  destruct (negb sel); [injection E as _ <-; apply extended_refl|].
  unfold rbind at 1, get_all_match_data at 1 in E.
  unfold rbind at 1 in E.
  destruct (match_ids (all_match_data σ4)) as [ids|e] eqn:Hids.
  2:{ injection E as _ <-. apply extended_refl. }
  apply rbind_inv in E as [(ids' & σ5 & E5 & E)|(e & E5 & _)].
  1: injection E as _ <-.
  all: apply for_matchdays_appended in E5 as (new & En & [Hnd Hst] & _).
  all: exists new; split; [exact En|]; split; [|eauto].
  all: split; [exact Hnd|]; eapply Forall_impl; [exact Hst|].
  all: intros d (mid & url & ? & ? & Hn); exists mid, url; repeat split; auto.
  all: rewrite elem_of_list_to_set, <- (match_ids_spec _ _ Hids); exact Hn.
Qed.

Lemma main_extends start_matchday end_matchday season headless w t0 loaded r σ' :
  main fields retry start_matchday end_matchday season headless w t0 loaded = (r, σ') ->
  extended loaded (all_match_data σ').
Proof.
  unfold main, main_from.
  destruct (crawl _ _ _ _ _ _ _) as [rc σ1] eqn:Ec.
  intros E%lift_store. rewrite E. apply crawl_extends in Ec. exact Ec.
Qed.

End RunnerFacts.

Section RunnerTheorems.
Context {World : Type} {drv : Driver World}.
Variable fields : extractors World.
Variable retry : forall A : Type, nat -> Z -> D World A -> D World A.
Local Abbreviation state := (state World).
Local Abbreviation appended := (@appended World).

Lemma for_links_skips md links (ids : gset string) (σ : state) :
  Forall (fun l => match_id l ∈ ids) links ->
  for_links fields md links ids σ = (Ret ids, σ).
Proof.
  induction 1 as [|l rest Hl _ IH]; simpl; [reflexivity|].
  unfold rbind, visit. rewrite bool_decide_eq_true_2 by exact Hl.
  unfold rret. exact IH.
Qed.

Lemma matchday_skips known md (ids : gset string) (σ : state) r σ' :
  all_links_known known -> (forall s, s ∈ known -> s ∈ ids) ->
  matchday fields md ids σ = (r, σ') ->
  all_match_data σ' = all_match_data σ /\
  match r with Ret ids' => ids' = ids | Raise _ => True end.
Proof.
  intros Hk Hsub. unfold matchday. intros E.
  apply rbind_inv in E as [(ok & σ1 & E1 & E)|(e & E1%lift_store & ->)]; [|auto].
  apply lift_store in E1. rewrite <- E1. destruct ok.
  2:{ injection E as <- <-. auto. }
  apply rbind_inv in E as [(links & σ2 & E2 & E)|(e & E2%lift_store & ->)]; [|auto].
  assert (Hl : Forall (fun l => match_id l ∈ ids) links).
  { unfold lift in E2.
    destruct (get_match_links (scraper σ1)) as [rl sl] eqn:El.
    injection E2 as -> <-. eapply Forall_impl; [exact (Hk _ _ _ El)|]. auto. }
  apply lift_store in E2. rewrite <- E2.
  rewrite (for_links_skips _ _ _ _ Hl) in E. injection E as <- <-. auto.
Qed.

Lemma for_matchdays_skips known mds (ids : gset string) (σ : state) r σ' :
  all_links_known known -> (forall s, s ∈ known -> s ∈ ids) ->
  for_matchdays fields mds ids σ = (r, σ') ->
  all_match_data σ' = all_match_data σ.
Proof.
  intros Hk Hsub. revert σ. induction mds as [|md rest IH]; intros σ E; simpl in E.
  - now injection E as <- <-.
  - apply rbind_inv in E as [(ids1 & σ1 & E1 & E)|(e & E1 & ->)];
      apply (matchday_skips known) in E1 as [E1 Hr]; auto.
    subst ids1. rewrite <- E1. apply IH, E.
Qed.

Lemma crawl_skips start_matchday end_matchday season headless (σ : state) r σ' :
  all_links_known (ids_of (all_match_data σ)) ->
  crawl fields retry start_matchday end_matchday season headless σ = (r, σ') ->
  all_match_data σ' = all_match_data σ.
Proof.
  intros Hk. unfold crawl. intros E.
  apply rbind_inv in E as [(u1 & σ1 & E1%lift_store & E)|(e & E1%lift_store & _)];
    [rewrite <- E1 in *|exact E1].
  apply rbind_inv in E as [(u2 & σ2 & E2%lift_store & E)|(e & E2%lift_store & _)];
    [rewrite <- E2 in *|exact E2].
  apply rbind_inv in E as [(u3 & σ3 & E3%lift_store & E)|(e & E3%lift_store & _)];
    [rewrite <- E3 in *|exact E3].
  apply rbind_inv in E as [(sel & σ4 & E4%lift_store & E)|(e & E4%lift_store & _)];
    [rewrite <- E4 in *|exact E4].
  destruct (negb sel); [now injection E as _ <-|].
  unfold rbind at 1, get_all_match_data at 1 in E.
  unfold rbind at 1 in E.
  destruct (match_ids (all_match_data σ4)) as [ids|e] eqn:Hids.
  2:{ now injection E as _ <-. }
  apply rbind_inv in E as [(ids' & σ5 & E5 & E)|(e & E5 & _)].
  1: injection E as _ <-.
  all: eapply for_matchdays_skips; [exact Hk| |exact E5].
  all: intros s Hs; now apply (match_ids_spec _ _ Hids).
Qed.

(** C1, amended: a run of [main] only appends to the loaded store, and
    every record it appends carries an identifier that is neither in the
    loaded store nor carried by another appended record: a store without
    duplicate identifiers stays so.  When every link the site shows has
    its identifier in the loaded store, the run appends nothing and the
    size of the store is unchanged. *)
Theorem crawl_never_stores_an_id_twice
    start_matchday end_matchday season headless w t0 loaded r σ' :
  main fields retry start_matchday end_matchday season headless w t0 loaded = (r, σ') ->
  exists new,
    all_match_data σ' = (loaded ++ new)%list /\
    (forall mid, mid ∈ ids_of new -> mid ∉ ids_of loaded) /\
    List.length (ids_of new) = List.length new /\
    (NoDup (ids_of loaded) -> NoDup (ids_of (all_match_data σ'))) /\
    (all_links_known (ids_of loaded) ->
     new = [] /\ List.length (all_match_data σ') = List.length loaded).
Proof.
  intros E. destruct (main_extends _ _ _ _ _ _ _ _ _ _ _ E) as (new & En & [Hnd Hst] & _).
  exists new. split; [exact En|].
  assert (Hfresh : forall mid, mid ∈ ids_of new -> mid ∉ ids_of loaded).
  { intros mid Hin Hl. apply (fresh_not_in _ _ _ (conj Hnd Hst)) in Hin.
    apply Hin. now apply elem_of_list_to_set. }
  split; [exact Hfresh|]. split; [|split].
  - clear -Hst. induction Hst as [|d new Hd _ IH]; [reflexivity|].
    destruct (stamped_id _ _ Hd) as (mid & Hid & _).
    unfold ids_of in *. simpl. rewrite Hid. simpl. now f_equal.
  - intros Hl. rewrite En, ids_of_app. apply NoDup_app.
    split; [exact Hl|]. split; [|exact Hnd].
    intros x Hx Hx'. exact (Hfresh x Hx' Hx).
  - intros Hk. unfold main, main_from in E.
    destruct (crawl _ _ _ _ _ _ _) as [rc σ1] eqn:Ec.
    apply lift_store in E. apply crawl_skips in Ec; [|exact Hk]. simpl in Ec.
    rewrite E, Ec in En.
    assert (new = []) as ->.
    { apply (app_inv_head loaded). now rewrite app_nil_r. }
    split; [reflexivity|]. now rewrite E, Ec.
Qed.

Lemma match_ids_no_KeyError data :
  Forall (fun d : record => is_Some (d !! "match_id")) data ->
  match_ids data <> Raise KeyError.
Proof.
  induction 1 as [|m rest [v Hv] _ IH]; simpl; [discriminate|].
  rewrite Hv. destruct v; try discriminate.
  all: destruct (match_ids rest) as [ids|e]; [discriminate|congruence].
Qed.

(** C10: every record a run of [main] appends carries the keys
    [match_id] and [source_url]; so when every loaded record has the key
    [match_id], every record of the store after the run has it, and
    building the set of scraped identifiers from that store does not
    raise [KeyError]. *)
Theorem stored_records_carry_their_keys
    start_matchday end_matchday season headless w t0 loaded r σ' :
  main fields retry start_matchday end_matchday season headless w t0 loaded = (r, σ') ->
  Forall (fun d : record => is_Some (d !! "match_id")) loaded ->
  (exists new,
     all_match_data σ' = (loaded ++ new)%list /\
     Forall (fun d : record =>
               exists mid url,
                 d !! "match_id" = Some (VStr mid) /\
                 d !! "source_url" = Some (VStr url)) new) /\
  Forall (fun d : record => is_Some (d !! "match_id")) (all_match_data σ') /\
  match_ids (all_match_data σ') <> Raise KeyError.
Proof.
  intros E Hl. destruct (main_extends _ _ _ _ _ _ _ _ _ _ _ E) as (new & En & [_ Hst] & _).
  assert (Hkeys : Forall (fun d : record =>
               exists mid url,
                 d !! "match_id" = Some (VStr mid) /\
                 d !! "source_url" = Some (VStr url)) new).
  { eapply Forall_impl; [exact Hst|]. intros d (mid & url & ? & ? & _). eauto. }
  assert (Hall : Forall (fun d : record => is_Some (d !! "match_id")) (all_match_data σ')).
  { rewrite En. apply Forall_app. split; [exact Hl|].
    eapply Forall_impl; [exact Hkeys|]. intros d (mid & url & -> & _). eauto. }
  split; [eauto|]. split; [exact Hall|]. now apply match_ids_no_KeyError.
Qed.

(** C2: when the page of a match that is not yet scraped fails to load
    with a [WebDriverException] (and the user does not interrupt),
    [scrape_match] returns the empty record, the runner appends nothing
    to the store, leaves the set of scraped identifiers as it was, and
    goes on with the next link. *)
Theorem failed_page_load_is_left_for_a_later_run md l rest (ids : gset string) (σ : state) :
  match_id l ∉ ids ->
  uninterrupted ->
  page_load_fails (url l) ->
  exists st' σ',
    scrape_match fields (url l) (Some md) (scraper σ) = (Ret ∅, st') /\
    visit fields md l ids σ = (Ret ids, σ') /\
    all_match_data σ' = all_match_data σ /\
    for_links fields md (l :: rest) ids σ = for_links fields md rest ids σ'.
Proof.
  intros Hnew Hu Hget.
  destruct (scrape_match_page_load_fails fields (url l) md (scraper σ) Hu Hget)
    as (st' & Hs).
  destruct Hu as (_ & Hsleep & Hrand).
  assert (Hv : exists σ', visit fields md l ids σ = (Ret ids, σ') /\
                          all_match_data σ' = all_match_data σ).
  { unfold visit. rewrite bool_decide_eq_false_2 by exact Hnew.
    unfold rbind at 1, try_scrape, lift at 1. rewrite Hs.
    unfold rbind at 1. cbn match.
    assert (Hempty : dict_truthy (∅ : record) = false).
    { unfold dict_truthy. now rewrite bool_decide_eq_true_2. }
    rewrite Hempty. unfold rret at 1.
    unfold rbind at 1, lift at 1, prim. simpl scraper. simpl world.
    destruct (Hrand 1000 3000 (world st')) as (x & w1 & d1 & ->).
    unfold rbind, lift, sleep, prim, rret. simpl scraper. simpl world.
    destruct (Hsleep x w1) as (w2 & d2 & ->).
    eexists. split; reflexivity. }
  destruct Hv as (σ' & Hv & Hstore).
  exists st', σ'. repeat split; auto.
  simpl. unfold rbind at 1. now rewrite Hv.
Qed.

End RunnerTheorems.

Section Stats.
Context {World : Type} {drv : Driver World}.
Local Abbreviation D := (D World).
Local Abbreviation session := (session World).
Local Abbreviation emits P m := (@emits World P _ m).

Lemma prim_lookup_times_out c (st : session) e st' :
  lookups_only_time_out -> is_lookup (Ev c None) = true ->
  prim c st = (Raise e, st') -> e = TimeoutException.
Proof.
  intros Hl Hc (w & d & E & _)%prim_inv. apply (Hl c (world st)); [exact Hc|].
  now rewrite E.
Qed.

Lemma prim_sleep_returns ms (st : session) r st' :
  uninterrupted -> prim (Sleep ms) st = (r, st') -> r = Ret tt.
Proof.
  intros (_ & Hs & _) (w & d & E & _)%prim_inv.
  destruct (Hs ms (world st)) as (w' & d' & E'). rewrite E' in E. congruence.
Qed.

Lemma safe_find_returns by_ sel (st : session) r st' :
  lookups_only_time_out -> safe_find by_ sel st = (r, st') -> exists elt, r = Ret elt.
Proof.
  intros Hl E. unfold safe_find in E. inv_run; eauto.
  - match goal with Hx : except_Timeout _ ?x = Some _ |- _ =>
      unfold except_Timeout in Hx; destruct x; inv_run end. eauto.
  - match goal with Hp : prim ?c ?s = (Raise ?x, ?s') |- _ =>
      apply (prim_lookup_times_out c s x s' Hl eq_refl) in Hp as -> end.
    discriminate.
Qed.

Lemma safe_find_all_few n (st : session) r st' :
  lookups_only_time_out -> rows_below n ->
  safe_find_all CSS_SELECTOR STAT_ROWS st = (r, st') ->
  exists rows, r = Ret rows /\ ((List.length rows < n)%nat \/ rows = []).
Proof.
  intros Hl Hn E. unfold safe_find_all in E. inv_run.
  - match goal with Hp : prim (FindElements ?a ?b ?c) ?s = (Ret ?x, ?s') |- _ =>
      apply (prim_inv (FindElements a b c) s (Ret x) s') in Hp as (? & ? & Hp & _);
      apply Hn in Hp end.
    eexists. split; [reflexivity|]. left. lia.
  - match goal with Hx : except_Timeout _ ?x = Some _ |- _ =>
      unfold except_Timeout in Hx; destruct x; inv_run end.
    exists []; split; [reflexivity|now right].
  - match goal with Hx : except_Timeout _ ?x = Some _ |- _ =>
      unfold except_Timeout in Hx; destruct x; inv_run end.
    exists []; split; [reflexivity|now right].
  - match goal with Hx : except_Timeout _ ?x = None |- _ =>
      unfold except_Timeout in Hx end.
    match goal with Hp : prim ?c ?s = (Raise ?x, ?s') |- _ =>
      apply (prim_lookup_times_out c s x s' Hl eq_refl) in Hp as -> end.
    discriminate.
  - match goal with Hx : except_Timeout _ ?x = None |- _ =>
      unfold except_Timeout in Hx end.
    match goal with Hp : prim ?c ?s = (Raise ?x, ?s') |- _ =>
      apply (prim_lookup_times_out c s x s' Hl eq_refl) in Hp as -> end.
    discriminate.
Qed.

(** With fewer than [min_rows] rows on the page the poll gives up. *)
Lemma wait_loop_gives_up budget min_rows end_time poll_freq (st : session) r st' :
  uninterrupted -> lookups_only_time_out -> rows_below min_rows ->
  wait_loop budget min_rows end_time poll_freq st = (r, st') -> r = Ret false.
Proof.
  intros Hu Hl Hn. revert st.
  induction budget as [|b IH]; intros st E; simpl in E.
  - unfold bind, time_time in E. destruct (now st <? end_time); now inv_run.
  - unfold bind at 1, time_time in E. destruct (now st <? end_time); [|now inv_run].
    apply bind_inv in E as [(rows & st1 & E1 & E)|(e & E1 & ->)];
      destruct (safe_find_all_few _ _ _ _ Hl Hn E1) as (rows' & Hr & Hlen);
      [|discriminate Hr].
    injection Hr as ->.
    assert (Hcond : (min_rows <=? List.length rows')%nat
                    && negb (List.length rows' =? 0)%nat = false).
    { destruct Hlen as [Hlen | ->]; [|apply andb_false_r].
      rewrite (proj2 (Nat.leb_gt _ _)) by lia. reflexivity. }
    rewrite Hcond in E.
    apply bind_inv in E as [(u & st2 & E2 & E)|(e & E2 & ->)].
    + apply IH in E. exact E.
    + apply (prim_sleep_returns _ _ _ _ Hu) in E2. discriminate E2.
Qed.

Lemma safe_click_returns e (st : session) r st' :
  uninterrupted -> safe_click e st = (r, st') -> exists b, r = Ret b.
Proof.
  intros Hu. unfold safe_click. generalize 3%nat. intros n. revert st r st'.
  induction n as [|n IH]; intros st r st' E; simpl in E; [inv_run; eauto|].
  assert (Hretry : forall st0 r0 st1,
             (sleep 500 ;; safe_click_loop n e)%py st0 = (r0, st1) ->
             exists b, r0 = Ret b).
  { clear E. intros st0 r0 st1 E0. inv_run; [eapply IH, E0|].
    apply (prim_sleep_returns _ _ _ _ Hu) in E0. discriminate E0. }
  inv_run; eauto.
  all: repeat match goal with
    | Hk : (if click_intercepted ?x then _ else _) = Some _ |- _ =>
        destruct (click_intercepted x)
    | Hk : except_Exception _ _ = Some _ |- _ =>
        apply except_Exception_inv in Hk as [-> _]
    | Hk : (if click_intercepted ?x then _ else _) = None |- _ =>
        destruct (click_intercepted x); [discriminate Hk|]
    | Hk : except_Exception _ _ = None |- _ =>
        apply except_Exception_none in Hk as ->
    end; inv_run; eauto.
  all: repeat match goal with
    | Hk : except_Exception _ _ = Some _ |- _ =>
        apply except_Exception_inv in Hk as [-> _]
    | Hk : except_Exception _ _ = None |- _ =>
        apply except_Exception_none in Hk as ->
    | Hp : prim ?c ?s = (Raise KeyboardInterrupt, ?s') |- _ =>
        exfalso; exact (prim_not_interrupted c s _ s' Hu Hp eq_refl)
    end; eauto.
  all: match goal with
       | Hp : prim (Sleep ?ms) ?s = (Raise ?x, ?s') |- _ =>
           apply (prim_sleep_returns ms s _ s' Hu) in Hp; discriminate Hp
       end.
Qed.

Lemma extract_attempts_give_up n tab_id (st : session) :
  uninterrupted -> lookups_only_time_out -> rows_below 10 ->
  exists st', extract_attempts n tab_id st = (Ret [], st').
Proof.
  intros Hu Hl Hn. revert st. induction n as [|n IH]; intros st; simpl; [eexists; reflexivity|].
  unfold bind at 1.
  destruct (safe_find CSS_SELECTOR (tab_selector tab_id) st) as [rf st1] eqn:Ef.
  destruct (safe_find_returns _ _ _ _ _ Hl Ef) as (tab & ->).
  unfold bind at 1.
  destruct (found_and_clicked tab st1) as [rc st2] eqn:Ec.
  assert (exists b, rc = Ret b) as (clicked & ->).
  { destruct tab as [e|]; simpl in Ec; [eapply safe_click_returns; eassumption|].
    inv_run. eauto. }
  unfold bind at 1.
  destruct ((if clicked then wait_for_stat_rows 10 20000 500 else ret false) st2)
    as [rw st3] eqn:Ew.
  assert (rw = Ret false) as ->.
  { destruct clicked; [|now inv_run].
    unfold wait_for_stat_rows, bind, time_time in Ew.
    eapply wait_loop_gives_up; eassumption. }
  unfold bind at 1, sleep.
  destruct (prim (Sleep 2000) st3) as [rs st4] eqn:Es.
  rewrite (prim_sleep_returns _ _ _ _ Hu Es). apply IH.
Qed.

End Stats.

(** ** The poll of [wait_for_stat_rows] and the statistics views *)

Section Budget.
Context {World : Type} {drv : Driver World}.
Local Abbreviation D := (D World).
Local Abbreviation session := (session World).

Lemma safe_find_all_clock by_ sel (st : session) r st' :
  safe_find_all by_ sel st = (r, st') -> now st <= now st'.
Proof.
  intros E. destruct (emits_safe_find_all any (or_introl eq_refl) _ _ _ _ _ E)
    as (evs & Ha & _). apply Ha.
Qed.

Lemma sleep_clock ms (st : session) u st' :
  sleep ms st = (Ret u, st') -> now st + ms <= now st'.
Proof.
  unfold sleep. intros E.
  apply (prim_inv (Sleep ms) st (Ret u) st') in E as (w & extra & _ & ->).
  simpl. pose proof (N2Z.is_nonneg extra). lia.
Qed.

Lemma wait_loop_unfold b min_rows end_time poll_freq (st : session) :
  wait_loop b min_rows end_time poll_freq st =
  if now st <? end_time then
    match b with
    | O => (Ret false, st)
    | S b' =>
        (rows <- safe_find_all CSS_SELECTOR STAT_ROWS ;;
         if (min_rows <=? List.length rows)%nat && negb (Nat.eqb (List.length rows) 0)
         then ret true
         else sleep poll_freq ;; wait_loop b' min_rows end_time poll_freq)%py st
    end
  else (Ret false, st).
Proof.
  destruct b; simpl; unfold bind at 1, time_time;
    destruct (now st <? end_time); reflexivity.
Qed.

(** The budget of [wait_loop] does not matter once it covers the time
    that is left: the loop ends on the clock, not on the budget. *)
Lemma wait_loop_budget b1 b2 min_rows end_time poll_freq (st : session) :
  0 < poll_freq ->
  end_time - now st <= Z.of_nat b1 * poll_freq ->
  end_time - now st <= Z.of_nat b2 * poll_freq ->
  wait_loop b1 min_rows end_time poll_freq st =
  wait_loop b2 min_rows end_time poll_freq st.
Proof.
  intros Hp. revert b2 st.
  induction b1 as [|b1 IH]; intros b2 st H1 H2;
    rewrite (wait_loop_unfold _ _ _ _ st), (wait_loop_unfold b2 _ _ _ st);
    destruct (now st <? end_time) eqn:Ht; try reflexivity;
    apply Z.ltb_lt in Ht; destruct b2 as [|b2]; try lia.
  unfold bind at 1 3.
  destruct (safe_find_all CSS_SELECTOR STAT_ROWS st) as [[rows|e] st1] eqn:E1;
    [|reflexivity].
  apply safe_find_all_clock in E1.
  destruct ((min_rows <=? List.length rows)%nat
            && negb (List.length rows =? 0)%nat); [reflexivity|].
  unfold bind.
  destruct (sleep poll_freq st1) as [[u|e] st2] eqn:E2; [|reflexivity].
  apply sleep_clock in E2. apply IH; nia.
Qed.

(** [polls timeout poll_freq] covers the whole of [timeout]. *)
Lemma polls_cover timeout poll_freq :
  0 < poll_freq -> timeout <= Z.of_nat (polls timeout poll_freq) * poll_freq.
Proof.
  intros Hp. unfold polls. rewrite Nat2Z.inj_succ.
  pose proof (Z.mod_pos_bound timeout poll_freq Hp).
  pose proof (Z.div_mod timeout poll_freq ltac:(lia)).
  destruct (Z.le_gt_cases 0 (timeout / poll_freq)).
  - rewrite Z2Nat.id by assumption. nia.
  - replace (Z.to_nat (timeout / poll_freq)) with 0%nat by lia. nia.
Qed.

(** [wait_for_stat_rows] with any larger budget gives the same result:
    the budget of the model is enough. *)
Lemma wait_for_stat_rows_budget b min_rows timeout poll_freq (st : session) :
  (polls timeout (Z.pos poll_freq) <= b)%nat ->
  wait_for_stat_rows min_rows timeout poll_freq st =
  wait_loop b min_rows (now st + timeout) (Z.pos poll_freq) st.
Proof.
  intros Hb. unfold wait_for_stat_rows, bind at 1, time_time.
  pose proof (Pos2Z.is_pos poll_freq) as Hp.
  pose proof (polls_cover timeout (Z.pos poll_freq) Hp).
  apply wait_loop_budget; [exact Hp| lia | nia].
Qed.

(** What the results of the poll loop tell. *)
Lemma wait_loop_result b min_rows end_time poll_freq (st : session) r st' :
  0 < poll_freq ->
  end_time - now st <= Z.of_nat b * poll_freq ->
  wait_loop b min_rows end_time poll_freq st = (r, st') ->
  (r = Ret true ->
   exists sa rows,
     now st <= now sa < end_time /\
     safe_find_all CSS_SELECTOR STAT_ROWS sa = (Ret rows, st') /\
     (min_rows <= List.length rows)%nat /\ rows <> []) /\
  (r = Ret false -> end_time <= now st').
Proof.
  intros Hp. revert st. induction b as [|b IH]; intros st Hb;
    rewrite wait_loop_unfold; destruct (now st <? end_time) eqn:Ht.
  - apply Z.ltb_lt in Ht. lia.
  - apply Z.ltb_ge in Ht. intros [= <- <-]. split; [discriminate|auto].
  - apply Z.ltb_lt in Ht. intros E.
    apply bind_inv in E as [(rows & s1 & E1 & E)|(e & _ & ->)];
      [|split; discriminate].
    pose proof (safe_find_all_clock _ _ _ _ _ E1) as Hc1.
    destruct ((min_rows <=? List.length rows)%nat
              && negb (List.length rows =? 0)%nat) eqn:Hcond.
    + injection E as <- <-. split; [|discriminate]. intros _.
      apply andb_true_iff in Hcond as [Hm Hz].
      exists st, rows. split; [lia|]. split; [exact E1|].
      split; [now apply Nat.leb_le|].
      destruct rows; [discriminate Hz|discriminate].
    + apply bind_inv in E as [(u & s2 & E2 & E)|(e & _ & ->)];
        [|split; discriminate].
      apply sleep_clock in E2.
      apply IH in E as [Ht' Hf]; [|nia]. split; [|exact Hf].
      intros Hr. destruct (Ht' Hr) as (sa & rows' & Hsa & Hrest).
      exists sa, rows'. split; [lia|exact Hrest].
  - apply Z.ltb_ge in Ht. intros [= <- <-]. split; [discriminate|auto].
Qed.

End Budget.

Section StatsViews.
Context {World : Type} {drv : Driver World}.
Local Abbreviation D := (D World).
Local Abbreviation session := (session World).

Lemma emits_lookups {A} sel (m : D A) (st : session) r st' :
  emits (fun ev => looks_up CSS_SELECTOR sel ev = false) m ->
  m st = (r, st') ->
  exists evs, after st evs st' /\ lookups CSS_SELECTOR sel evs = 0%nat.
Proof.
  intros Hm E. apply Hm in E as (evs & Ha & Hf).
  exists evs. split; [exact Ha|]. now apply lookups_others.
Qed.

(** A poll that returns [True] has seen the minimum of rows. *)
Lemma wait_for_stat_rows_true min_rows timeout poll_freq (st : session) st' :
  wait_for_stat_rows min_rows timeout poll_freq st = (Ret true, st') ->
  exists sp found,
    safe_find_all CSS_SELECTOR STAT_ROWS sp = (Ret found, st') /\
    (min_rows <= List.length found)%nat.
Proof.
  intros E. pose proof (Pos2Z.is_pos poll_freq) as Hp.
  unfold wait_for_stat_rows, bind at 1, time_time in E.
  pose proof (polls_cover timeout (Z.pos poll_freq) Hp) as Hc.
  apply wait_loop_result in E as [Ht _]; [|exact Hp|lia].
  destruct (Ht eq_refl) as (sp & found & _ & Hs & Hlen & _). eauto.
Qed.

(** What a half view is: read right after a click on its tab and a poll
    that has seen ten rows, or empty after a lookup of the tab in each
    attempt. *)
Lemma extract_attempts_spec n tab_id (s : session) r s' :
  extract_attempts n tab_id s = (r, s') ->
  exists evs,
    after s evs s' /\
    (lookups CSS_SELECTOR (tab_selector tab_id) evs <= n)%nat /\
    ((1 <= n)%nat -> (1 <= lookups CSS_SELECTOR (tab_selector tab_id) evs)%nat) /\
    forall rows, r = Ret rows ->
      (exists pre sa e sb sc sp found sd,
         after s pre sa /\
         safe_find CSS_SELECTOR (tab_selector tab_id) sa = (Ret (Some e), sb) /\
         safe_click e sb = (Ret true, sc) /\
         wait_for_stat_rows 10 20000 500 sc = (Ret true, sd) /\
         safe_find_all CSS_SELECTOR STAT_ROWS sp = (Ret found, sd) /\
         (10 <= List.length found)%nat /\
         _extract_stats_view sd = (Ret rows, s')) \/
      (rows = [] /\ lookups CSS_SELECTOR (tab_selector tab_id) evs = n).
Proof.
  revert s. induction n as [|n IH]; intros s E; simpl in E.
  - inv_run. exists []. split; [apply after_refl|]. split; [reflexivity|].
    split; [lia|]. intros rows [= <-]. right. auto.
  - apply bind_inv in E as [(tab & s1 & E1 & E)|(x & E1 & ->)];
      pose proof E1 as F1;
      apply safe_find_spec in F1 as (o1 & A1 & _).
    2:{ eexists. split; [exact A1|]. count_lookups.
        split; [lia|]. split; [lia|]. discriminate. }
    apply bind_inv in E as [(clicked & s2 & E2 & E)|(x & E2 & ->)];
      pose proof E2 as F2;
      apply found_and_clicked_spec in F2 as (evs2 & A2 & L2 & _).
    2:{ eexists. split; [chain|]. count_lookups.
        split; [lia|]. split; [lia|]. discriminate. }
    apply bind_inv in E as [(ready & s3 & E3 & E)|(x & E3 & ->)];
      pose proof E3 as F3;
      (apply (emits_lookups (tab_selector tab_id)) in F3 as (evs3 & A3 & L3);
       [|destruct clicked; [apply others_wait_for_stat_rows|apply emits_ret]]).
    2:{ eexists. split; [chain|]. count_lookups. rewrite L3.
        split; [lia|]. split; [lia|]. discriminate. }
    destruct ready.
    + pose proof E as F4.
      apply (emits_lookups (tab_selector tab_id)) in F4 as (evs4 & A4 & L4);
        [|apply others_extract_stats_view].
      eexists. split; [chain|]. count_lookups. rewrite L3, L4.
      split; [lia|]. split; [lia|]. intros rows ->. left.
      destruct clicked; [|inv_run].
      destruct tab as [e|]; [|simpl in E2; inv_run].
      simpl in E2.
      destruct (wait_for_stat_rows_true _ _ _ _ _ E3) as (sp & found & Hs & Hlen).
      exists [], s, e, s1, s2, sp, found, s3.
      split; [apply after_refl|]. auto 10.
    + apply bind_inv in E as [(u & s4 & E4 & E)|(x & E4 & ->)];
        unfold sleep in E4; prims.
      2:{ eexists. split; [chain|]. count_lookups. rewrite L3.
          split; [lia|]. split; [lia|]. discriminate. }
      apply IH in E as (evs5 & A5 & L5 & _ & H5).
      eexists. split; [chain|]. count_lookups. rewrite L3.
      split; [lia|]. split; [lia|]. intros rows Hr.
      destruct (H5 rows Hr)
        as [(pre & sa & e & sb & sc & sp & found & sd & Hpre & Hrest)|[-> Hn]].
      * left. eexists. exists sa, e, sb, sc, sp, found, sd.
        split; [|exact Hrest].
        eapply after_trans; [|exact Hpre]. chain.
      * right. split; [reflexivity|]. lia.
Qed.

(** With fewer than ten rows on the page a half view is empty after a
    lookup of its tab in each attempt. *)
Lemma extract_attempts_give_up_after n tab_id (st : session) :
  uninterrupted -> lookups_only_time_out -> rows_below 10 ->
  exists evs st',
    extract_attempts n tab_id st = (Ret [], st') /\
    after st evs st' /\
    lookups CSS_SELECTOR (tab_selector tab_id) evs = n.
Proof.
  intros Hu Hl Hn.
  destruct (extract_attempts_give_up n tab_id st Hu Hl Hn) as (st' & E).
  destruct (extract_attempts_spec _ _ _ _ _ E) as (evs & Ha & _ & _ & H).
  exists evs, st'. split; [exact E|]. split; [exact Ha|].
  destruct (H [] eq_refl)
    as [(pre & sa & e & sb & sc & sp & found & sd & _ & _ & _ & _ & Hs & Hlen & _)
       |[_ Hcount]]; [|exact Hcount].
  destruct (safe_find_all_few _ _ _ _ Hl Hn Hs) as (rows & [= <-] & [Hlt | ->]);
    simpl in *; lia.
Qed.


End StatsViews.

(** ** The scripted browser meets the assumptions on the environment *)

Import Sim.

Section SimFacts.
Variable cfg : config.
Local Abbreviation drv := (driver_of cfg).

Lemma sim_exec c w :
  exec (Driver := driver_of cfg) c w =
  match faults cfg c with
  | Some e => (Raise e, w, 0%N)
  | None => answer cfg c w
  end.
Proof. reflexivity. Qed.

Lemma answer_not_interrupted c w :
  fst (fst (answer cfg c w)) <> Raise KeyboardInterrupt.
Proof.
  destruct c; simpl; unfold timed_out;
    repeat match goal with
    | |- context [match ?x with _ => _ end] => destruct x
    end; simpl; congruence.
Qed.

Lemma sim_uninterrupted :
  (forall c, faults cfg c <> Some KeyboardInterrupt) ->
  (forall ms, faults cfg (Sleep ms) = None) ->
  (forall lo hi, faults cfg (RandomUniform lo hi) = None) ->
  uninterrupted (drv := driver_of cfg).
Proof.
  intros Hk Hs Hr. repeat split.
  - intros c w. rewrite sim_exec. specialize (Hk c).
    destruct (faults cfg c) as [e|]; [simpl; congruence|].
    apply answer_not_interrupted.
  - intros ms w. rewrite sim_exec, Hs. simpl. eauto.
  - intros lo hi w. rewrite sim_exec, Hr. simpl. eauto.
Qed.

Lemma sim_lookups_only_time_out :
  (forall c e, is_lookup (Ev c None) = true -> faults cfg c = Some e ->
               e = TimeoutException) ->
  lookups_only_time_out (drv := driver_of cfg).
Proof.
  intros Hf c w e Hc. rewrite sim_exec. specialize (Hf c).
  destruct (faults cfg c) as [e'|].
  - simpl. intros [= <-]. now apply Hf.
  - clear Hf. destruct c; try discriminate Hc; simpl; unfold timed_out;
      repeat match goal with
      | |- context [match ?x with _ => _ end] => destruct x
      end; simpl; congruence.
Qed.

Lemma sim_rows_below n :
  (stat_row_count cfg < n)%nat -> rows_below (drv := driver_of cfg) n.
Proof.
  intros Hn w rows w' d. rewrite sim_exec.
  destruct (faults cfg _); [discriminate|]. simpl.
  intros [= <- _ _]. now rewrite List.length_map, List.length_seq.
Qed.

End SimFacts.

Section SimLinks.
Variable cfg : config.

Lemma sim_lookup_world c (st : session sim) r st' :
  is_lookup (Ev c None) = true ->
  prim (drv := driver_of cfg) c st = (r, st') -> world st' = world st.
Proof.
  intros Hc E. apply (prim_inv c st r st') in E as (w & d & E & ->).
  rewrite sim_exec in E. simpl.
  destruct (faults cfg c); [congruence|].
  destruct c; try discriminate Hc; simpl in E; unfold timed_out in E;
    repeat match type of E with
    | context [match ?x with _ => _ end] => destruct x
    end; congruence.
Qed.

Lemma sim_safe_find_all_world by_ sel (st : session sim) r st' :
  safe_find_all (drv := driver_of cfg) by_ sel st = (r, st') ->
  world st' = world st.
Proof.
  unfold safe_find_all. intros E. inv_run;
    repeat match goal with
    | H : prim ?c ?s = (?r, ?s') |- _ =>
        apply (sim_lookup_world c s r s' eq_refl) in H
    | H : except_Timeout _ _ = Some _ |- _ =>
        unfold except_Timeout in H
    | H : match ?x with _ => _ end = Some _ |- _ => destruct x
    end; inv_run; congruence.
Qed.

(** The links [get_match_links] reports come from the links on display. *)
Lemma sim_links_of elems (st : session sim) links st' :
  links_of (drv := driver_of cfg) elems st = (Ret links, st') ->
  Forall (fun l => exists h, In h (shown_links cfg (world st)) /\
                             link_of_href h = Some l) links.
Proof.
  revert st links st'.
  induction elems as [|e rest IH]; intros st links st' E; simpl in E.
  - inv_run. constructor.
  - apply bind_inv in E as [(attr & st1 & E1 & E)|(? & ? & ?)]; [|discriminate].
    apply (prim_inv (GetAttribute e "href") st (Ret attr) st1) in E1
      as (w & d & E1 & ->).
    rewrite sim_exec in E1. destruct (faults cfg _); [discriminate|].
    simpl in E1. injection E1 as <- <- _.
    apply bind_inv in E as [(links' & st2 & E2 & E)|(? & ? & ?)]; [|discriminate].
    apply IH in E2. simpl in E2. inv_run.
    destruct (nth_error (shown_links cfg (world st)) (N.to_nat (e - 1000)))
      as [h|] eqn:Hn; [|exact E2].
    destruct (link_of_href h) as [l|] eqn:Hl; [|exact E2].
    constructor; [|exact E2]. exists h. split; [|exact Hl].
    eapply nth_error_In, Hn.
Qed.

Lemma sim_get_match_links (st : session sim) links st' :
  get_match_links (drv := driver_of cfg) st = (Ret links, st') ->
  Forall (fun l => exists h, In h (shown_links cfg (world st)) /\
                             link_of_href h = Some l) links.
Proof.
  unfold get_match_links. intros E.
  apply bind_inv in E as [(elems & st1 & E1 & E)|(? & ? & ?)]; [|discriminate].
  apply sim_links_of in E. apply sim_safe_find_all_world in E1.
  now rewrite E1 in E.
Qed.

End SimLinks.

Section SimWindows.
Variable cfg : config.

Lemma click_windows w e :
  windows (click cfg w e) = windows w /\ focus (click cfg w e) = focus w.
Proof.
  unfold click.
  repeat match goal with
  | |- context [if ?b then _ else _] => destruct b
  end; split; reflexivity.
Qed.

(** The scripted browser handles its windows as a browser does. *)
Lemma sim_window_laws : window_laws (drv := driver_of cfg).
Proof.
  split.
  - intros c w r w' d Hc. rewrite sim_exec.
    destruct (faults cfg c); [intros [= _ <- _]; split; reflexivity|].
    destruct c; try discriminate Hc; unfold answer, timed_out, is_window_call in *;
      try rewrite Hc;
      repeat match goal with
      | |- context [match focus w with _ => _ end] => destruct (focus w)
      | |- context [if String.eqb ?a ?b then _ else _] => destruct (String.eqb a b)
      | |- context [match locate ?a ?b ?c with _ => _ end] => destruct (locate a b c)
      | |- context [match locate_all ?a ?b ?c ?d with _ => _ end] =>
          destruct (locate_all a b c d)
      | |- context [match ?arg with Some _ => _ | None => _ end] => destruct arg
      end;
      intros [= _ <- _]; try (split; reflexivity); apply click_windows.
  - intros a w v w' d. rewrite sim_exec.
    destruct (faults cfg _); [discriminate|]. simpl.
    intros [= _ <- _]. eexists. split; reflexivity.
  - intros w hs w' d. rewrite sim_exec.
    destruct (faults cfg _); [discriminate|]. simpl. now intros [= <- _ _].
  - intros t w u w' d. rewrite sim_exec.
    destruct (faults cfg _); [discriminate|]. simpl.
    destruct t as [t|]; [|discriminate].
    destruct (existsb (String.eqb t) (windows w)) eqn:Hin; [|discriminate].
    intros [= _ <- _]. split; [|split; reflexivity].
    exists t. split; [reflexivity|].
    apply List.existsb_exists in Hin as (x & Hx & ->%String.eqb_eq). exact Hx.
  - intros w u w' d. rewrite sim_exec.
    destruct (faults cfg _); [discriminate|]. simpl.
    destruct (focus w) as [h|]; [|discriminate].
    intros [= _ <- _]. exists h. split; reflexivity.
Qed.

End SimWindows.

Lemma no_fields_keep_windows : fields_keep_windows no_fields.
Proof.
  unfold fields_keep_windows.
  repeat (apply List.Forall_cons; [intros st r st' [= _ <-]; split; reflexivity|]).
  apply List.Forall_nil.
Qed.

(** On a site that shows [two_matches], every link found is one of the
    two, whatever the faults. *)
Lemma sim_two_matches_known rows tabs f :
  all_links_known (drv := driver_of (site rows tabs f)) ["111"; "222"]%string.
Proof.
  intros st links st' E. apply sim_get_match_links in E.
  eapply List.Forall_impl; [|exact E]. clear E.
  intros l (h & Hin & Hl). unfold shown_links in Hin. simpl in Hin.
  unfold two_matches in Hin.
  destruct (_ =? 2); [|destruct Hin].
  destruct Hin as [<-|[<-|[]]]; vm_compute in Hl; injection Hl as <-; simpl;
    set_solver.
Qed.

(** ** The theorems on the scripted browser *)

(** Settle a closed goal by running the model. *)
Ltac run_model := vm_compute; reflexivity.





(** A second call of [navigate_to_round 2] after a first one from round
    5 that went through the dropdown: the label reads Round 2 and the
    second call makes no click. *)
Lemma navigating_twice_to_round_2 :
  let drv := driver_of (site 0 false no_faults) in
  let st0 := on (page "24/25" (Some 5)) in
  let first := navigate_to_round (drv := drv) 2 st0 in
  let read := _extract_round (drv := drv) (snd first) in
  let second := navigate_to_round (drv := drv) 2 (snd first) in
  fst first = Ret true /\
  fst read = Ret (Some 2) /\
  fst second = Ret true /\
  exists evs,
    after (snd first) evs (snd second) /\
    clicks evs = 0%nat /\
    lookups CSS_SELECTOR ROUND_DROPDOWN_BUTTON evs = 0%nat.
Proof.
  intros drv st0 first read second.
  split; [run_model|]. split; [run_model|].
  destruct (navigate_to_round_idempotent (drv := drv) 2 st0
              (fst first) (snd first) (Some 2) (snd read)
              (fst second) (snd second))
    as (evs & Ha & _ & Hsame & _);
    [run_model | run_model | run_model | run_model |].
  destruct (Hsame eq_refl) as (Hr & _ & Hc & Hb & _).
  split; [exact Hr|]. exists evs. auto.
Defined.

(** C6 as stated fails: on a site whose round on display does not change,
    a first call of [navigate_to_round 2] from round 5 returns [True]
    after its two clicks in the dropdown; the label still reads Round 5,
    and a second call in succession opens the dropdown and clicks twice
    again. *)
Lemma second_call_clicks_again :
  let drv := frozen_round (site 0 false no_faults) in
  let st0 := on (page "24/25" (Some 5)) in
  let first := navigate_to_round (drv := drv) 2 st0 in
  let read := _extract_round (drv := drv) (snd first) in
  let second := navigate_to_round (drv := drv) 2 (snd first) in
  fst first = Ret true /\
  clicks (history (snd first)) = 2%nat /\
  fst read = Ret (Some 5) /\
  fst second = Ret true /\
  clicks (history (snd second)) = 4%nat /\
  lookups CSS_SELECTOR ROUND_DROPDOWN_BUTTON (history (snd second)) = 2%nat.
Proof. vm_compute. repeat split. Qed.

Lemma match_pages_down_uninterrupted rows tabs :
  uninterrupted (drv := driver_of (site rows tabs match_pages_down)).
Proof.
  apply sim_uninterrupted; try run_model.
  intros c. destruct c; simpl; try congruence.
  destruct (contains _ _); congruence.
Qed.

Lemma no_faults_uninterrupted rows tabs :
  uninterrupted (drv := driver_of (site rows tabs no_faults)).
Proof. apply sim_uninterrupted; try run_model. intros c. discriminate. Qed.

(** The page of a match does not load: nothing is stored, the set of
    scraped identifiers is the same, and the crawl goes on with the next
    link. *)
Lemma page_load_failure_on_the_site :
  let drv := driver_of (site 0 false match_pages_down) in
  let σ := State (on (page "24/25" (Some 2))) [] in
  exists st' σ',
    scrape_match (drv := drv) no_fields (url arsenal_chelsea) (Some 2) (scraper σ)
      = (Ret ∅, st') /\
    visit (drv := drv) no_fields 2 arsenal_chelsea ∅ σ = (Ret ∅, σ') /\
    all_match_data σ' = [] /\
    for_links (drv := drv) no_fields 2 [arsenal_chelsea; everton_fulham] ∅ σ =
    for_links (drv := drv) no_fields 2 [everton_fulham] ∅ σ'.
Proof.
  intros drv σ.
  apply (failed_page_load_is_left_for_a_later_run (drv := drv) no_fields
           2 arsenal_chelsea [everton_fulham] ∅ σ).
  - simpl. set_solver.
  - apply match_pages_down_uninterrupted.
  - intros w. exists WebDriverException, w, 0%N. split; run_model.
Defined.

(** [scrape_match] without a matchday, on a match page that does not
    load: the round is read from the label, the body opens its tab and
    fails with a [WebDriverException], the [finally] clause closes that
    tab and goes back to the original one, and the record is empty. *)
Lemma cleanup_after_a_failed_page_load :
  let drv := driver_of (site 0 false match_pages_down) in
  let st := on (page "24/25" (Some 2)) in
  let read := _extract_round (drv := drv) st in
  let body := scrape_body (drv := drv) no_fields (url arsenal_chelsea)
                          (Some 2) (snd read) in
  let run := scrape_match (drv := drv) no_fields (url arsenal_chelsea) None st in
  fst read = Ret (Some 2) /\
  fst body = Raise WebDriverException /\
  windows (world (snd body)) = ["main"; "tab-1"]%string /\
  focus (world (snd body)) = Some "tab-1"%string /\
  fst run = Ret ∅ /\
  (exists o, after (snd body) (cleanup_calls (Some "main"%string) o) (snd run)) /\
  focus (world (snd run)) = Some "main"%string /\
  ~ In "tab-1"%string (windows (world (snd run))) /\
  windows (world (snd run)) = ["main"]%string.
Proof.
  intros drv st read body run.
  do 5 (split; [run_model|]).
  destruct (scrape_match_cleanup (drv := drv) no_fields
              (sim_window_laws _) (url arsenal_chelsea) None
              st (snd read) (Ret (Some 2)) (fst run) (snd run))
    as (_ & Hbody);
    [discriminate | apply no_fields_keep_windows | run_model | run_model |].
  destruct (Hbody (Raise WebDriverException) (snd body))
    as (_ & _ & _ & _ & Hclean);
    [run_model|].
  destruct (Hclean "tab-1"%string) as (Ha & Hfo & Hnot & Hsame).
  - do 4 eexists. exists ["main"%string]. do 4 eexists.
    repeat split; run_model.
  - do 10 eexists. repeat split; run_model.
  - split; [exact Ha|]. split; [exact Hfo|]. split; [exact Hnot|].
    apply Hsame. simpl. intros [H|[]]. discriminate H.
Defined.

(** C3 as stated fails: when [close()] raises, the [finally] clause logs
    the error and goes on; [scrape_match] returns its record with the tab
    of the match still open and in focus. *)
Lemma failed_close_leaves_the_tab_open :
  let drv := driver_of (site 0 false close_fails) in
  let st := on (page "24/25" (Some 2)) in
  let run := scrape_match (drv := drv) no_fields (url arsenal_chelsea) (Some 2) st in
  match fst run with
  | Ret data => dict_truthy data = true
  | Raise _ => False
  end /\
  original_tab (snd run) = Some "main"%string /\
  windows (world (snd run)) = ["main"; "tab-1"]%string /\
  focus (world (snd run)) = Some "tab-1"%string.
Proof.
  intros drv st run. vm_compute. repeat split.
Qed.

(** A second crawl of rounds 1 to 3 over the store of a first one: every
    link on display is already stored, nothing is appended. *)
Lemma second_crawl_of_the_site :
  let stored := all_match_data (snd (crawl_1_3 no_faults [])) in
  let second := crawl_1_3 no_faults stored in
  ids_of stored = ["111"; "222"]%string /\
  all_match_data (snd second) = stored /\
  NoDup (ids_of (all_match_data (snd second))).
Proof.
  intros stored second.
  destruct (crawl_never_stores_an_id_twice
              (drv := driver_of (site 0 false no_faults)) no_fields retry_once
              1 3 "24/25" true (page "24/25" (Some 1)) 0 stored
              (fst second) (snd second))
    as (new & Hs & _ & _ & Hnd & Hsame); [run_model|].
  assert (Hids : ids_of stored = ["111"; "222"]%string) by run_model.
  split; [exact Hids|].
  destruct Hsame as [-> _].
  { rewrite Hids. apply sim_two_matches_known. }
  rewrite app_nil_r in Hs. split; [exact Hs|].
  apply Hnd. rewrite Hids. clear.
  apply NoDup_cons. split; [|apply NoDup_singleton].
  intros H%list_elem_of_singleton. discriminate H.
Defined.

(** C1 as stated fails: a first crawl during which the match pages do not
    load stores nothing; a second crawl over the same rounds, where the
    same two links are on display, stores both matches. *)
Lemma second_crawl_stores_what_the_first_could_not :
  let first := crawl_1_3 match_pages_down [] in
  let second := crawl_1_3 no_faults (all_match_data (snd first)) in
  fst (get_match_links (drv := driver_of (site 0 false match_pages_down))
         (on (page "24/25" (Some 2)))) = Ret [arsenal_chelsea; everton_fulham] /\
  fst (get_match_links (drv := driver_of (site 0 false no_faults))
         (on (page "24/25" (Some 2)))) = Ret [arsenal_chelsea; everton_fulham] /\
  List.length (all_match_data (snd first)) = 0%nat /\
  List.length (all_match_data (snd second)) = 2%nat /\
  ids_of (all_match_data (snd second)) = ["111"; "222"]%string.
Proof. vm_compute. repeat split. Qed.

(** A crawl over a store that holds match 111: the record it appends
    carries both keys, and the set of scraped identifiers can be built
    from the new store. *)
Lemma keys_after_a_crawl_of_the_site :
  let loaded : list record :=
    [ list_to_map [ ("match_id"%string, VStr "111");
                    ("source_url"%string, VStr (url arsenal_chelsea)) ] ] in
  let run := crawl_1_3 no_faults loaded in
  ids_of (all_match_data (snd run)) = ["111"; "222"]%string /\
  Forall (fun d : record => is_Some (d !! "match_id"%string))
         (all_match_data (snd run)) /\
  match_ids (all_match_data (snd run)) <> Raise KeyError.
Proof.
  intros loaded run. split; [run_model|].
  destruct (stored_records_carry_their_keys
              (drv := driver_of (site 0 false no_faults)) no_fields retry_once
              1 3 "24/25" true (page "24/25" (Some 1)) 0 loaded
              (fst run) (snd run))
    as (_ & Hk & Hm); [run_model | | exact (conj Hk Hm)].
  repeat constructor. eexists. run_model.
Defined.



(** * More properties of the code *)

(** ** More on the matcher *)

Section ReFails.
Context {R : Type}.
Implicit Types (k : list ascii -> captures -> option R).

(** The matcher calls its continuation only on what is left of the
    input: when the continuation fails there, the match fails. *)
Lemma run_fails fl r : forall s cs k,
  (forall s' cs', s' `suffix_of` s -> k s' cs' = None) ->
  run fl r s cs k = None.
Proof.
  induction r as [c|p|p| |r1 IH1 r2 IH2|r IH|r IH|i r IH]; intros s cs k Hk.
  1-4: destruct s as [|x s]; simpl; [reflexivity|];
       match goal with |- (if ?b then _ else _) = _ => destruct b end;
       [apply Hk, suffix_cons_r; reflexivity|reflexivity].
  - simpl. apply IH1. intros s1 cs1 H1. apply IH2.
    intros s2 cs2 H2. apply Hk. etrans; eassumption.
  - simpl. generalize (List.length s). intros n. revert s cs Hk.
    induction n as [|n IHn]; intros s cs Hk.
    + apply Hk; reflexivity.
    + rewrite IH; [apply Hk; reflexivity|].
      intros s1 cs1 H1. destruct (_ <? _)%nat; [|reflexivity].
      apply IHn. intros s2 cs2 H2. apply Hk. etrans; eassumption.
  - simpl. rewrite IH by exact Hk. apply Hk; reflexivity.
  - simpl. apply IH. intros s1 cs1 H1. now apply Hk.
Qed.

End ReFails.

Lemma search_fails fl r s :
  (forall s', s' `suffix_of` s -> match_here fl r s' = None) ->
  search_chars fl r s = None.
Proof.
  induction s as [|c s IH]; intros H; simpl.
  - now rewrite (H []).
  - rewrite (H (c :: s)) by reflexivity. apply IH.
    intros s' Hs. apply H. now apply suffix_cons_r.
Qed.

(** The search goes past a prefix at no place of which the pattern
    matches. *)
Lemma search_skips fl r pre s :
  (forall a b, pre = (a ++ b)%list -> b <> [] ->
               match_here fl r (b ++ s) = None) ->
  search_chars fl r (pre ++ s) = search_chars fl r s.
Proof.
  induction pre as [|c pre IH]; intros H; [reflexivity|].
  change (search_chars fl r ((c :: pre) ++ s))
    with (match match_here fl r ((c :: pre) ++ s) with
          | Some (_, _, cs) => Some cs
          | None => search_chars fl r (pre ++ s)
          end).
  rewrite (H [] (c :: pre) eq_refl) by discriminate.
  apply IH. intros a b -> Hb. apply (H (c :: a) b); [reflexivity|exact Hb].
Qed.

Lemma suffix_forall (P : ascii -> Prop) (s' s : list ascii) :
  s' `suffix_of` s -> Forall P s -> Forall P s'.
Proof. intros (a & ->) H. now apply List.Forall_app in H. Qed.

(** ** [extract_percentage] *)

(** [int] converts a string of at most 4300 digits. *)
Lemma int_of_str_digits (ds : list ascii) :
  (List.length ds <= 4300)%nat ->
  int_of_str (of_chars ds) = Some (int_of_digits ds).
Proof.
  intros Hlen. unfold int_of_str. rewrite chars_of_chars.
  now rewrite (proj2 (Nat.ltb_ge int_max_str_digits (List.length ds)) Hlen).
Qed.

(** The pattern of [extract_percentage] does not match where the text
    starts with a character that is not a digit. *)
Lemma percentage_not_here c s :
  is_digit c = false -> match_here no_flags percentage_pattern (c :: s) = None.
Proof.
  intros Hc. unfold match_here, percentage_pattern, Seq, Plus, digit.
  rewrite run_cat, run_grp, run_cat, run_cls.
  unfold cls_matches. simpl IGNORECASE. now rewrite Hc.
Qed.

Lemma percentage_here ds rest :
  ds <> [] -> List.forallb is_digit ds = true ->
  match_here no_flags percentage_pattern (ds ++ "%"%char :: rest)
  = Some ((ds ++ ["%"%char])%list, rest, [(1%nat, ds)]).
Proof.
  intros Hne Hd. destruct ds as [|d ds]; [congruence|].
  simpl in Hd. apply andb_true_iff in Hd as [Hd0 Hd].
  unfold match_here, percentage_pattern, Seq, Plus, digit.
  rewrite run_cat, run_grp, run_cat. simpl app. rewrite run_cls.
  unfold cls_matches at 1. simpl IGNORECASE. rewrite Hd0.
  erewrite run_star_greedy.
  - reflexivity.
  - exact Hd.
  - cbv beta. rewrite run_chr. change (chr_matches no_flags "%" "%") with true.
    cbv iota.
    change (d :: ds ++ "%"%char :: rest)%list
      with ((d :: ds) ++ "%"%char :: rest)%list.
    rewrite (taken_app (d :: ds) ("%"%char :: rest)).
    replace (((d :: ds) ++ "%"%char :: rest)%list)
      with (((d :: ds) ++ ["%"%char]) ++ rest)%list
      by (now rewrite <- app_assoc).
    rewrite taken_app. reflexivity.
  - reflexivity.
Qed.

(** X11: [extract_percentage] reads the first number that is followed by a
    percent sign: after a text without digits, the digits before the
    sign (at most 4300, the longest number that [int] converts) give the
    integer, whatever comes after the sign. *)
Theorem extract_percentage_reads_the_number (pre ds rest : list ascii) :
  Forall (fun c => is_digit c = false) pre ->
  ds <> [] -> List.forallb is_digit ds = true -> (List.length ds <= 4300)%nat ->
  extract_percentage (of_chars (pre ++ ds ++ "%"%char :: rest))
  = VInt (int_of_digits ds).
Proof.
  intros Hpre Hne Hd Hlen. unfold extract_percentage, search.
  rewrite chars_of_chars, search_skips.
  - erewrite search_here by (apply percentage_here; assumption).
    unfold group. cbn [List.find fst snd Nat.eqb].
    now rewrite int_of_str_digits.
  - intros a b -> Hb. destruct b as [|c b]; [congruence|].
    apply List.Forall_app in Hpre as [_ Hpre]. inversion Hpre; subst.
    now apply percentage_not_here.
Qed.

(** X12: Without a percent sign in the text, [extract_percentage] returns
    "N/A". *)
Theorem extract_percentage_without_a_sign (text : string) :
  Forall (fun c => c <> "%"%char) (chars text) ->
  extract_percentage text = VStr "N/A".
Proof.
  intros Hno. unfold extract_percentage, search. rewrite search_fails; [reflexivity|].
  intros s' Hs. unfold match_here, percentage_pattern, Seq. rewrite run_cat.
  apply run_fails. intros s1 cs1 H1.
  assert (Hs1 : Forall (fun c => c <> "%"%char) s1).
  { eapply suffix_forall; [|exact Hno]. etrans; eassumption. }
  destruct s1 as [|c s1]; [reflexivity|]. rewrite run_chr.
  inversion Hs1; subst. unfold chr_matches. simpl IGNORECASE.
  destruct (Ascii.eqb_spec "%"%char c); [congruence|reflexivity].
Qed.

(** ** [str.strip] *)

Lemma lstrip_chars_spaces p ws l :
  Forall (fun c => p c = true) ws -> lstrip_chars p (ws ++ l) = lstrip_chars p l.
Proof. induction 1 as [|c ws Hc _ IH]; simpl; [reflexivity|]. now rewrite Hc. Qed.

Lemma lstrip_chars_keeps p c l : p c = false -> lstrip_chars p (c :: l) = c :: l.
Proof. intros Hc. simpl. now rewrite Hc. Qed.

Lemma rstrip_chars_spaces p l ws :
  Forall (fun c => p c = true) ws -> rstrip_chars p (l ++ ws) = rstrip_chars p l.
Proof.
  intros Hws. unfold rstrip_chars. rewrite List.rev_app_distr.
  rewrite lstrip_chars_spaces; [reflexivity|].
  apply List.Forall_rev. exact Hws.
Qed.

Lemma rstrip_chars_keeps p l c :
  p c = false -> rstrip_chars p (l ++ [c]) = (l ++ [c])%list.
Proof.
  intros Hc. unfold rstrip_chars. rewrite List.rev_app_distr. simpl.
  rewrite Hc. simpl. now rewrite List.rev_involutive.
Qed.

Lemma lstrip_chars_forall (P : ascii -> Prop) p l :
  Forall P l -> Forall P (lstrip_chars p l).
Proof.
  induction 1 as [|c l Hc Hl IH]; simpl; [constructor|].
  destruct (p c); [exact IH|now constructor].
Qed.

Lemma rstrip_chars_forall (P : ascii -> Prop) p l :
  Forall P l -> Forall P (rstrip_chars p l).
Proof.
  intros H. unfold rstrip_chars. apply List.Forall_rev, lstrip_chars_forall.
  now apply List.Forall_rev.
Qed.

Lemma digit_not_space c : is_digit c = true -> is_space c = false.
Proof. destruct c as [[] [] [] [] [] [] [] []]; vm_compute; congruence. Qed.

(** ** [_extract_round] *)

Lemma taken_all (s : list ascii) : taken s [] = s.
Proof. unfold taken. simpl. rewrite Nat.sub_0_r. apply List.firstn_all. Qed.

Lemma round_here ds :
  ds <> [] -> List.forallb is_digit ds = true ->
  match_here no_flags round_pattern (chars "Round " ++ ds)
  = Some ((chars "Round " ++ ds)%list, [], [(1%nat, ds)]).
Proof.
  intros Hne Hd. destruct ds as [|d ds]; [congruence|].
  simpl in Hd. apply andb_true_iff in Hd as [Hd0 Hd].
  unfold match_here, round_pattern, Seq, Lit, Plus, digit.
  change (chars "Round ") with ["R"; "o"; "u"; "n"; "d"; " "]%char.
  cbn [Lit_chars app].
  repeat (first [ rewrite run_chr; change (chr_matches no_flags _ _) with true;
                  cbv iota beta
                | rewrite run_cat ]).
  rewrite run_grp, run_cat, run_cls.
  unfold cls_matches at 1. simpl IGNORECASE. rewrite Hd0.
  rewrite <- (app_nil_r ds) at 1.
  erewrite run_star_greedy.
  - reflexivity.
  - exact Hd.
  - cbv beta. now rewrite !taken_all.
  - exact I.
Qed.

(** X3: The round label: "Round " and a number (of at most 4300 digits, the
    longest that [int] converts), with any white space around, reads as
    that number. *)
Theorem parse_round_reads_the_label (ws1 ds ws2 : list ascii) :
  Forall (fun c => is_space c = true) ws1 ->
  Forall (fun c => is_space c = true) ws2 ->
  ds <> [] -> List.forallb is_digit ds = true -> (List.length ds <= 4300)%nat ->
  parse_round (of_chars (ws1 ++ chars "Round " ++ ds ++ ws2))
  = Ret (Some (int_of_digits ds)).
Proof.
  intros H1 H2 Hne Hd Hlen. unfold parse_round, search, strip.
  rewrite !chars_of_chars.
  rewrite lstrip_chars_spaces by exact H1.
  change (chars "Round ") with ["R"; "o"; "u"; "n"; "d"; " "]%char.
  cbn [app]. rewrite lstrip_chars_keeps by reflexivity.
  change ("R"%char :: "o"%char :: "u"%char :: "n"%char :: "d"%char :: " "%char
            :: ds ++ ws2)%list
    with ((chars "Round " ++ ds) ++ ws2)%list.
  rewrite rstrip_chars_spaces by exact H2.
  destruct (exists_last Hne) as (ds' & d & Eds).
  assert (Hlast : is_space d = false).
  { apply digit_not_space. rewrite Eds in Hd.
    rewrite List.forallb_app in Hd. apply andb_true_iff in Hd as [_ Hd].
    simpl in Hd. now rewrite andb_true_r in Hd. }
  rewrite Eds at 1. rewrite app_assoc, rstrip_chars_keeps by exact Hlast.
  rewrite <- app_assoc, <- Eds.
  erewrite search_here by (apply round_here; assumption).
  unfold group. cbn [List.find fst snd Nat.eqb].
  now rewrite int_of_str_digits.
Qed.

(** X4: A label without a digit does not read as a round. *)
Theorem parse_round_without_digits (text : string) :
  Forall (fun c => is_digit c = false) (chars text) ->
  parse_round text = Ret None.
Proof.
  intros Hno. unfold parse_round, search, strip. rewrite chars_of_chars.
  rewrite search_fails; [reflexivity|].
  intros s' Hs. unfold match_here, round_pattern, Seq. rewrite run_cat.
  apply run_fails. intros s1 cs1 H1.
  assert (Hs1 : Forall (fun c => is_digit c = false) s1).
  { eapply suffix_forall; [etrans; eassumption|].
    now apply rstrip_chars_forall, lstrip_chars_forall. }
  unfold Plus, digit. rewrite run_grp, run_cat.
  destruct s1 as [|c s1]; [reflexivity|]. rewrite run_cls.
  inversion Hs1; subst. unfold cls_matches. simpl IGNORECASE.
  now replace (is_digit c) with false.
Qed.

(** ** [get_match_links] *)

Lemma contains_chars_app_l p a l :
  contains_chars p l = true -> contains_chars p (a ++ l) = true.
Proof.
  intros H. induction a as [|c a IH]; [exact H|].
  simpl. rewrite IH. apply orb_true_r.
Qed.

(** The URL of a link is absolute and is the URL of a match page. *)
Lemma link_of_href_url href l :
  link_of_href href = Some l ->
  startswith "http" (url l) = true /\
  contains "/football/match/" (url l) = true.
Proof.
  unfold link_of_href.
  destruct (contains "/football/match/" href) eqn:Hc; [|discriminate].
  intros [= <-]. simpl url.
  destruct (startswith "http" href) eqn:Hs; [now split|]. split.
  - unfold startswith. rewrite chars_app. reflexivity.
  - unfold contains in *. rewrite chars_app. now apply contains_chars_app_l.
Qed.

Section Links.
Context {World : Type} {drv : Driver World}.
Local Abbreviation session := (session World).

Lemma links_of_urls elems (st : session) links st' :
  links_of elems st = (Ret links, st') ->
  (List.length links <= List.length elems)%nat /\
  Forall (fun l => startswith "http" (url l) = true /\
                   contains "/football/match/" (url l) = true) links.
Proof.
  revert st links st'.
  induction elems as [|e rest IH]; intros st links st' E; simpl in E.
  - inv_run. split; [simpl; lia|constructor].
  - apply bind_inv in E as [(attr & st1 & _ & E)|(? & ? & ?)]; [|discriminate].
    apply bind_inv in E as [(links' & st2 & E2 & E)|(? & ? & ?)]; [|discriminate].
    apply IH in E2 as [Hlen Hall]. inv_run.
    destruct (link_of_href _) as [l|] eqn:Hl; simpl; (split; [lia|]); [|exact Hall].
    constructor; [|exact Hall]. eapply link_of_href_url, Hl.
Qed.

(** X6: Every link that [get_match_links] reports has an absolute URL (it
    starts with "http") of a match page (it contains "/football/match/");
    the elements whose [href] is not of a match page are left out. *)
Theorem get_match_links_reports_match_pages (st : session) links st' :
  get_match_links st = (Ret links, st') ->
  Forall (fun l => startswith "http" (url l) = true /\
                   contains "/football/match/" (url l) = true) links.
Proof.
  unfold get_match_links. intros E.
  apply bind_inv in E as [(elems & st1 & _ & E)|(? & ? & ?)]; [|discriminate].
  now apply links_of_urls in E.
Qed.

End Links.

(** *** The identifier of a link *)

Lemma id_not_here c s :
  c <> "#"%char -> match_here no_flags id_pattern (c :: s) = None.
Proof.
  intros Hc. unfold match_here, id_pattern, Seq, Lit.
  change (chars "#id:") with ["#"; "i"; "d"; ":"]%char. cbn [Lit_chars].
  rewrite !run_cat, run_chr. unfold chr_matches. simpl IGNORECASE.
  destruct (Ascii.eqb_spec "#"%char c); [congruence|reflexivity].
Qed.

Lemma id_here ds rest :
  ds <> [] -> List.forallb is_digit ds = true ->
  match rest with c :: _ => is_digit c = false | [] => True end ->
  match_here no_flags id_pattern (chars "#id:" ++ ds ++ rest)
  = Some ((chars "#id:" ++ ds)%list, rest, [(1%nat, ds)]).
Proof.
  intros Hne Hd Hrest. destruct ds as [|d ds]; [congruence|].
  simpl in Hd. apply andb_true_iff in Hd as [Hd0 Hd].
  unfold match_here, id_pattern, Seq, Lit, Plus, digit.
  change (chars "#id:") with ["#"; "i"; "d"; ":"]%char.
  cbn [Lit_chars app].
  repeat (first [ rewrite run_chr; change (chr_matches no_flags _ _) with true;
                  cbv iota beta
                | rewrite run_cat ]).
  rewrite run_grp, run_cat, run_cls.
  unfold cls_matches at 1. simpl IGNORECASE. rewrite Hd0.
  erewrite run_star_greedy.
  - reflexivity.
  - exact Hd.
  - cbv beta.
    change (d :: ds ++ rest)%list with ((d :: ds) ++ rest)%list.
    rewrite taken_app.
    change ("#"%char :: "i"%char :: "d"%char :: ":"%char :: (d :: ds) ++ rest)%list
      with (("#"%char :: "i"%char :: "d"%char :: ":"%char :: d :: ds) ++ rest)%list.
    rewrite taken_app. reflexivity.
  - destruct rest as [|c rest]; [exact I|].
    unfold cls_matches. simpl IGNORECASE. exact Hrest.
Qed.

(** X7: The identifier of a match link is the number after the first "#id:"
    of its [href]. *)
Theorem link_id_after_the_hash (path ds rest : list ascii) :
  let href := of_chars (path ++ chars "#id:" ++ ds ++ rest) in
  Forall (fun c => c <> "#"%char) path ->
  ds <> [] -> List.forallb is_digit ds = true ->
  match rest with c :: _ => is_digit c = false | [] => True end ->
  contains "/football/match/" href = true ->
  link_of_href href
  = Some (Link (if startswith "http" href then href
                else "https://www.sofascore.com" ++ href)
               (of_chars ds)).
Proof.
  intros href Hpath Hne Hd Hrest Hc. unfold link_of_href. rewrite Hc.
  do 2 f_equal. unfold search, href. rewrite chars_of_chars, search_skips.
  - erewrite search_here by (apply id_here; assumption).
    unfold group. cbn [List.find fst snd Nat.eqb]. reflexivity.
  - intros a b -> Hb. destruct b as [|c b]; [congruence|].
    apply List.Forall_app in Hpath as [_ Hpath]. inversion Hpath; subst.
    now apply id_not_here.
Qed.

Lemma last_field_no_sep c acc l :
  Forall (fun x => x <> c) l -> last_field c acc l = (List.rev acc ++ l)%list.
Proof.
  intros H. revert acc. induction H as [|x l Hx _ IH]; intros acc; simpl.
  - now rewrite app_nil_r.
  - destruct (Ascii.eqb_spec c x); [congruence|].
    rewrite IH. simpl. now rewrite <- app_assoc.
Qed.

Lemma last_field_app c acc a l :
  last_field c acc (a ++ c :: l) = last_field c [] l.
Proof.
  revert acc. induction a as [|x a IH]; intros acc; simpl.
  - now rewrite Ascii.eqb_refl.
  - destruct (Ascii.eqb c x); apply IH.
Qed.

(** X8: Without "#" in the [href], the identifier is the last segment of
    the path, whether the path ends with slashes or not. *)
Theorem link_id_is_the_last_segment (dir seg slashes : list ascii) :
  let href := of_chars (dir ++ "/"%char :: seg ++ slashes) in
  Forall (fun c => c <> "#"%char) (dir ++ "/"%char :: seg ++ slashes) ->
  seg <> [] -> Forall (fun c => c <> "/"%char) seg ->
  Forall (fun c => c = "/"%char) slashes ->
  contains "/football/match/" href = true ->
  link_of_href href
  = Some (Link (if startswith "http" href then href
                else "https://www.sofascore.com" ++ href)
               (of_chars seg)).
Proof.
  intros href Hno Hne Hseg Hsl Hc. unfold link_of_href. rewrite Hc.
  do 2 f_equal. unfold search, href. rewrite chars_of_chars.
  rewrite search_fails.
  2:{ intros s' Hs. destruct s' as [|c s'].
      - reflexivity.
      - apply id_not_here. eapply suffix_forall in Hs; [|exact Hno].
        now inversion Hs. }
  unfold split_last, rstrip_char. rewrite !chars_of_chars. f_equal.
  destruct (exists_last Hne) as (seg' & x & ->).
  assert (Hx : x <> "/"%char).
  { apply List.Forall_app in Hseg as [_ Hseg]. now inversion Hseg. }
  replace (dir ++ "/"%char :: (seg' ++ [x]) ++ slashes)%list
    with (((dir ++ "/"%char :: seg') ++ [x]) ++ slashes)%list
    by (now rewrite <- !app_assoc).
  rewrite rstrip_chars_spaces.
  2:{ eapply List.Forall_impl; [|exact Hsl]. intros a ->. apply Ascii.eqb_refl. }
  rewrite rstrip_chars_keeps.
  2:{ destruct (Ascii.eqb_spec "/"%char x); congruence. }
  rewrite <- app_assoc. simpl. rewrite last_field_app.
  apply last_field_no_sep.
  eapply List.Forall_impl; [|exact Hseg]. intros a Ha. congruence.
Qed.

(** ** [extract_total_votes] without a multiplier *)

Lemma number_class_not_colon_space c :
  (is_digit c || one_of ".," c) = true ->
  cls_matches ignore_case (fun c => Ascii.eqb c ":" || is_space c) c = false.
Proof. destruct c as [[] [] [] [] [] [] [] []]; vm_compute; congruence. Qed.

Lemma number_class_ignore_case c :
  (is_digit c || one_of ".," c) = true ->
  cls_matches ignore_case (fun c => is_digit c || one_of ".," c) c = true.
Proof. intros H. unfold cls_matches. simpl IGNORECASE. now rewrite H. Qed.

Lemma not_number_class_ignore_case c :
  (is_digit c || one_of ".,kKmM" c) = false ->
  cls_matches ignore_case (fun c => is_digit c || one_of ".," c) c = false /\
  cls_matches ignore_case (one_of "kM") c = false.
Proof. destruct c as [[] [] [] [] [] [] [] []]; vm_compute; intuition congruence. Qed.

Lemma search_total_votes_plain (nm rest : list ascii) :
  nm <> [] ->
  List.forallb (fun c => is_digit c || one_of ".," c) nm = true ->
  match rest with
  | c :: _ => (is_digit c || one_of ".,kKmM" c) = false
  | [] => True
  end ->
  search ignore_case total_votes_pattern
    ("Total votes: " ++ of_chars (nm ++ rest))
  = Some [(2%nat, []); (1%nat, nm)].
Proof.
  intros Hne Hd Hrest. unfold search. rewrite chars_app, chars_of_chars.
  destruct nm as [|d nm]; [congruence|].
  simpl in Hd. apply andb_true_iff in Hd as [Hd0 Hd].
  change (chars "Total votes: ")
    with ["T";"o";"t";"a";"l";" ";"v";"o";"t";"e";"s";":";" "]%char.
  eapply search_here. unfold match_here, total_votes_pattern, Seq, Lit.
  change (chars "Total votes")
    with ["T";"o";"t";"a";"l";" ";"v";"o";"t";"e";"s"]%char.
  cbn [Lit_chars app].
  repeat (first [ rewrite run_chr; change (chr_matches ignore_case _ _) with true;
                  cbv iota beta
                | rewrite run_cat ]).
  rewrite run_star_cls. change (cls_matches ignore_case _ ":"%char) with true. cbv iota.
  rewrite run_star_cls. change (cls_matches ignore_case _ " "%char) with true. cbv iota.
  rewrite run_star_cls, (number_class_not_colon_space d Hd0). cbv beta.
  assert (G : forall k0 : list ascii -> captures -> list ascii * list ascii * captures,
     run ignore_case
         (Cat (Grp 1 (Plus (Cls (fun c => is_digit c || one_of ".," c))))
                 (Grp 2 (Opt (Cls (one_of "kM"))))) (d :: nm ++ rest) []
        (fun s' cs => Some (k0 s' cs))
     = Some (k0 rest [(2%nat, []); (1%nat, d :: nm)])).
  { intros k0. rewrite run_cat, run_grp. unfold Plus. rewrite run_cat, run_cls.
    rewrite (number_class_ignore_case d Hd0).
    assert (Hopt : run ignore_case (Grp 2 (Opt (Cls (one_of "kM")))) rest
                     [(1%nat, d :: nm)] (fun s' cs => Some (k0 s' cs))
                   = Some (k0 rest [(2%nat, []); (1%nat, d :: nm)])).
    { rewrite run_grp. destruct rest as [|c rest].
      - reflexivity.
      - simpl run. destruct (not_number_class_ignore_case c Hrest) as [_ ->].
        unfold taken. now rewrite Nat.sub_diag. }
    erewrite run_star_greedy.
    - reflexivity.
    - eapply forallb_impl; [|exact Hd]. intros x. apply number_class_ignore_case.
    - cbv beta. change (d :: nm ++ rest)%list with ((d :: nm) ++ rest)%list.
      rewrite (taken_app (d :: nm) rest). exact Hopt.
    - destruct rest as [|c rest]; [exact I|].
      now destruct (not_number_class_ignore_case c Hrest) as [-> _]. }
  rewrite (G (fun s' cs => (taken _ s', s', cs))). reflexivity.
Qed.

(** X13: Without a multiplier after it, the number of votes is returned as it
    is written, its commas removed: "Total votes: 12,345" gives
    "12345". *)
Theorem total_votes_drops_the_commas (nm rest : list ascii) :
  nm <> [] ->
  List.forallb (fun c => is_digit c || one_of ".," c) nm = true ->
  match rest with
  | c :: _ => (is_digit c || one_of ".,kKmM" c) = false
  | [] => True
  end ->
  extract_total_votes ("Total votes: " ++ of_chars (nm ++ rest))
  = VStr (remove_char "," (of_chars nm)).
Proof.
  intros Hne Hd Hrest. unfold extract_total_votes.
  rewrite (search_total_votes_plain nm rest Hne Hd Hrest).
  unfold group. cbn [List.find fst snd Nat.eqb]. reflexivity.
Qed.

(** ** [classify_event_type] *)

Lemma of_chars_app (a b : list ascii) :
  of_chars (a ++ b) = (of_chars a ++ of_chars b)%string.
Proof. induction a as [|c a IH]; simpl; [reflexivity|]. unfold of_chars in *. simpl. now rewrite IH. Qed.

Lemma lower_app (a b : string) : lower (a ++ b) = (lower a ++ lower b)%string.
Proof. unfold lower. now rewrite chars_app, List.map_app, of_chars_app. Qed.

Lemma contains_chars_here p l : contains_chars p (p ++ l) = true.
Proof.
  assert (H : is_prefix p (p ++ l) = true).
  { induction p as [|c p IH]; simpl; [reflexivity|]. now rewrite Ascii.eqb_refl. }
  destruct p as [|c p]; simpl in *; [destruct l; reflexivity|]. now rewrite H.
Qed.

Lemma contains_chars_after p a l :
  contains_chars p l = true -> contains_chars p (a ++ l) = true.
Proof.
  intros H. induction a as [|c a IH]; [exact H|].
  simpl. rewrite IH. apply orb_true_r.
Qed.

(** X14: A text that contains the word "goal", in any letter case and also
    inside a longer word, is classified as a goal, whatever else it
    mentions. *)
Theorem classify_event_type_goal_first (before word after : string) :
  lower word = "goal" ->
  classify_event_type (before ++ word ++ after) = "goal".
Proof.
  intros Hw. unfold classify_event_type.
  rewrite !lower_app, Hw.
  replace (contains "goal" (lower before ++ "goal" ++ lower after)) with true;
    [reflexivity|].
  symmetry. unfold contains. rewrite !chars_app.
  apply contains_chars_after, contains_chars_here.
Qed.

(** ** [safe_click] and [dismiss_cookies] *)

Section SafeClick.
Context {World : Type} {drv : Driver World}.
Local Abbreviation D := (D World).
Local Abbreviation session := (session World).

Lemma click_attempts_app a b :
  click_attempts (a ++ b) = (click_attempts a + click_attempts b)%nat.
Proof. unfold click_attempts. now rewrite List.filter_app, List.length_app. Qed.

Lemma click_attempts_cons ev evs :
  click_attempts (ev :: evs) =
  ((if is_click_attempt ev then 1 else 0) + click_attempts evs)%nat.
Proof. unfold click_attempts. simpl. destruct (is_click_attempt ev); reflexivity. Qed.

(** The calls between two states are determined by the states. *)
Lemma after_inj (st st' : session) evs1 evs2 :
  after st evs1 st' -> after st evs2 st' -> evs1 = evs2.
Proof.
  intros (H1 & _) (H2 & _). rewrite H1 in H2. now apply app_inv_tail in H2.
Qed.

End SafeClick.

Ltac count_attempts :=
  repeat (rewrite click_attempts_app || rewrite click_attempts_cons);
  change (click_attempts []) with 0%nat;
  cbn [is_click_attempt ev_call ev_exn].

Section SafeClick2.
Context {World : Type} {drv : Driver World}.
Local Abbreviation D := (D World).
Local Abbreviation session := (session World).

Lemma safe_click_loop_attempts n e (st : session) r st' :
  safe_click_loop n e st = (r, st') ->
  exists evs, after st evs st' /\ (click_attempts evs <= n)%nat.
Proof.
  revert st r st'. induction n as [|n IH]; intros st r st' E; simpl in E.
  - inv_run. exists []. split; [apply after_refl|]. unfold click_attempts. simpl. lia.
  - assert (Hretry : forall st0 r0 st1,
               (sleep 500 ;; safe_click_loop n e)%py st0 = (r0, st1) ->
               exists evs, after st0 evs st1 /\ (click_attempts evs <= n)%nat).
    { clear E. intros st0 r0 st1 E0. inv_run.
      - apply IH in E0 as (evs & Ha & Hc). prims.
        eexists. split; [chain|]. count_attempts. lia.
      - prims. eexists. split; [chain|]. count_attempts. lia. }
    assert (Hhandler : forall x k st0 r0 st1,
               (if click_intercepted x
                then Some (try_except
                             (prim (ExecuteScript js_click (Some e)) ;; ret true)%py
                             (except_Exception (sleep 500 ;; safe_click_loop n e)%py))
                else except_Exception (sleep 500 ;; safe_click_loop n e)%py x) = Some k ->
               k st0 = (r0, st1) ->
               exists evs, after st0 evs st1 /\ (click_attempts evs <= n)%nat).
    { clear E. intros x k st0 r0 st1 Hk E0.
      destruct (click_intercepted x).
      - inv_run.
        + prims. eexists. split; [chain|]. count_attempts. lia.
        + match goal with Hx : except_Exception _ _ = Some _ |- _ =>
            apply except_Exception_inv in Hx as [-> _] end.
          apply Hretry in E0 as (evs & Ha & Hc). prims.
          eexists. split; [chain|]. count_attempts. lia.
        + prims. eexists. split; [chain|]. count_attempts. lia.
      - apply except_Exception_inv in Hk as [-> _]. eapply Hretry, E0. }
    inv_run.
    all: prims.
    all: try (eexists; split; [chain|]; count_attempts; lia).
    all: match goal with
         | Hk : _ = Some ?k, E : ?k _ = _ |- _ =>
             destruct (Hhandler _ _ _ _ _ Hk E) as (evs & Ha & Hc)
         end.
    all: eexists; (split; [chain|]); count_attempts; lia.
Qed.

(** X1: [safe_click] tries the native click at most three times; one click
    goes through when it returns [True], none otherwise; it looks nothing
    up; and when the user does not interrupt, it returns. *)
Theorem safe_click_tries_three_times e (st : session) r st' :
  safe_click e st = (r, st') ->
  exists evs,
    after st evs st' /\
    (click_attempts evs <= 3)%nat /\
    clicks evs = (match r with Ret true => 1 | _ => 0 end)%nat /\
    Forall (fun ev => is_lookup ev = false) evs /\
    (uninterrupted -> exists b, r = Ret b).
Proof.
  intros E.
  destruct (safe_click_loop_attempts 3 e st r st' E) as (evs & Ha & Hn).
  destruct (safe_click_spec e st r st' E) as (evs' & Ha' & Hl & Hc).
  rewrite (after_inj _ _ _ _ Ha' Ha) in Hl, Hc.
  exists evs. repeat split; try assumption; try apply Ha.
  intros Hu. eapply safe_click_returns; eassumption.
Qed.

End SafeClick2.

Section Cookies.
Context {World : Type} {drv : Driver World}.
Local Abbreviation D := (D World).
Local Abbreviation session := (session World).


End Cookies.

(** ** [navigate_to_round] through the dropdown *)

Section Dropdown.
Context {World : Type} {drv : Driver World}.
Local Abbreviation D := (D World).
Local Abbreviation session := (session World).

Lemma round_by_dropdown_spec target (st : session) st' :
  round_by_dropdown target st = (Ret true, st') ->
  exists evs,
    after st evs st' /\
    clicks evs = 2%nat /\
    lookups CSS_SELECTOR ROUND_DROPDOWN_BUTTON evs = 1%nat /\
    lookups XPATH (round_option_xpath target) evs = 1%nat /\
    lookups CSS_SELECTOR NEXT_ROUND_ARROW evs = 0%nat /\
    lookups CSS_SELECTOR PREV_ROUND_ARROW evs = 0%nat.
Proof.
  unfold round_by_dropdown. intros E.
  repeat (progress inv_run || match goal with
     | Hf : safe_find _ _ _ = (Ret ?x, _) |- _ =>
         apply safe_find_spec in Hf as (? & Hf & ?); destruct x
     | Hf : found_and_clicked (Some _) _ = _ |- _ =>
         simpl in Hf; apply safe_click_spec in Hf as (? & Hf & ? & ?)
     | Hf : found_and_clicked None _ = _ |- _ => simpl in Hf
     | Hb : (if ?b then _ else _) _ = _ |- _ => destruct b
     end).
  prims. eexists. split; [chain|].
  repeat split; [count_clicks; lia | count_lookups; lia ..].
Qed.

(** X5: When the dropdown button and the option of the target round are
    found and clicked, [navigate_to_round] returns [True] from there: two
    clicks, one lookup of the button and one of the option, and no
    lookup of an arrow. *)
Theorem navigate_to_round_by_dropdown target current (st st0 st1 : session) :
  _extract_round st = (Ret current, st0) ->
  current <> Some target ->
  round_by_dropdown target st0 = (Ret true, st1) ->
  navigate_to_round target st = (Ret true, st1) /\
  exists evs,
    after st0 evs st1 /\
    clicks evs = 2%nat /\
    lookups CSS_SELECTOR ROUND_DROPDOWN_BUTTON evs = 1%nat /\
    lookups XPATH (round_option_xpath target) evs = 1%nat /\
    lookups CSS_SELECTOR NEXT_ROUND_ARROW evs = 0%nat /\
    lookups CSS_SELECTOR PREV_ROUND_ARROW evs = 0%nat.
Proof.
  intros Hcur Hne Hdrop. split; [|now apply round_by_dropdown_spec].
  unfold navigate_to_round, bind at 1. rewrite Hcur.
  rewrite bool_decide_eq_false_2 by exact Hne.
  unfold bind at 1. rewrite Hdrop. reflexivity.
Qed.

End Dropdown.

(** ** [scrape_match]: what it returns and raises *)

Section ScrapeMatch.
Context {World : Type} {drv : Driver World}.
Local Abbreviation D := (D World).
Local Abbreviation session := (session World).
Variable fields : extractors World.

Lemma scrape_handlers_catch e k :
  scrape_handlers (World := World) e = Some k -> k = ret ∅ /\ e <> KeyboardInterrupt.
Proof.
  unfold scrape_handlers, except_Exception.
  destruct e; simpl; intros [= <-]; split; congruence.
Qed.

Lemma scrape_handlers_pass e :
  scrape_handlers (World := World) e = None -> e = KeyboardInterrupt.
Proof. unfold scrape_handlers, except_Exception. destruct e; simpl; congruence. Qed.

(** The keys of a record that the body of [scrape_match] returns. *)
Lemma scrape_body_keys url md (st : session) data st' :
  scrape_body fields url md st = (Ret data, st') ->
  dom data = list_to_set (C := gset string)
               [ "matchday"; "date_time_info"; "teams"; "venue"; "referee";
                 "odds"; "crowd_voting"; "statistics" ] /\
  data !! "matchday" = Some (py_int_or_none md).
Proof.
  unfold scrape_body. intros E.
  repeat (apply bind_inv in E as [(? & ? & _ & E)|(? & _ & [=])]).
  injection E as <- _. split; [|reflexivity].
  rewrite !dom_insert_L, dom_empty_L. simpl. set_solver.
Qed.


End ScrapeMatch.

(** ** [wait_for_stat_rows] and its deadline *)

Section Poll.
Context {World : Type} {drv : Driver World}.
Local Abbreviation D := (D World).
Local Abbreviation session := (session World).


End Poll.

(** ** [main]: the ways out *)

Section RunnerExits.
Context {World : Type} {drv : Driver World}.
Variable fields : extractors World.
Variable retry : forall A : Type, nat -> Z -> D World A -> D World A.
Local Abbreviation state := (state World).
Local Abbreviation session := (session World).

(** [quit] lets nothing out but the interrupt of the user, does nothing
    on a scraper whose driver was not set up, and otherwise ends on the
    check of the session or, the session alive, on [driver.quit()]. *)
Lemma quit_spec (st : session) r st' :
  quit st = (r, st') ->
  (r = Ret tt \/ r = Raise KeyboardInterrupt) /\
  (uninterrupted -> r = Ret tt) /\
  (driver st = false -> st' = st) /\
  (driver st = true ->
   driver st' = true /\
   exists o,
     history st' = Ev SessionId o :: history st \/
     history st' = Ev DriverQuit o :: Ev SessionId None :: history st).
Proof.
  unfold quit, bind at 1, get_driver. destruct (driver st) eqn:Hd.
  2:{ intros [= <- <-]. repeat split; auto; discriminate. }
  unfold try_except, bind.
  destruct (prim SessionId st) as [[alive|x] s1] eqn:E1.
  - pose proof E1 as A1. apply (prim_inv SessionId st _ s1) in A1 as (w1 & d1 & _ & ->).
    destruct alive.
    + destruct (prim DriverQuit _) as [[u|y] s2] eqn:E2.
      * pose proof E2 as A2.
        apply (prim_inv DriverQuit _ _ s2) in A2 as (w2 & d2 & _ & ->).
        intros [= <- <-]. destruct u. simpl. rewrite Hd.
        repeat split; eauto; discriminate.
      * pose proof E2 as A2.
        apply (prim_inv DriverQuit _ _ s2) in A2 as (w2 & d2 & _ & ->).
        destruct (except_Exception (ret tt) y) as [k|] eqn:Hk.
        -- apply except_Exception_inv in Hk as [-> _]. intros [= <- <-].
           simpl. rewrite Hd. repeat split; eauto; discriminate.
        -- apply except_Exception_none in Hk as ->. intros [= <- <-].
           simpl. rewrite Hd. repeat split; eauto; try discriminate.
           intros Hu. now apply (prim_not_interrupted _ _ _ _ Hu) in E2.
    + intros [= <- <-]. simpl. rewrite Hd. repeat split; eauto; discriminate.
  - pose proof E1 as A1. apply (prim_inv SessionId st _ s1) in A1 as (w1 & d1 & _ & ->).
    destruct (except_Exception (ret tt) x) as [k|] eqn:Hk.
    + apply except_Exception_inv in Hk as [-> _]. intros [= <- <-].
      simpl. rewrite Hd. repeat split; eauto; discriminate.
    + apply except_Exception_none in Hk as ->. intros [= <- <-].
      simpl. rewrite Hd. repeat split; eauto; try discriminate.
      intros Hu. now apply (prim_not_interrupted _ _ _ _ Hu) in E1.
Qed.

(** X15: Whatever happens during the crawl, [main] quits the driver: it
    raises nothing but the interrupt of the user, which can only come
    from [quit] itself, and when the driver was set up the last call of
    the run is the session check of [quit] or, the session alive,
    [driver.quit()]. *)
Theorem main_always_quits
    start_matchday end_matchday season headless w t0 loaded r σ' :
  main fields retry start_matchday end_matchday season headless w t0 loaded
    = (r, σ') ->
  (r = Ret tt \/ r = Raise KeyboardInterrupt) /\
  (uninterrupted -> r = Ret tt) /\
  (driver (scraper σ') = true ->
   exists o rest,
     history (scraper σ') = Ev SessionId o :: rest \/
     history (scraper σ') = Ev DriverQuit o :: Ev SessionId None :: rest).
Proof.
  unfold main, main_from.
  destruct (crawl _ _ _ _ _ _ _) as [rc σ1] eqn:Ec. clear Ec.
  unfold lift. destruct (quit (scraper σ1)) as [rq s2] eqn:Eq.
  intros [= <- <-]. simpl.
  destruct (quit_spec _ _ _ Eq) as (H1 & H2 & H3 & H4).
  split; [exact H1|]. split; [exact H2|].
  intros Hd. destruct (driver (scraper σ1)) eqn:Hd1.
  - destruct (H4 eq_refl) as (_ & o & Ho). exists o, (history (scraper σ1)). exact Ho.
  - rewrite (H3 eq_refl) in Hd. congruence.
Qed.

(** A stored record without the key [match_id] stops the crawl before
    its first matchday. *)
Lemma match_ids_missing_key (data : list record) m :
  m ∈ data -> m !! "match_id" = None -> exists e, match_ids data = Raise e.
Proof.
  intros Hin Hm. induction data as [|d rest IH]; [now apply elem_of_nil in Hin|].
  simpl. apply elem_of_cons in Hin as [<-|Hin].
  - rewrite Hm. eauto.
  - destruct (IH Hin) as (e & ->).
    destruct (d !! "match_id") as [[]|]; eauto.
Qed.

(** X16: When a loaded record has no key [match_id], the set of scraped
    identifiers cannot be built: the run appends nothing. *)
Theorem record_without_id_stops_the_run
    start_matchday end_matchday season headless w t0 loaded r σ' m :
  m ∈ loaded -> m !! "match_id" = None ->
  main fields retry start_matchday end_matchday season headless w t0 loaded
    = (r, σ') ->
  all_match_data σ' = loaded.
Proof.
  intros Hin Hm E. apply main_extends in E as (new & -> & _ & Hids).
  destruct new as [|d new]; [apply app_nil_r|].
  destruct Hids as (ids & Hids); [discriminate|].
  destruct (match_ids_missing_key loaded m Hin Hm) as (e & He). congruence.
Qed.

Lemma range_empty lo hi : hi <= lo -> range lo hi = [].
Proof. intros H. unfold range. now replace (Z.to_nat (hi - lo)) with 0%nat by lia. Qed.

(** X17: An empty range of matchdays ([end_matchday < start_matchday]): the
    run appends nothing. *)
Theorem empty_range_stores_nothing
    start_matchday end_matchday season headless w t0 loaded r σ' :
  end_matchday < start_matchday ->
  main fields retry start_matchday end_matchday season headless w t0 loaded
    = (r, σ') ->
  all_match_data σ' = loaded.
Proof.
  intros Hlt. unfold main, main_from.
  destruct (crawl _ _ _ _ _ _ _) as [rc σ1] eqn:Ec.
  intros E%lift_store. rewrite E. clear E.
  unfold crawl in Ec. rewrite range_empty in Ec by lia.
  change loaded with (all_match_data (State (Session w [] t0 false None) loaded)).
  apply rbind_inv in Ec as [(u1 & σ2 & E1%lift_store & E)|(e & E1%lift_store & _)];
    [rewrite <- E1|exact E1].
  apply rbind_inv in E as [(u2 & σ3 & E2%lift_store & E)|(e & E2%lift_store & _)];
    [rewrite <- E2|exact E2].
  apply rbind_inv in E as [(u3 & σ4 & E3%lift_store & E)|(e & E3%lift_store & _)];
    [rewrite <- E3|exact E3].
  apply rbind_inv in E as [(sel & σ5 & E4%lift_store & E)|(e & E4%lift_store & _)];
    [rewrite <- E4|exact E4].
  destruct (negb sel); [now injection E as _ <-|].
  unfold rbind at 1, get_all_match_data at 1 in E.
  unfold rbind at 1 in E.
  destruct (match_ids (all_match_data σ5)) as [ids|e]; [|now injection E as _ <-].
  simpl in E. now injection E as _ <-.
Qed.

End RunnerExits.

(** ** These properties on the scripted browser and on sample texts *)

(** A click that an overlay intercepts goes through the JavaScript
    fallback at the first attempt. *)
Lemma intercepted_click_on_the_site :
  let drv := driver_of (site 0 false clicks_intercepted) in
  let st := on (page "25/26" (Some 1)) in
  let run := safe_click (drv := drv) season_button st in
  fst run = Ret true /\
  exists evs,
    after st evs (snd run) /\
    (click_attempts evs <= 3)%nat /\
    clicks evs = 1%nat.
Proof.
  intros drv st run. split; [run_model|].
  destruct (safe_click_tries_three_times (drv := drv) season_button st
              (fst run) (snd run)) as (evs & Ha & Hn & Hc & _); [run_model|].
  exists evs. split; [exact Ha|]. split; [exact Hn|].
  replace (fst run) with (Ret (A := bool) true) in Hc by run_model. exact Hc.
Defined.


Lemma round_12_with_spaces : parse_round "  Round 12 " = Ret (Some 12).
Proof.
  apply (parse_round_reads_the_label [" "; " "]%char ["1"; "2"]%char [" "]%char).
  - repeat constructor.
  - repeat constructor.
  - discriminate.
  - reflexivity.
  - simpl. lia.
Defined.

Lemma round_without_number : parse_round "Round" = Ret None.
Proof.
  apply parse_round_without_digits. vm_compute. repeat constructor.
Defined.

(** From round 5 to round 2 through the dropdown. *)
Lemma dropdown_from_5_to_2 :
  let drv := driver_of (site 0 false no_faults) in
  let st := on (page "24/25" (Some 5)) in
  let st0 := snd (_extract_round (drv := drv) st) in
  let st1 := snd (round_by_dropdown (drv := drv) 2 st0) in
  navigate_to_round (drv := drv) 2 st = (Ret true, st1) /\
  round (world st1) = Some 2 /\
  exists evs,
    after st0 evs st1 /\ clicks evs = 2%nat /\
    lookups CSS_SELECTOR NEXT_ROUND_ARROW evs = 0%nat /\
    lookups CSS_SELECTOR PREV_ROUND_ARROW evs = 0%nat.
Proof.
  intros drv st st0 st1.
  destruct (navigate_to_round_by_dropdown (drv := drv) 2 (Some 5) st st0 st1)
    as (E & evs & Ha & Hc & _ & _ & Hn & Hp);
    [run_model | discriminate | run_model |].
  split; [exact E|]. split; [run_model|].
  exists evs. auto.
Defined.

(** The two links of round 2. *)
Lemma links_of_round_2 :
  let drv := driver_of (site 0 false no_faults) in
  let run := get_match_links (drv := drv) (on (page "24/25" (Some 2))) in
  fst run = Ret [arsenal_chelsea; everton_fulham] /\
  Forall (fun l => startswith "http" (url l) = true /\
                   contains "/football/match/" (url l) = true)
         [arsenal_chelsea; everton_fulham].
Proof.
  intros drv run. split; [run_model|].
  apply (get_match_links_reports_match_pages (drv := drv)
           (on (page "24/25" (Some 2))) _ (snd run)).
  run_model.
Defined.

Lemma id_of_arsenal_chelsea :
  link_of_href "/football/match/arsenal-chelsea/KsR#id:111" = Some arsenal_chelsea.
Proof.
  apply (link_id_after_the_hash
           (chars "/football/match/arsenal-chelsea/KsR") ["1"; "1"; "1"]%char []).
  - vm_compute. repeat constructor; discriminate.
  - discriminate.
  - reflexivity.
  - exact I.
  - reflexivity.
Defined.

Lemma id_of_everton_fulham_with_slash :
  link_of_href "https://www.sofascore.com/football/match/everton-fulham/222/"
  = Some (Link "https://www.sofascore.com/football/match/everton-fulham/222/" "222").
Proof.
  apply (link_id_is_the_last_segment
           (chars "https://www.sofascore.com/football/match/everton-fulham")
           ["2"; "2"; "2"]%char ["/"]%char).
  - vm_compute. repeat constructor; discriminate.
  - discriminate.
  - repeat constructor; discriminate.
  - repeat constructor.
  - reflexivity.
Defined.



Lemma percentage_of_the_home_side :
  extract_percentage "Home 83% of the votes" = VInt 83.
Proof.
  apply (extract_percentage_reads_the_number
           (chars "Home ") ["8"; "3"]%char (chars " of the votes")).
  - vm_compute. repeat constructor.
  - discriminate.
  - reflexivity.
  - simpl. lia.
Defined.

Lemma percentage_of_a_text_without_sign :
  extract_percentage "83 percent" = VStr "N/A".
Proof.
  apply extract_percentage_without_a_sign.
  vm_compute. repeat constructor; discriminate.
Defined.

(** A crawl of the site ends with [driver.quit()]. *)
Lemma crawl_of_the_site_quits :
  let run := crawl_1_3 no_faults [] in
  fst run = Ret tt /\
  exists o rest,
    history (scraper (snd run)) = Ev SessionId o :: rest \/
    history (scraper (snd run)) = Ev DriverQuit o :: Ev SessionId None :: rest.
Proof.
  intros run.
  destruct (main_always_quits (drv := driver_of (site 0 false no_faults))
              no_fields retry_once 1 3 "24/25" true (page "24/25" (Some 1)) 0 []
              (fst run) (snd run)) as (_ & Hu & Hq); [run_model|].
  split; [apply Hu, no_faults_uninterrupted|]. apply Hq. run_model.
Defined.

(** A store whose only record has no [match_id]: the crawl stores
    nothing. *)
Lemma crawl_over_a_record_without_id :
  let loaded : list record :=
    [ {[ "source_url"%string := VStr (url arsenal_chelsea) ]} ] in
  all_match_data (snd (crawl_1_3 no_faults loaded)) = loaded.
Proof.
  intros loaded.
  apply (record_without_id_stops_the_run
           (drv := driver_of (site 0 false no_faults)) no_fields retry_once
           1 3 "24/25" true (page "24/25" (Some 1)) 0 loaded
           (fst (crawl_1_3 no_faults loaded)) _
           {[ "source_url"%string := VStr (url arsenal_chelsea) ]}).
  - apply list_elem_of_singleton. reflexivity.
  - reflexivity.
  - run_model.
Defined.

(** A crawl from matchday 3 to matchday 1 stores nothing. *)
Lemma crawl_of_an_empty_range :
  let run := main (drv := driver_of (site 0 false no_faults)) no_fields retry_once
               3 1 "24/25" true (page "24/25" (Some 1)) 0 [] in
  all_match_data (snd run) = [].
Proof.
  intros run.
  apply (empty_range_stores_nothing
           (drv := driver_of (site 0 false no_faults)) no_fields retry_once
           3 1 "24/25" true (page "24/25" (Some 1)) 0 [] (fst run) (snd run)).
  - lia.
  - run_model.
Defined.

Lemma goalkeeper_is_a_goal :
  classify_event_type "Penalty saved by the GOALkeeper" = "goal".
Proof.
  apply (classify_event_type_goal_first "Penalty saved by the " "GOAL" "keeper").
  reflexivity.
Defined.

Lemma votes_with_a_comma :
  extract_total_votes "Total votes: 12,345" = VStr "12345".
Proof.
  apply (total_votes_drops_the_commas ["1"; "2"; ","; "3"; "4"; "5"]%char []).
  - discriminate.
  - reflexivity.
  - exact I.
Defined.

Import Commentary.

(** ** [main]: every appended record is saved *)

Lemma stamp_lookup (d : record) (mid u : string) :
  let d2 := <[ "source_url"%string := VStr u ]>
              (<[ "match_id"%string := VStr mid ]> d) in
  d2 !! "match_id"%string = Some (VStr mid) /\
  d2 !! "source_url"%string = Some (VStr u).
Proof.
  simpl. split.
  - rewrite lookup_insert_ne by discriminate. apply lookup_insert_eq.
  - apply lookup_insert_eq.
Qed.

Section LiftHistory.
Context {World : Type} {drv : Driver World}.
Local Abbreviation state := (state World).

Lemma lift_prim_history (c : call) (σ : state) r σ' :
  lift (prim c) σ = (r, σ') ->
  history (scraper σ') = Ev c (exn_of r) :: history (scraper σ) /\
  all_match_data σ' = all_match_data σ.
Proof.
  unfold lift. destruct (prim c (scraper σ)) as [r0 s] eqn:E.
  intros [= <- <-]. apply (prim_inv c _ r0 s) in E as (w & d & _ & ->).
  split; reflexivity.
Qed.

End LiftHistory.

Ltac lift_history H :=
  match type of H with
  | lift (prim ?c) ?σ = (?r, ?σ') => apply (lift_prim_history c σ r σ') in H
  end.

Section Persist.
Context {World : Type} {drv : Driver World}.
Variable fields : extractors World.
Local Abbreviation state := (state World).
Local Abbreviation session := (session World).

(** X18: A record is not appended without being saved: when a visit has
    changed the store, it has appended one record, stamped with the
    identifier and the URL of the link, and has called [save_data] with
    the whole store, that record included.  When the visit returns, the
    save went through and the identifier is in the set of scraped
    identifiers; when the save raises, the visit raises. *)
Theorem appended_record_is_saved md l (ids : gset string) (σ : state) r σ' :
  visit fields md l ids σ = (r, σ') ->
  all_match_data σ' <> all_match_data σ ->
  exists d o,
    all_match_data σ' = (all_match_data σ ++ [d])%list /\
    d !! "match_id" = Some (VStr (match_id l)) /\
    d !! "source_url" = Some (VStr (url l)) /\
    In (Ev (SaveData (all_match_data σ')) o) (history (scraper σ')) /\
    match r with
    | Ret ids' => o = None /\ ids' = {[ match_id l ]} ∪ ids
    | Raise e => True
    end /\
    (forall e, o = Some e -> r = Raise e).
Proof.
  unfold visit. case_bool_decide as Hin.
  { intros [= <- <-] Hne. congruence. }
  intros E Hne.
  apply rbind_inv in E as [(data & σ1 & E1 & E)|(e & E1 & ->)].
  2:{ apply try_scrape_store in E1. congruence. }
  apply try_scrape_store in E1.
  destruct data as [d|]; [destruct (dict_truthy d) eqn:Ht|].
  2,3: exfalso; apply Hne;
       apply rbind_inv in E as [(ids1 & σ2 & [= <- <-] & E)|(e & [=] & _)];
       apply pause_store in E as [-> _]; exact E1.
  apply rbind_inv in E as [(ids1 & σ2 & E2 & E)|(e & E2 & ->)].
  - apply rbind_inv in E2 as [(u & σa & [= <- <-] & E2)|(e & [=] & _)].
    apply rbind_inv in E2 as [(all & σb & [= <- <-] & E2)|(e & [=] & _)].
    simpl in E2.
    apply rbind_inv in E2 as [(u' & σc & E3 & [= <- <-])|(e & E3 & [=])].
    lift_history E3; destruct E3 as [Hh Hs]. simpl in Hh, Hs.
    rewrite E1 in Hh, Hs.
    destruct (stamp_lookup d (match_id l) (url l)) as [Hid Hurl].
    apply rbind_inv in E as [(p & σd & E4 & E)|(e & E4 & ->)];
      lift_history E4; destruct E4 as [Hh4 Hs4].
    + apply rbind_inv in E as [(u'' & σe & E5 & E)|(e & E5 & ->)];
        unfold sleep in E5; lift_history E5; destruct E5 as [Hh5 Hs5].
      * injection E as <- <-.
        eexists _, None. rewrite Hs5, Hs4, Hs.
        split; [reflexivity|]. split; [exact Hid|]. split; [exact Hurl|].
        split; [rewrite Hh5, Hh4, Hh; simpl; auto|].
        split; [split; reflexivity|discriminate].
      * eexists _, None. rewrite Hs5, Hs4, Hs.
        split; [reflexivity|]. split; [exact Hid|]. split; [exact Hurl|].
        split; [rewrite Hh5, Hh4, Hh; simpl; auto|].
        split; [exact I|discriminate].
    + eexists _, None. rewrite Hs4, Hs.
      split; [reflexivity|]. split; [exact Hid|]. split; [exact Hurl|].
      split; [rewrite Hh4, Hh; simpl; auto|].
      split; [exact I|discriminate].
  - apply rbind_inv in E2 as [(u & σa & [= <- <-] & E2)|(e' & [=] & _)].
    apply rbind_inv in E2 as [(all & σb & [= <- <-] & E2)|(e' & [=] & _)].
    simpl in E2.
    apply rbind_inv in E2 as [(u' & σc & E3 & [=])|(e' & E3 & [= <-])].
    lift_history E3; destruct E3 as [Hh Hs]. simpl in Hh, Hs.
    rewrite E1 in Hh, Hs.
    destruct (stamp_lookup d (match_id l) (url l)) as [Hid Hurl].
    eexists _, (Some e). rewrite Hs.
    split; [reflexivity|]. split; [exact Hid|]. split; [exact Hurl|].
    split; [rewrite Hh; simpl; auto|].
    split; [exact I|]. intros e0 [= <-]. reflexivity.
Qed.

End Persist.

(** ** The statistics rows and the scrolling of their container *)

Section Rows.
Context {World : Type} {drv : Driver World}.
Local Abbreviation D := (D World).
Local Abbreviation session := (session World).

Lemma stat_row_keys r (st : session) v st' :
  stat_row r st = (Ret v, st') ->
  exists d, v = VDict d /\
            dom d = list_to_set (C := gset string)
                      ["name"; "home_value"; "away_value"].
Proof.
  unfold stat_row. intros E.
  repeat (apply bind_inv in E as [(? & ? & _ & E)|(? & _ & [=])]).
  injection E as <- _. eexists. split; [reflexivity|].
  simpl. rewrite !dom_insert_L, dom_empty_L. set_solver.
Qed.

Lemma rows_started_app a b :
  rows_started (a ++ b) = (rows_started a + rows_started b)%nat.
Proof. unfold rows_started. now rewrite List.filter_app, List.length_app. Qed.

Lemma failures_app a b : failures (a ++ b) = (failures a + failures b)%nat.
Proof. unfold failures. now rewrite List.filter_app, List.length_app. Qed.

(** One reading of a cell: one lookup inside the row, and one failure
    exactly when it raises. *)
Lemma first_text_events r sel (st : session) res st' :
  first_text r sel st = (res, st') ->
  exists evs,
    after st evs st' /\
    rows_started evs
      = (if String.eqb sel "bdi.Box.iQnHnj span.Text" then 1 else 0)%nat /\
    failures evs = match res with Ret _ => 0 | Raise _ => 1 end%nat.
Proof.
  unfold first_text. intros E.
  apply bind_inv in E as [(span & s1 & E1 & E)|(x & E1 & ->)].
  - destruct span as [|e span].
    + inv_run. prims. eexists. split; [chain|].
      unfold rows_started, failures, is_row_start, is_failure. simpl.
      destruct (String.eqb sel _); split; reflexivity.
    + apply bind_inv in E as [(text & s2 & E2 & E)|(x & E2 & ->)].
      * inv_run. prims. eexists. split; [chain|].
        unfold rows_started, failures, is_row_start, is_failure. simpl.
        destruct (String.eqb sel _); split; reflexivity.
      * prims. eexists. split; [chain|].
        unfold rows_started, failures, is_row_start, is_failure. simpl.
        destruct (String.eqb sel _); split; reflexivity.
  - prims. eexists. split; [chain|].
    unfold rows_started, failures, is_row_start, is_failure. simpl.
    destruct (String.eqb sel _); split; reflexivity.
Qed.

(** The extraction of a row starts with the lookup of the home cell and
    stops at the first call that raises. *)
Lemma stat_row_events r (st : session) res st' :
  stat_row r st = (res, st') ->
  exists evs,
    after st evs st' /\
    rows_started evs = 1%nat /\
    failures evs = match res with Ret _ => 0 | Raise _ => 1 end%nat.
Proof.
  unfold stat_row. intros E.
  apply bind_inv in E as [(h & s1 & E1 & E)|(x & E1 & ->)];
    apply first_text_events in E1 as (evs1 & A1 & S1 & F1);
    change (String.eqb _ _) with true in S1; cbv iota in S1, F1.
  2:{ exists evs1. auto. }
  apply bind_inv in E as [(n & s2 & E2 & E)|(x & E2 & ->)];
    apply first_text_events in E2 as (evs2 & A2 & S2 & F2);
    change (String.eqb _ _) with false in S2; cbv iota in S2, F2.
  2:{ eexists. split; [chain|]. rewrite ?app_nil_r, ?rows_started_app, ?failures_app. lia. }
  apply bind_inv in E as [(a & s3 & E3 & E)|(x & E3 & ->)];
    apply first_text_events in E3 as (evs3 & A3 & S3 & F3);
    change (String.eqb _ _) with false in S3; cbv iota in S3, F3.
  2:{ eexists. split; [chain|]. rewrite ?app_nil_r, ?rows_started_app, ?failures_app. lia. }
  inv_run. eexists. split; [chain|].
  rewrite ?app_nil_r, ?rows_started_app, ?failures_app. lia.
Qed.

(** X19: In the loop over the statistics rows, a row whose extraction
    raises an exception is left out and the loop goes on with the rows
    that follow; a row that is read is kept, in its place.  The loop
    raises nothing but the interrupt of the user.  When it returns, the
    extraction of every row has been started, the entries are as many as
    the rows less the calls that have raised (one for each row left
    out), and each entry has the keys [name], [home_value] and
    [away_value]. *)
Theorem stat_rows_skips_a_failed_row rows (st : session) r st' :
  stat_rows rows st = (r, st') ->
  (forall row rest e s1,
     rows = row :: rest ->
     stat_row row st = (Raise e, s1) -> e <> KeyboardInterrupt ->
     stat_rows rest s1 = (r, st')) /\
  (forall row rest v s1,
     rows = row :: rest ->
     stat_row row st = (Ret v, s1) ->
     exists r1,
       stat_rows rest s1 = (r1, st') /\
       r = match r1 with
           | Ret stats => Ret (v :: stats)
           | Raise e => Raise e
           end) /\
  exists evs,
    after st evs st' /\
    match r with
    | Ret stats =>
        rows_started evs = List.length rows /\
        (List.length stats + failures evs)%nat = List.length rows /\
        Forall (fun v => exists d, v = VDict d /\
                  dom d = list_to_set (C := gset string)
                            ["name"; "home_value"; "away_value"]) stats
    | Raise e => e = KeyboardInterrupt
    end.
Proof.
  intros E. split; [|split].
  - intros row rest e s1 -> E1 He. simpl in E.
    unfold bind at 1, try_except, bind at 1 in E. rewrite E1 in E.
    unfold except_Exception in E.
    replace (is_Exception e) with true in E by (now destruct e).
    unfold ret at 1 in E. unfold bind at 1 in E.
    destruct (stat_rows rest s1) as [[stats|x] s2]; exact E.
  - intros row rest v s1 -> E1. simpl in E.
    unfold bind at 1, try_except, bind at 1 in E. rewrite E1 in E.
    unfold ret at 1 in E. unfold bind at 1 in E.
    destruct (stat_rows rest s1) as [[stats|x] s2];
      injection E as <- <-; eexists; split; reflexivity.
  - revert st r st' E.
    induction rows as [|row rows IH]; intros st r st' E; simpl in E.
    + inv_run. exists []. split; [apply after_refl|].
      split; [reflexivity|]. split; [reflexivity|constructor].
    + apply bind_inv in E as [(s & st1 & E1 & E)|(e & E1 & ->)].
      * assert (H1 : exists evs1,
                  after st evs1 st1 /\ rows_started evs1 = 1%nat /\
                  failures evs1 = (match s with Some _ => 0 | None => 1 end)%nat /\
                  forall v, s = Some v ->
                    exists d, v = VDict d /\
                      dom d = list_to_set (C := gset string)
                                ["name"; "home_value"; "away_value"]).
        { apply try_except_inv in E1
            as [(a & E1 & [= <-])|[(x & s1 & k & E1 & Hk & Ek)|(x & _ & _ & [=])]].
          - apply bind_inv in E1 as [(v' & sa & E1 & [= <- <-])|(? & _ & [=])].
            pose proof (stat_row_keys _ _ _ _ E1) as Hkeys.
            apply stat_row_events in E1 as (evs1 & A1 & S1 & F1).
            exists evs1. split; [exact A1|]. split; [exact S1|].
            split; [exact F1|]. intros v [= <-]. exact Hkeys.
          - apply except_Exception_inv in Hk as [-> _]. injection Ek as <- <-.
            apply bind_inv in E1 as [(v' & sa & _ & [=])|(y & E1 & _)].
            apply stat_row_events in E1 as (evs1 & A1 & S1 & F1).
            exists evs1. split; [exact A1|]. split; [exact S1|].
            split; [exact F1|]. discriminate. }
        destruct H1 as (evs1 & A1 & S1 & F1 & K1).
        apply bind_inv in E as [(stats & st2 & E2 & E)|(e & E2 & ->)];
          apply IH in E2 as (evs2 & A2 & H2).
        2:{ eexists. split; [chain|]. exact H2. }
        destruct H2 as (S2 & F2 & K2). injection E as <- <-.
        eexists. split; [chain|].
        rewrite ?app_nil_r, ?rows_started_app, ?failures_app. simpl List.length.
        destruct s as [v|]; simpl List.length.
        -- split; [lia|]. split; [lia|]. constructor; [now apply K1|exact K2].
        -- split; [lia|]. split; [lia|exact K2].
      * apply try_except_inv in E1
          as [(a & _ & [=])|[(x & s1 & k & _ & Hk & Ek)|(x & E1 & Hk & [= ->])]].
        -- apply except_Exception_inv in Hk as [-> _]. discriminate Ek.
        -- apply except_Exception_none in Hk as ->.
           apply bind_inv in E1 as [(v' & sa & _ & [=])|(y & E1 & _)].
           apply stat_row_events in E1 as (evs1 & A1 & _). eauto.
Qed.

Lemma scrolls_app a b : scrolls (a ++ b) = (scrolls a + scrolls b)%nat.
Proof. unfold scrolls. now rewrite List.filter_app, List.length_app. Qed.

Lemma scroll_loop_bound n elt last (st : session) r st' :
  scroll_loop n elt last st = (r, st') ->
  exists evs, after st evs st' /\ (scrolls evs <= n)%nat /\ clicks evs = 0%nat.
Proof.
  revert last st. induction n as [|n IH]; intros last st E; simpl in E.
  - inv_run. exists []. split; [apply after_refl|]. split; [unfold scrolls; simpl; lia|reflexivity].
  - apply bind_inv in E as [(u & s1 & E1 & E)|(e & E1 & ->)].
    2:{ prims. eexists. split; [chain|]. split; [|count_clicks; reflexivity].
        unfold scrolls. simpl. lia. }
    apply bind_inv in E as [(u2 & s2 & E2 & E)|(e & E2 & ->)].
    2:{ unfold sleep in E2. prims. eexists. split; [chain|].
        split; [|count_clicks; reflexivity]. unfold scrolls. simpl. lia. }
    apply bind_inv in E as [(new & s3 & E3 & E)|(e & E3 & ->)].
    2:{ unfold sleep in E2. prims. eexists. split; [chain|].
        split; [|count_clicks; reflexivity]. unfold scrolls. simpl. lia. }
    unfold sleep in E2.
    assert (Hpre : exists evs0, after st evs0 s3 /\ scrolls evs0 = 1%nat
                                /\ clicks evs0 = 0%nat).
    { prims. eexists. split; [chain|]. split; [|count_clicks; reflexivity].
      reflexivity. }
    destruct Hpre as (evs0 & Ha0 & Hs0 & Hc0).
    case_bool_decide.
    + inv_run. exists evs0. split; [exact Ha0|]. split; [lia|exact Hc0].
    + apply IH in E as (evs & Ha & Hs & Hc).
      exists (evs ++ evs0)%list. split; [eapply after_trans; eassumption|].
      rewrite scrolls_app, clicks_app. lia.
Qed.

(** X20: [_scroll_container] scrolls the container to its end at most
    five times, and clicks nothing. *)
Theorem scroll_container_scrolls_five_times elt (st : session) r st' :
  _scroll_container elt st = (r, st') ->
  exists evs, after st evs st' /\ (scrolls evs <= 5)%nat /\ clicks evs = 0%nat.
Proof.
  unfold _scroll_container. intros E.
  apply bind_inv in E as [(last & s1 & E1 & E)|(e & E1 & ->)].
  - apply scroll_loop_bound in E as (evs & Ha & Hs & Hc). prims.
    exists (evs ++ [Ev (ExecuteScript js_scroll_height (Some elt)) None])%list.
    split; [eapply after_trans; eassumption|].
    rewrite scrolls_app, clicks_app. split; [|count_clicks; lia].
    unfold scrolls at 2. simpl. lia.
  - prims. eexists. split; [chain|]. split; [|count_clicks; reflexivity].
    unfold scrolls. simpl. lia.
Qed.

End Rows.

(** ** The time of a commentary entry *)

Section CommentaryTime.
Context {World : Type} {drv : Driver World}.
Local Abbreviation D := (D World).
Local Abbreviation session := (session World).

Lemma time_by_selectors_spec sels entry (st : session) r st' :
  time_by_selectors sels entry st = (r, st') ->
  exists found, r = Ret found /\
    match found with Some t => contains "'" t = true | None => True end.
Proof.
  revert st. induction sels as [|sel sels IH]; intros st E; simpl in E.
  - inv_run. exists None. auto.
  - apply bind_inv in E as [(found & s1 & E1 & E)|(e & E1 & _)].
    + destruct found as [t|]; [|eapply IH, E].
      injection E as <- _. exists (Some t). split; [reflexivity|].
      apply try_except_inv in E1
        as [(a & E1 & [= <-])|[(x & s2 & k & _ & [= <-] & [=])|(x & _ & [=] & _)]].
      apply bind_inv in E1 as [(els & sa & _ & E1)|(? & _ & [=])].
      destruct els as [|e els]; [discriminate E1|].
      apply bind_inv in E1 as [(text & sb & _ & E1)|(? & _ & [=])].
      destruct (negb _ && contains "'" (strip text)) eqn:Hc; [|discriminate E1].
      injection E1 as <- _. now apply andb_true_iff in Hc as [_ Hc].
    + apply try_except_inv in E1
        as [(a & _ & [=])|[(x & s2 & k & _ & [= <-] & [=])|(x & _ & [=] & _)]].
Qed.

(** X21: [extract_time_from_entry] raises nothing, not even the
    interrupt of the user, which its bare [except] clauses swallow; the
    time it returns is "N/A" or contains a minute mark. *)
Theorem extract_time_from_entry_never_raises entry (st : session) r st' :
  extract_time_from_entry entry st = (r, st') ->
  exists t, r = Ret t /\ (t = "N/A" \/ contains "'" t = true).
Proof.
  unfold extract_time_from_entry. intros E.
  apply bind_inv in E as [(found & s1 & E1 & E)|(e & E1 & _)];
    apply time_by_selectors_spec in E1 as (found' & Hf & Hc); [|discriminate Hf].
  injection Hf as <-. destruct found as [t|].
  { injection E as <- _. eauto. }
  apply bind_inv in E as [(fb & s2 & E2 & E)|(e & E2 & _)].
  - destruct fb as [t|]; injection E as <- _; [|eauto].
    exists t. split; [reflexivity|]. right.
    apply try_except_inv in E2
      as [(a & E2 & [= <-])|[(x & s3 & k & _ & [= <-] & [=])|(x & _ & [=] & _)]].
    apply bind_inv in E2 as [(text & sa & _ & E2)|(? & _ & [=])].
    destruct (search _ _ text) as [m|]; [|discriminate E2].
    destruct (group 1 m) as [g|]; [|discriminate E2].
    injection E2 as <- _. unfold contains. rewrite chars_app.
    apply contains_chars_after. apply (contains_chars_here ["'"%char] []).
  - apply try_except_inv in E2
      as [(a & _ & [=])|[(x & s3 & k & _ & [= <-] & [=])|(x & _ & [=] & _)]].
Qed.

End CommentaryTime.

(** ** These properties on the scripted browser *)

(** The visit of a match of the site: the record is appended and saved. *)
Lemma visit_of_a_match_on_the_site :
  let drv := driver_of (site 0 false no_faults) in
  let σ := State (on (page "24/25" (Some 2))) [] in
  let run := visit (drv := drv) no_fields 2 arsenal_chelsea ∅ σ in
  exists d o,
    all_match_data (snd run) = [d] /\
    d !! "match_id" = Some (VStr "111") /\
    In (Ev (SaveData [d]) o) (history (scraper (snd run))).
Proof.
  intros drv σ run.
  destruct (appended_record_is_saved (drv := drv) no_fields 2 arsenal_chelsea ∅ σ
              (fst run) (snd run))
    as (d & o & Hs & Hid & _ & Hin & _); [run_model | |].
  - intros H. apply (f_equal (@List.length record)) in H.
    vm_compute in H. discriminate H.
  - exists d, o. rewrite Hs in Hin. auto.
Defined.

(** A statistics view with three rows, the second of which has gone
    stale: the loop reads the first row, leaves the second out and goes
    on to the third. *)
Lemma rows_of_the_site :
  let drv := driver_of (site 3 true (stale_row 1)) in
  let st := on (page "24/25" (Some 2)) in
  let rows := [row_elt 0; row_elt 1; row_elt 2] in
  let run := stat_rows (drv := drv) rows st in
  fst run = Ret [total_shots; total_shots] /\
  fst (stat_row (drv := drv) (row_elt 1) st) = Raise StaleElementReferenceException /\
  exists evs,
    after st evs (snd run) /\
    rows_started evs = 3%nat /\
    failures evs = 1%nat.
Proof.
  intros drv st rows run. split; [run_model|]. split; [run_model|].
  destruct (stat_rows_skips_a_failed_row (drv := drv) rows st
              (Ret [total_shots; total_shots]) (snd run))
    as (_ & _ & evs & Ha & Hs & Hf & _); [run_model|].
  exists evs. split; [exact Ha|]. split; [exact Hs|].
  simpl in Hf. lia.
Defined.

(** The container of the site keeps its height: one scroll. *)
Lemma scroll_of_the_site :
  let drv := driver_of (site 3 true no_faults) in
  let st := on (page "24/25" (Some 2)) in
  let run := _scroll_container (drv := drv) stats_container st in
  exists evs, after st evs (snd run) /\ (scrolls evs <= 5)%nat /\ clicks evs = 0%nat.
Proof.
  intros drv st run.
  apply (scroll_container_scrolls_five_times (drv := drv) stats_container st
           (fst run) (snd run)).
  run_model.
Defined.

(** A row of the site has no time on it. *)
Lemma time_of_a_row_of_the_site :
  let drv := driver_of (site 3 true no_faults) in
  let run := extract_time_from_entry (drv := drv) (row_elt 0)
               (on (page "24/25" (Some 2))) in
  exists t, fst run = Ret t /\ (t = "N/A" \/ contains "'" t = true).
Proof.
  intros drv run.
  apply (extract_time_from_entry_never_raises (drv := drv) (row_elt 0)
           (on (page "24/25" (Some 2))) (fst run) (snd run)).
  run_model.
Defined.

(** ** [extract_card_stats_from_text] on a text without numbers *)

Lemma no_digit_in_any_case fl c :
  is_digit c = false -> cls_matches fl is_digit c = false.
Proof.
  unfold cls_matches. destruct (IGNORECASE fl); [|auto].
  destruct c as [[] [] [] [] [] [] [] []]; vm_compute; congruence.
Qed.

(** A pattern that goes on with one digit or more does not match where
    no digit is left. *)
Lemma plus_digit_fails {R} fl (s : list ascii) cs
    (k : list ascii -> captures -> option R) :
  Forall (fun c => is_digit c = false) s ->
  run fl (Plus digit) s cs k = None.
Proof.
  intros Hs. unfold Plus, digit. rewrite run_cat.
  destruct s as [|c s]; [reflexivity|]. rewrite run_cls.
  inversion Hs; subst. now rewrite no_digit_in_any_case.
Qed.

Lemma findall_no_digits n (s : list ascii) :
  Forall (fun c => is_digit c = false) s ->
  findall_chars n no_flags decimal_pattern s = [].
Proof.
  revert s. induction n as [|n IH]; intros s Hs; [reflexivity|].
  assert (Hm : match_here no_flags decimal_pattern s = None).
  { unfold match_here, decimal_pattern. cbn [Seq]. rewrite run_cat.
    now apply plus_digit_fails. }
  simpl. rewrite Hm. destruct s as [|c s]; [reflexivity|].
  apply IH. now inversion Hs.
Qed.

(** X22: On a text without a digit, [extract_card_stats_from_text]
    finds neither average: it returns [(None, None)]. *)
Theorem card_stats_without_numbers (text : string) :
  Forall (fun c => is_digit c = false) (chars text) ->
  extract_card_stats_from_text text = (VNone, VNone).
Proof.
  intros Hno. unfold extract_card_stats_from_text, search, findall.
  rewrite search_fails.
  - now rewrite findall_no_digits.
  - intros s' Hs. unfold match_here, card_pattern, card_number. cbn [Seq].
    do 5 (rewrite run_cat; apply run_fails; intros ? ? ?).
    rewrite run_cat, run_grp, run_cat. apply plus_digit_fails.
    eapply suffix_forall; [|exact Hno].
    repeat (etrans; [eassumption|]). reflexivity.
Qed.

Lemma card_stats_of_a_referee_without_average :
  extract_card_stats_from_text "Referee: Michael Oliver, Avg. cards: n/a"
  = (VNone, VNone).
Proof.
  apply card_stats_without_numbers. vm_compute. repeat constructor.
Defined.

(** ** Numbers beyond the limit of [int] *)

(** [int] refuses a string of more than 4300 digits. *)
Lemma int_of_str_too_long (ds : list ascii) :
  (4300 < List.length ds)%nat -> int_of_str (of_chars ds) = None.
Proof.
  intros Hlen. unfold int_of_str. rewrite chars_of_chars.
  now rewrite (proj2 (Nat.ltb_lt int_max_str_digits (List.length ds)) Hlen).
Qed.

(** X23: A percentage of more than 4300 digits is not converted: [int]
    raises, the bare [except] catches it and [extract_percentage]
    returns "N/A". *)
Theorem extract_percentage_beyond_the_limit (pre ds rest : list ascii) :
  Forall (fun c => is_digit c = false) pre ->
  List.forallb is_digit ds = true -> (4300 < List.length ds)%nat ->
  extract_percentage (of_chars (pre ++ ds ++ "%"%char :: rest)) = VStr "N/A".
Proof.
  intros Hpre Hd Hlen.
  assert (Hne : ds <> []) by (intros ->; simpl in Hlen; lia).
  unfold extract_percentage, search.
  rewrite chars_of_chars, search_skips.
  - erewrite search_here by (apply percentage_here; assumption).
    unfold group. cbn [List.find fst snd Nat.eqb].
    now rewrite int_of_str_too_long.
  - intros a b -> Hb. destruct b as [|c b]; [congruence|].
    apply List.Forall_app in Hpre as [_ Hpre]. inversion Hpre; subst.
    now apply percentage_not_here.
Qed.

(** X24: A round label whose number has more than 4300 digits makes
    [int] raise: the label does not read as a round, [ValueError] leaves
    [_extract_round]. *)
Theorem parse_round_beyond_the_limit (ws1 ds ws2 : list ascii) :
  Forall (fun c => is_space c = true) ws1 ->
  Forall (fun c => is_space c = true) ws2 ->
  List.forallb is_digit ds = true -> (4300 < List.length ds)%nat ->
  parse_round (of_chars (ws1 ++ chars "Round " ++ ds ++ ws2))
  = Raise ValueError.
Proof.
  intros H1 H2 Hd Hlen.
  assert (Hne : ds <> []) by (intros ->; simpl in Hlen; lia).
  unfold parse_round, search, strip.
  rewrite !chars_of_chars.
  rewrite lstrip_chars_spaces by exact H1.
  change (chars "Round ") with ["R"; "o"; "u"; "n"; "d"; " "]%char.
  cbn [app]. rewrite lstrip_chars_keeps by reflexivity.
  change ("R"%char :: "o"%char :: "u"%char :: "n"%char :: "d"%char :: " "%char
            :: ds ++ ws2)%list
    with ((chars "Round " ++ ds) ++ ws2)%list.
  rewrite rstrip_chars_spaces by exact H2.
  destruct (exists_last Hne) as (ds' & d & Eds).
  assert (Hlast : is_space d = false).
  { apply digit_not_space. rewrite Eds in Hd.
    rewrite List.forallb_app in Hd. apply andb_true_iff in Hd as [_ Hd].
    simpl in Hd. now rewrite andb_true_r in Hd. }
  rewrite Eds at 1. rewrite app_assoc, rstrip_chars_keeps by exact Hlast.
  rewrite <- app_assoc, <- Eds.
  erewrite search_here by (apply round_here; assumption).
  unfold group. cbn [List.find fst snd Nat.eqb].
  now rewrite int_of_str_too_long.
Qed.

(** ** [scrape_match] when the tab does not open *)

Section FailedTab.
Context {World : Type} {drv : Driver World} {win : Windows World}.
Local Abbreviation D := (D World).
Local Abbreviation session := (session World).
Variable fields : extractors World.
Hypothesis laws : window_laws.
Hypothesis failed : failed_calls_keep_windows.

(** X25: When [window.open('')] raises an exception, the body of
    [scrape_match] has opened no tab and the focus is still on the
    original tab.  The [finally] clause then closes the window in focus:
    with its guard holding and [close()] going through, the original tab
    is closed and the other windows are kept; the switch back to the
    original tab fails and that failure is swallowed.  [scrape_match]
    returns the empty record, or lets the interrupt of the user
    through. *)
Theorem failed_tab_opening_closes_the_original_tab
    url md (st : session) o e w1 d1 w2 d2 h hs w3 d3 w4 d4 r st' :
  printable md ->
  original_tab st = Some o ->
  focused (world st) = Some o ->
  exec (ExecuteScript "window.open('');" None) (world st) = (Raise e, w1, d1) ->
  e <> KeyboardInterrupt ->
  exec SessionId w1 = (Ret true, w2, d2) ->
  exec WindowHandles w2 = (Ret (h :: hs), w3, d3) ->
  exec DriverClose w3 = (Ret tt, w4, d4) ->
  scrape_match fields url (Some md) st = (r, st') ->
  (r = Ret ∅ \/ r = Raise KeyboardInterrupt) /\
  open_windows (world st') = without o (open_windows (world st)) /\
  ~ In o (open_windows (world st')) /\
  exists x, List.hd_error (history st') = Some (Ev (SwitchToWindow (Some o)) (Some x)).
Proof.
  intros _ Ho Hfo E1 He E2 E3 E4.
  destruct (failed _ _ _ _ _ E1) as [Hw1 Hf1].
  destruct (other_calls laws SessionId _ _ _ _ eq_refl E2) as [Hw2 Hf2].
  destruct (other_calls laws WindowHandles _ _ _ _ eq_refl E3) as [Hw3 Hf3].
  destruct (close_window laws _ _ _ _ E4) as (x & Hx & Hw4).
  assert (x = o) as -> by congruence.
  unfold scrape_match, bind at 1, ret at 1, try_finally, try_except at 1.
  unfold scrape_body, bind at 1, prim at 1. rewrite E1.
  assert (Hh : scrape_handlers (World := World) e = Some (ret ∅)).
  { unfold scrape_handlers, except_Exception. destruct e; simpl; congruence. }
  rewrite Hh. unfold ret at 1.
  unfold close_tab, try_except, bind, get_original_tab.
  unfold prim at 1. simpl world. rewrite E2. simpl world.
  unfold prim at 1. simpl world. rewrite E3. simpl world.
  unfold prim at 1. simpl world. rewrite E4. simpl world. simpl original_tab.
  rewrite Ho. unfold prim at 1. simpl world.
  destruct (exec (SwitchToWindow (Some o)) w4) as [[[u|y] w5] d5] eqn:E5.
  { destruct (switch_to_window laws _ _ _ _ _ E5) as ((t & [= <-] & Hin) & _).
    rewrite Hw4 in Hin. now apply not_in_without in Hin. }
  destruct (failed _ _ _ _ _ E5) as [Hw5 Hf5].
  assert (Hwin : open_windows w5 = without o (open_windows (world st))) by congruence.
  simpl exn_of. unfold except_Exception.
  destruct y; simpl; unfold ret; intros [= <- <-]; simpl.
  all: split; [auto|]; split; [exact Hwin|]; split; [|eauto].
  all: rewrite Hwin; apply not_in_without.
Qed.

End FailedTab.

(** ** These properties on the scripted browser and on sample texts *)

Lemma percentage_of_4301_digits :
  extract_percentage (of_chars (List.repeat "1"%char 4301 ++ ["%"%char]))
  = VStr "N/A".
Proof.
  apply (extract_percentage_beyond_the_limit [] (List.repeat "1"%char 4301) []).
  - constructor.
  - vm_compute. reflexivity.
  - rewrite List.repeat_length. lia.
Defined.

Lemma round_of_4301_digits :
  parse_round (of_chars (chars "Round " ++ List.repeat "7"%char 4301))
  = Raise ValueError.
Proof.
  rewrite <- (app_nil_r (List.repeat "7"%char 4301)).
  apply (parse_round_beyond_the_limit [] (List.repeat "7"%char 4301) []).
  - constructor.
  - constructor.
  - vm_compute. reflexivity.
  - rewrite List.repeat_length. lia.
Defined.

Lemma sim_failed_calls cfg : failed_calls_keep_windows (drv := driver_of cfg).
Proof.
  intros c w e w' d. rewrite sim_exec.
  destruct (faults cfg c); [intros [= _ <- _]; split; reflexivity|].
  destruct c; unfold answer, timed_out;
    repeat match goal with
    | |- context [match focus w with _ => _ end] => destruct (focus w)
    | |- context [if ?b then _ else _] => destruct b
    | |- context [match locate ?a ?b ?c with _ => _ end] => destruct (locate a b c)
    | |- context [match locate_all ?a ?b ?c ?d with _ => _ end] =>
        destruct (locate_all a b c d)
    | |- context [match ?h with Some _ => _ | None => _ end] => destruct h
    end;
    intros [= _ <- _]; split; reflexivity.
Qed.

(** The tab of a match does not open: the original tab is closed and
    the browser is left without a window. *)
Lemma scrape_without_a_new_tab :
  let drv := driver_of (site 0 false tab_does_not_open) in
  let st := on (page "24/25" (Some 2)) in
  let run := scrape_match (drv := drv) no_fields (url arsenal_chelsea) (Some 2) st in
  fst run = Ret ∅ /\
  windows (world (snd run)) = [] /\
  focus (world (snd run)) = None /\
  ~ In "main"%string (windows (world (snd run))).
Proof.
  intros drv st run.
  do 3 (split; [run_model|]).
  set (w := world st).
  set (w4 := set_windows w [] None 0).
  destruct (failed_tab_opening_closes_the_original_tab (drv := drv) no_fields
              (sim_window_laws _) (sim_failed_calls _)
              (url arsenal_chelsea) 2 st "main"%string WebDriverException
              w 0%N w 0%N "main"%string [] w 0%N w4 0%N
              (fst run) (snd run))
    as (_ & _ & Hnot & _); try run_model; [discriminate|exact Hnot].
Defined.
